(** * Scribble backend: rooms, game engine, word, guess and score engines

    A shallow embedding of the server-side game logic (rooms.js,
    gameEngine.js, wordEngine.js, guessEngine.js, scoreEngine.js, players.js
    and the event handlers of index.js) together with the properties of the
    specification that are stated about it.

    Conventions of the embedding:
    - a JavaScript object that is shared and mutated (a room, a player, the
      module-level Maps) is a value threaded through the functions; the Maps
      are [gmap]s, so that two handles on the same object are two lookups of
      the same key;
    - [undefined]/[null] results are [None];
    - strings are sequences of code units in the range U+0000..U+00FF;
    - integers are [Z] and possibly fractional numbers are [Q]; the numbers
      that the code only floors, clamps or compares are exact, and the score
      engine, which divides, rounds to binary64 after every operation. *)

From Stdlib Require Import ZArith QArith Qround Qpower Qabs String Ascii List
  Lia Lqa Permutation Sorted SpecFloat.
From stdpp Require Import gmap strings list fin_maps pretty.

Set Warnings "-register-all".

Local Open Scope string_scope.
Local Open Scope list_scope.
Local Open Scope Z_scope.

(** ** JavaScript values and string primitives *)

Module JS.

(** Values that arrive in an event payload or leave in a serialization.
    An object keeps its fields in insertion order. A number is a rational:
    payloads travel as JSON, which has no NaN, and a literal too large for a
    double behaves under the clamps below like the large number it denotes. *)
Inductive Value : Type :=
| Undefined
| Null
| Bool (b : bool)
| Num (q : Q)
| Str (s : string)
| Arr (items : list Value)
| Obj (fields : list (string * Value)).

(** [v[k]] for a property name that is neither an index nor [length]. *)
Fixpoint assoc (k : string) (fields : list (string * Value)) : Value :=
  match fields with
  | [] => Undefined
  | (k', v) :: rest => if String.eqb k k' then v else assoc k rest
  end.

Definition prop (v : Value) (k : string) : Value :=
  match v with
  | Obj fields => assoc k fields
  | _ => Undefined
  end.

(** [!v || typeof v !== 'object'] is false exactly for arrays and objects. *)
Definition is_object (v : Value) : bool :=
  match v with
  | Arr _ | Obj _ => true
  | _ => false
  end.

Definition keys (v : Value) : list string :=
  match v with
  | Obj fields => map fst fields
  | _ => []
  end.

(** Whether [k] names a field of [v] or of a value inside [v]. *)
Fixpoint has_key (k : string) (v : Value) : bool :=
  match v with
  | Arr items => existsb (has_key k) items
  | Obj fields =>
      existsb (fun field => String.eqb k (fst field) || has_key k (snd field)) fields
  | _ => false
  end.

Definition of_option_str (o : option string) : Value :=
  match o with
  | Some s => Str s
  | None => Undefined
  end.

(** WhiteSpace and LineTerminator code units below U+0100. *)
Definition is_whitespace (c : ascii) : bool :=
  let n := nat_of_ascii c in
  ((9 <=? n)%nat && (n <=? 13)%nat) || (n =? 32)%nat || (n =? 160)%nat.

Definition is_upper (c : ascii) : bool :=
  let n := nat_of_ascii c in
  ((65 <=? n)%nat && (n <=? 90)%nat)
  || ((192 <=? n)%nat && (n <=? 222)%nat && negb (n =? 215)%nat).

Definition is_lower (c : ascii) : bool :=
  let n := nat_of_ascii c in
  ((97 <=? n)%nat && (n <=? 122)%nat)
  || ((224 <=? n)%nat && (n <=? 254)%nat && negb (n =? 247)%nat).

Definition lower_char (c : ascii) : ascii :=
  if is_upper c then ascii_of_nat (nat_of_ascii c + 32) else c.

(** The upper-case forms of U+00B5, U+00DF and U+00FF lie outside the
    modelled range; those three code units are left as they are. *)
Definition upper_char (c : ascii) : ascii :=
  if is_lower c then ascii_of_nat (nat_of_ascii c - 32) else c.

Fixpoint map_chars (f : ascii -> ascii) (s : string) : string :=
  match s with
  | EmptyString => EmptyString
  | String c s' => String (f c) (map_chars f s')
  end.

Definition toLowerCase : string -> string := map_chars lower_char.
Definition toUpperCase : string -> string := map_chars upper_char.

Fixpoint trimStart (s : string) : string :=
  match s with
  | EmptyString => EmptyString
  | String c s' => if is_whitespace c then trimStart s' else s
  end.

Fixpoint trimEnd (s : string) : string :=
  match s with
  | EmptyString => EmptyString
  | String c s' =>
      match trimEnd s' with
      | EmptyString => if is_whitespace c then EmptyString else String c EmptyString
      | t => String c t
      end
  end.

Definition trim (s : string) : string := trimEnd (trimStart s).

(** [s.split('')]: one single-unit string per code unit. *)
Fixpoint split_chars (s : string) : list string :=
  match s with
  | EmptyString => []
  | String c s' => String c EmptyString :: split_chars s'
  end.

(** [l.join(sep)]. *)
Definition join (sep : string) (l : list string) : string := String.concat sep l.

Definition first_char (s : string) : option ascii := String.get 0 s.

(** A string that does not begin with white space. *)
Definition starts_clean (s : string) : Prop :=
  forall c, first_char s = Some c -> is_whitespace c = false.

Fixpoint last_char (s : string) : option ascii :=
  match s with
  | EmptyString => None
  | String c EmptyString => Some c
  | String _ s' => last_char s'
  end.

(** What [!v] negates. *)
Definition truthy (v : Value) : bool :=
  match v with
  | Undefined | Null => false
  | Bool b => b
  | Num q => negb (Qeq_bool q 0)
  | Str s => negb (String.eqb s "")
  | Arr _ | Obj _ => true
  end.

(** Every code unit of [s] satisfies [P]. *)
Fixpoint all_units (P : ascii -> Prop) (s : string) : Prop :=
  match s with
  | EmptyString => True
  | String c s' => P c /\ all_units P s'
  end.

End JS.

(** ** Data model *)

(** gameEngine.js: [PHASES] and [ROOM_STATUS]. *)
Inductive Phase : Type :=
| IDLE
| WORD_SELECT
| DRAWING
| ROUND_END
| GAME_END.

Inductive RoomStatus : Type :=
| WAITING
| IN_GAME
| FINISHED.

#[global] Instance Phase_eq_dec : EqDecision Phase.
Proof. solve_decision. Defined.

#[global] Instance RoomStatus_eq_dec : EqDecision RoomStatus.
Proof. solve_decision. Defined.

Definition phase_name (p : Phase) : string :=
  match p with
  | IDLE => "idle"
  | WORD_SELECT => "word_select"
  | DRAWING => "drawing"
  | ROUND_END => "round_end"
  | GAME_END => "game_end"
  end.

Definition status_name (s : RoomStatus) : string :=
  match s with
  | WAITING => "waiting"
  | IN_GAME => "in_game"
  | FINISHED => "finished"
  end.

Record Settings : Type := mkSettings {
  maxPlayers : Z;
  drawTime : Z;
  rounds : Z;
  hints : bool;
  customWords : list string
}.

(** The [game] object attached to a room by [startGame]. [drawerId] is
    [room.players[i]], which is [undefined] out of range. The fields
    [roundStartTime], [selectedWord] and [maskedWord] are absent until
    assigned. *)
Record Game : Type := mkGame {
  phase : Phase;
  currentRound : Z;
  totalRounds : Z;
  drawerIndex : nat;
  drawerId : option string;
  guessedPlayers : list string;
  roundStartTime : option Z;
  selectedWord : option string;
  maskedWord : option string
}.

Record Room : Type := mkRoom {
  id : string;
  ownerId : string;
  players : list string;
  settings : Settings;
  status : RoomStatus;
  game : option Game
}.

(** The player object of players.js. [createPlayer] sets no [score]. *)
Record Player : Type := mkPlayer {
  p_id : string;
  socketId : string;
  name : string;
  roomId : option string;
  score : option Z
}.

Definition set_players (l : list string) (r : Room) : Room :=
  mkRoom (id r) (ownerId r) l (settings r) (status r) (game r).

Definition set_ownerId (o : string) (r : Room) : Room :=
  mkRoom (id r) o (players r) (settings r) (status r) (game r).

Definition set_settings (s : Settings) (r : Room) : Room :=
  mkRoom (id r) (ownerId r) (players r) s (status r) (game r).

Definition set_status (s : RoomStatus) (r : Room) : Room :=
  mkRoom (id r) (ownerId r) (players r) (settings r) s (game r).

Definition set_game (g : option Game) (r : Room) : Room :=
  mkRoom (id r) (ownerId r) (players r) (settings r) (status r) g.

Definition set_phase (p : Phase) (g : Game) : Game :=
  mkGame p (currentRound g) (totalRounds g) (drawerIndex g) (drawerId g)
    (guessedPlayers g) (roundStartTime g) (selectedWord g) (maskedWord g).

Definition set_guessedPlayers (l : list string) (g : Game) : Game :=
  mkGame (phase g) (currentRound g) (totalRounds g) (drawerIndex g) (drawerId g)
    l (roundStartTime g) (selectedWord g) (maskedWord g).

Definition set_drawer (i : nat) (d : option string) (g : Game) : Game :=
  mkGame (phase g) (currentRound g) (totalRounds g) i d
    (guessedPlayers g) (roundStartTime g) (selectedWord g) (maskedWord g).

Definition set_currentRound (n : Z) (g : Game) : Game :=
  mkGame (phase g) n (totalRounds g) (drawerIndex g) (drawerId g)
    (guessedPlayers g) (roundStartTime g) (selectedWord g) (maskedWord g).

Definition set_roundStartTime (t : option Z) (g : Game) : Game :=
  mkGame (phase g) (currentRound g) (totalRounds g) (drawerIndex g) (drawerId g)
    (guessedPlayers g) t (selectedWord g) (maskedWord g).

Definition set_words (w m : option string) (g : Game) : Game :=
  mkGame (phase g) (currentRound g) (totalRounds g) (drawerIndex g) (drawerId g)
    (guessedPlayers g) (roundStartTime g) w m.

Definition set_score (s : option Z) (p : Player) : Player :=
  mkPlayer (p_id p) (socketId p) (name p) (roomId p) s.

(** What a function returns next to the state it leaves behind: a value, or
    the exception it threw. *)
Inductive Completion (A : Type) : Type :=
| Normal (a : A)
| Throw (e : string).

Arguments Normal {A} a.
Arguments Throw {A} e.

(** The [{ success, ..., error }] object that the engine functions return;
    [data] carries the remaining fields. *)
Record Reply (A : Type) : Type := mkReply {
  success : bool;
  data : A;
  error : option string
}.

Arguments mkReply {A} success data error.
Arguments success {A} r.
Arguments data {A} r.
Arguments error {A} r.

Definition ok {A : Type} (a : A) : Reply A := mkReply true a None.
Definition fail {A : Type} (a : A) (msg : string) : Reply A := mkReply false a (Some msg).

(** ** rooms.js *)

Module Rooms.

Definition ROOM_ID_LENGTH : nat := 6.
Definition ROOM_ID_CHARS : string := "ABCDEFGHIJKLMNOPQRSTUVWXYZ0123456789".

Definition DEFAULT_SETTINGS : Settings := mkSettings 8 80 3 true [].

Definition LIMITS_maxPlayers : Z * Z := (2, 12).
Definition LIMITS_drawTime : Z * Z := (30, 120).
Definition LIMITS_rounds : Z * Z := (1, 10).
Definition LIMITS_customWords_maxLength : nat := 50.
Definition LIMITS_customWords_maxCount : nat := 50.

(** [ROOM_ID_CHARS[Math.floor(Math.random() * ROOM_ID_CHARS.length)]], with
    [draw k] the value drawn at the [k]-th call, taken in the range of the
    index. *)
Definition random_char (draw : nat -> nat) (k : nat) : string :=
  match String.get (draw k mod String.length ROOM_ID_CHARS) ROOM_ID_CHARS with
  | Some c => String c EmptyString
  | None => EmptyString
  end.

Fixpoint random_chars (draw : nat -> nat) (k n : nat) : string :=
  match n with
  | O => EmptyString
  | S n' => random_char draw k +:+ random_chars draw (S k) n'
  end.

(** The do-while loop of [generateRoomId]; [attempts] candidates have been
    drawn so far, and the loop gives up when the counter reaches 100. *)
Fixpoint generateRoomId_loop (draw : nat -> nat) (has : string -> bool)
    (attempts fuel : nat) : Completion string :=
  match fuel with
  | O => Throw "Failed to generate unique room ID after maximum attempts"
  | S fuel' =>
      let roomId := random_chars draw (attempts * ROOM_ID_LENGTH) ROOM_ID_LENGTH in
      let attempts := S attempts in
      if (100 <=? attempts)%nat
      then Throw "Failed to generate unique room ID after maximum attempts"
      else if has roomId
           then generateRoomId_loop draw has attempts fuel'
           else Normal roomId
  end.

Definition generateRoomId (draw : nat -> nat) (rooms : gmap string Room)
    : Completion string :=
  generateRoomId_loop draw (fun i => bool_decide (is_Some (rooms !! i))) 0 100.

Definition normalizeRoomId (roomId : JS.Value) : string :=
  match roomId with
  | JS.Str s => JS.toUpperCase (JS.trim s)
  | _ => ""
  end.

(** [typeof word === 'string' && word.trim().length > 0] *)
Definition nonblank_string (word : JS.Value) : option string :=
  match word with
  | JS.Str s => if (0 <? String.length (JS.trim s))%nat then Some s else None
  | _ => None
  end.

(** The five blocks of [validateSettings], each of which overwrites one
    field of [validated] when the raw field has the expected type. *)
Definition validate_maxPlayers (settings : JS.Value) (validated : Settings)
    : Settings :=
  match JS.prop settings "maxPlayers" with
  | JS.Num q =>
      mkSettings
        (Z.max (fst LIMITS_maxPlayers) (Z.min (snd LIMITS_maxPlayers) (Qfloor q)))
        (drawTime validated) (rounds validated) (hints validated)
        (customWords validated)
  | _ => validated
  end.

Definition validate_drawTime (settings : JS.Value) (validated : Settings)
    : Settings :=
  match JS.prop settings "drawTime" with
  | JS.Num q =>
      mkSettings (maxPlayers validated)
        (Z.max (fst LIMITS_drawTime) (Z.min (snd LIMITS_drawTime) (Qfloor q)))
        (rounds validated) (hints validated) (customWords validated)
  | _ => validated
  end.

Definition validate_rounds (settings : JS.Value) (validated : Settings)
    : Settings :=
  match JS.prop settings "rounds" with
  | JS.Num q =>
      mkSettings (maxPlayers validated) (drawTime validated)
        (Z.max (fst LIMITS_rounds) (Z.min (snd LIMITS_rounds) (Qfloor q)))
        (hints validated) (customWords validated)
  | _ => validated
  end.

Definition validate_hints (settings : JS.Value) (validated : Settings)
    : Settings :=
  match JS.prop settings "hints" with
  | JS.Bool b =>
      mkSettings (maxPlayers validated) (drawTime validated)
        (rounds validated) b (customWords validated)
  | _ => validated
  end.

(** [.filter(...).map(...).filter(...).slice(0, maxCount)] *)
Definition sanitize_words (items : list JS.Value) : list string :=
  take LIMITS_customWords_maxCount
    (List.filter
       (fun word => (String.length word <=? LIMITS_customWords_maxLength)%nat)
       (map (fun word => JS.toLowerCase (JS.trim word))
          (omap nonblank_string items))).

Definition validate_customWords (settings : JS.Value) (validated : Settings)
    : Settings :=
  match JS.prop settings "customWords" with
  | JS.Arr items =>
      mkSettings (maxPlayers validated) (drawTime validated)
        (rounds validated) (hints validated) (sanitize_words items)
  | _ => validated
  end.

Definition validateSettings (settings : JS.Value) : Settings :=
  let validated := DEFAULT_SETTINGS in
  if negb (JS.is_object settings) then validated
  else
    let validated := validate_maxPlayers settings validated in
    let validated := validate_drawTime settings validated in
    let validated := validate_rounds settings validated in
    let validated := validate_hints settings validated in
    let validated := validate_customWords settings validated in
    validated.

Definition settings_value (s : Settings) : JS.Value :=
  JS.Obj [ ("maxPlayers", JS.Num (inject_Z (maxPlayers s)));
           ("drawTime", JS.Num (inject_Z (drawTime s)));
           ("rounds", JS.Num (inject_Z (rounds s)));
           ("hints", JS.Bool (hints s));
           ("customWords", JS.Arr (map JS.Str (customWords s))) ].

Definition serializePlayer (room : Room) (player : Player) : JS.Value :=
  JS.Obj [ ("id", JS.Str (p_id player));
           ("name", JS.Str (name player));
           ("isOwner", JS.Bool (String.eqb (p_id player) (ownerId room))) ].

Definition serializeRoom (room : Room) (getPlayer : string -> option Player)
    : JS.Value :=
  let playerData :=
    map (serializePlayer room) (omap getPlayer (players room)) in
  JS.Obj [ ("id", JS.Str (id room));
           ("ownerId", JS.Str (ownerId room));
           ("players", JS.Arr playerData);
           ("settings", settings_value (settings room));
           ("status", JS.Str (status_name (status room))) ].

Definition createRoom (draw : nat -> nat) (rooms : gmap string Room)
    (playerId : string) (settings : JS.Value)
    : gmap string Room * Reply (option Room) :=
  let validatedSettings := validateSettings settings in
  match generateRoomId draw rooms with
  | Throw _ => (rooms, fail None "Failed to generate room ID")
  | Normal roomId =>
      let room := mkRoom roomId playerId [playerId] validatedSettings WAITING None in
      (<[roomId := room]> rooms, ok (Some room))
  end.

Definition joinRoom (rooms : gmap string Room) (playerId : string)
    (roomId : JS.Value) : gmap string Room * Reply (option Room) :=
  let normalizedRoomId := normalizeRoomId roomId in
  match rooms !! normalizedRoomId with
  | None => (rooms, fail None "Room not found")
  | Some room =>
      if negb (bool_decide (status room = WAITING))
      then (rooms, fail None "Room is not accepting players")
      else if bool_decide (playerId ∈ players room)
      then (rooms, fail None "Already in this room")
      else if (maxPlayers (settings room) <=? Z.of_nat (length (players room)))
      then (rooms, fail None "Room is full")
      else
        let room := set_players (players room ++ [playerId]) room in
        (<[normalizedRoomId := room]> rooms, ok (Some room))
  end.

(** [room.players.indexOf(playerId)] *)
Definition indexOf (playerId : string) (l : list string) : option nat :=
  fst <$> list_find (fun p => p = playerId) l.

(** The reply of [leaveRoom] carries [room] and [deleted]. *)
Definition leaveRoom (rooms : gmap string Room) (playerId : string)
    (roomId : JS.Value) : gmap string Room * Reply (option Room * bool) :=
  let normalizedRoomId := normalizeRoomId roomId in
  match rooms !! normalizedRoomId with
  | None => (rooms, fail (None, false) "Room not found")
  | Some room =>
      match indexOf playerId (players room) with
      | None => (rooms, fail (None, false) "Player not in room")
      | Some playerIndex =>
          let room := set_players (delete playerIndex (players room)) room in
          match players room with
          | [] => (delete normalizedRoomId rooms, ok (None, true))
          | first :: _ =>
              let room :=
                if String.eqb (ownerId room) playerId
                then set_ownerId first room
                else room in
              (<[normalizedRoomId := room]> rooms, ok (Some room, false))
          end
      end
  end.

Definition updateRoomSettings (rooms : gmap string Room) (playerId : string)
    (roomId : JS.Value) (newSettings : JS.Value)
    : gmap string Room * Reply (option Settings) :=
  let normalizedRoomId := normalizeRoomId roomId in
  match rooms !! normalizedRoomId with
  | None => (rooms, fail None "Room not found")
  | Some room =>
      if negb (String.eqb (ownerId room) playerId)
      then (rooms, fail None "Only room owner can update settings")
      else if negb (bool_decide (status room = WAITING))
      then (rooms, fail None "Settings locked: game has started")
      else
        let validatedSettings := validateSettings newSettings in
        if (maxPlayers validatedSettings <? Z.of_nat (length (players room)))
        then (rooms,
              fail None ("Cannot set max players below current player count ("
                         +:+ pretty (length (players room)) +:+ ")"))
        else
          (<[normalizedRoomId := set_settings validatedSettings room]> rooms,
           ok (Some validatedSettings))
  end.

Definition getRoom (rooms : gmap string Room) (roomId : JS.Value) : option Room :=
  rooms !! normalizeRoomId roomId.

(** [for (const room of rooms.values()) if (room.players.includes(playerId))
    return room]. The Map is visited in insertion order, which the model
    does not record; the rooms are visited here in the order of
    [map_to_list]. Both orders give the same room whenever at most one room
    has the player. *)
Definition getRoomByPlayer (rooms : gmap string Room) (playerId : string)
    : option Room :=
  snd <$> List.find (fun entry => bool_decide (playerId ∈ players (snd entry)))
            (map_to_list rooms).

Definition getRoomCount (rooms : gmap string Room) : nat := size rooms.

(** A code unit of [ROOM_ID_CHARS]. *)
Definition code_unit (c : ascii) : Prop :=
  exists i, String.get i ROOM_ID_CHARS = Some c.

(** A custom word as [sanitize_words] leaves it: trimmed, in lower case, of
    1 to 50 code units. *)
Definition clean_word (w : string) : Prop :=
  JS.trim w = w /\ JS.toLowerCase w = w /\ (1 <= String.length w <= 50)%nat.

End Rooms.

(** ** gameEngine.js *)

Module GameEngine.

(** [{ valid, error }] *)
Definition canStartGame (room : Room) (playerId : string) : bool * option string :=
  if negb (String.eqb (ownerId room) playerId)
  then (false, Some "Only room owner can start the game")
  else if negb (bool_decide (status room = WAITING))
  then (false, Some "Game already in progress or finished")
  else if (length (players room) <? 2)%nat
  then (false, Some "Need at least 2 players to start")
  else (true, None).

Definition hasActiveGame (room : Room) : bool * option string :=
  match game room with
  | None => (false, Some "No active game in this room")
  | Some _ =>
      if negb (bool_decide (status room = IN_GAME))
      then (false, Some "Game is not active")
      else (true, None)
  end.

Definition initializeGameState (room : Room) : Game :=
  mkGame WORD_SELECT 1 (rounds (settings room)) 0 (players room !! 0%nat) []
    None None None.

Definition startGame (room : Room) (playerId : string)
    : Room * Reply (option Game) :=
  let validation := canStartGame room playerId in
  if negb (fst validation)
  then (room, mkReply false None (snd validation))
  else
    let game := initializeGameState room in
    let room := set_game (Some game) room in
    let room := set_status IN_GAME room in
    (room, ok (Some game)).

Record DrawerInfo : Type := mkDrawerInfo {
  di_drawerId : option string;
  di_drawerIndex : nat;
  roundIncremented : bool
}.

(** [getNextDrawer] reads [room.game] without a check: on a room without a
    game the property access throws. *)
Definition getNextDrawer (room : Room) : Room * Completion DrawerInfo :=
  match game room with
  | None => (room, Throw "TypeError: Cannot read properties of undefined")
  | Some game =>
      let playerCount := length (players room) in
      let nextIndex := (drawerIndex game + 1)%nat in
      let wrapped := (playerCount <=? nextIndex)%nat in
      let nextIndex := if wrapped then 0%nat else nextIndex in
      let game :=
        if wrapped then set_currentRound (currentRound game + 1) game else game in
      let roundIncremented := wrapped in
      let game := set_drawer nextIndex (players room !! nextIndex) game in
      (set_game (Some game) room,
       Normal (mkDrawerInfo (drawerId game) nextIndex roundIncremented))
  end.

Definition startRound (room : Room) : Room * Reply (option Game) :=
  let validation := hasActiveGame room in
  if negb (fst validation)
  then (room, mkReply false None (snd validation))
  else
    match game room with
    | None => (room, mkReply false None (snd validation))
    | Some game =>
        let game := set_guessedPlayers [] game in
        let game := set_phase WORD_SELECT game in
        (set_game (Some game) room, ok (Some game))
    end.

(** The reply carries [nextPhase] and [gameEnded]. *)
Definition endRound (room : Room) : Room * Reply (option Phase * bool) :=
  let validation := hasActiveGame room in
  if negb (fst validation)
  then (room, mkReply false (None, false) (snd validation))
  else
    match game room with
    | None => (room, mkReply false (None, false) (snd validation))
    | Some game =>
        let game := set_phase ROUND_END game in
        let room := set_game (Some game) room in
        let isLastDrawer :=
          (Z.of_nat (drawerIndex game) =? Z.of_nat (length (players room)) - 1) in
        let isLastRound := (totalRounds game <=? currentRound game) in
        if isLastDrawer && isLastRound
        then (room, ok (Some GAME_END, true))
        else (room, ok (Some WORD_SELECT, false))
    end.

(** The reply carries [drawerInfo] and [roundChanged]. *)
Definition progressToNextDrawer (room : Room)
    : Room * Completion (Reply (option DrawerInfo * bool)) :=
  let validation := hasActiveGame room in
  if negb (fst validation)
  then (room, Normal (mkReply false (None, false) (snd validation)))
  else
    match getNextDrawer room with
    | (room, Throw e) => (room, Throw e)
    | (room, Normal drawerInfo) =>
        let '(room, _) := startRound room in
        (room, Normal (ok (Some drawerInfo, roundIncremented drawerInfo)))
    end.

(** The reply carries [roundsPlayed]. *)
Definition endGame (room : Room) : Room * Reply Z :=
  let validation := hasActiveGame room in
  if negb (fst validation)
  then (room, mkReply false 0 (snd validation))
  else
    match game room with
    | None => (room, mkReply false 0 (snd validation))
    | Some game =>
        let roundsPlayed := currentRound game in
        let game := set_phase GAME_END game in
        let room := set_game (Some game) room in
        let room := set_status FINISHED room in
        (room, ok roundsPlayed)
    end.

Definition resetGame (room : Room) : Room * Reply unit :=
  let room := set_game None room in
  let room := set_status WAITING room in
  (room, ok tt).

(** [Object.values(PHASES).includes(newPhase)] *)
Definition phase_of_name (newPhase : string) : option Phase :=
  List.find (fun p => String.eqb (phase_name p) newPhase)
    [IDLE; WORD_SELECT; DRAWING; ROUND_END; GAME_END].

Definition transitionPhase (room : Room) (newPhase : string) : Room * Reply unit :=
  let validation := hasActiveGame room in
  if negb (fst validation)
  then (room, mkReply false tt (snd validation))
  else
    match game room with
    | None => (room, mkReply false tt (snd validation))
    | Some game =>
        match phase_of_name newPhase with
        | None => (room, fail tt ("Invalid phase: " +:+ newPhase))
        | Some p => (set_game (Some (set_phase p game)) room, ok tt)
        end
    end.

Definition shouldEndGame (room : Room) : bool :=
  match game room with
  | None => false
  | Some game =>
      (Z.of_nat (drawerIndex game) =? Z.of_nat (length (players room)) - 1)
      && (totalRounds game <=? currentRound game)
  end.

Definition getCurrentDrawer (room : Room) : option string :=
  match game room with
  | Some game => drawerId game
  | None => None
  end.

(** [room.game && room.game.drawerId === playerId], used as a condition. *)
Definition isCurrentDrawer (room : Room) (playerId : string) : bool :=
  match game room with
  | Some game => bool_decide (drawerId game = Some playerId)
  | None => false
  end.

End GameEngine.

(** ** wordEngine.js *)

Module WordEngine.

Definition WORD_LIST : list string :=
  [ "cat"; "dog"; "house"; "tree"; "car"; "sun"; "moon"; "star"; "book"; "pen";
    "chair"; "table"; "door"; "window"; "phone"; "computer"; "keyboard"; "mouse";
    "apple"; "banana"; "orange"; "cake"; "pizza"; "hamburger"; "ice cream";
    "bird"; "fish"; "lion"; "tiger"; "elephant"; "giraffe"; "monkey"; "bear";
    "flower"; "grass"; "mountain"; "ocean"; "river"; "beach"; "cloud"; "rain";
    "bicycle"; "airplane"; "train"; "boat"; "bus"; "motorcycle"; "truck";
    "hat"; "shoes"; "shirt"; "pants"; "dress"; "jacket"; "glasses"; "watch";
    "camera"; "guitar"; "piano"; "violin"; "drum"; "microphone"; "speaker";
    "lighthouse"; "bridge"; "castle"; "tower"; "pyramid"; "statue"; "fountain";
    "butterfly"; "dragonfly"; "spider"; "bee"; "ant"; "snake"; "turtle"; "frog";
    "cactus"; "bamboo"; "palm tree"; "forest"; "desert"; "island"; "volcano";
    "helicopter"; "submarine"; "rocket"; "satellite"; "telescope"; "microscope";
    "backpack"; "umbrella"; "flashlight"; "compass"; "map"; "globe"; "flag";
    "crown"; "sword"; "shield"; "treasure"; "key"; "lock"; "chain"; "ring";
    "kaleidoscope"; "telescope"; "microscope"; "periscope"; "binoculars";
    "architect"; "engineer"; "scientist"; "astronaut"; "pilot"; "chef"; "artist";
    "skyscraper"; "cathedral"; "monument"; "amphitheater"; "aqueduct"; "colosseum";
    "chameleon"; "peacock"; "flamingo"; "penguin"; "ostrich"; "eagle"; "hawk";
    "tornado"; "hurricane"; "earthquake"; "avalanche"; "tsunami"; "meteor";
    "saxophone"; "trumpet"; "trombone"; "flute"; "clarinet"; "harmonica"; "accordion";
    "knight"; "wizard"; "dragon"; "unicorn"; "phoenix"; "mermaid"; "vampire" ].

Definition WORD_OPTIONS_COUNT : nat := 3.
Definition WORD_SELECTION_TIMEOUT : Z := 15000.

(** [pool.includes(w)] *)
Definition includes (w : string) (l : list string) : bool :=
  existsb (String.eqb w) l.

Definition getWordPool (customWords : list string) : list string :=
  let pool := WORD_LIST in
  if (0 <? length customWords)%nat
  then
    let customLower := map JS.toLowerCase customWords in
    pool ++ List.filter (fun w => negb (includes w pool)) customLower
  else pool.

(** [shuffle l] stands for [[...l].sort(() => Math.random() - 0.5)], the
    order that the random comparator produced. *)
Definition generateWordOptions (shuffle : list string -> list string)
    (wordPool : list string) (count : nat) : list string :=
  let wordPool := if (length wordPool =? 0)%nat then WORD_LIST else wordPool in
  let optionsCount := Nat.min count (length wordPool) in
  let shuffled := shuffle wordPool in
  take optionsCount shuffled.

Definition mask_char (char : string) : string :=
  if String.eqb char " " then " " else "_".

Definition maskWord (word : string) : string :=
  if String.eqb word "" then ""
  else JS.join " " (map mask_char (JS.split_chars word)).

(** [word.replace(/\s/g, '')] *)
Fixpoint remove_whitespace (s : string) : string :=
  match s with
  | EmptyString => EmptyString
  | String c s' =>
      if JS.is_whitespace c then remove_whitespace s'
      else String c (remove_whitespace s')
  end.

(** [for (let i = start; i < wordLength; i += 4) positionsToReveal.push(i)],
    for a [start] below 4. *)
Definition every_fourth (start wordLength : nat) : list nat :=
  List.filter (fun i => (i mod 4 =? start)%nat) (seq 0 wordLength).

(** The loop of [generateHint] that builds the display: [charIndex] counts
    the non-space units seen so far. *)
Fixpoint hint_display (revealed : list nat) (word : string) (charIndex : nat)
    : string :=
  match word with
  | EmptyString => EmptyString
  | String char rest =>
      if Ascii.eqb char " "%char
      then
        " " +:+ (match rest with EmptyString => "" | String _ _ => " " end)
        +:+ hint_display revealed rest charIndex
      else
        String (if existsb (Nat.eqb charIndex) revealed then char else "_"%char)
          ((match rest with
            | EmptyString => ""
            | String nextChar _ => if Ascii.eqb nextChar " "%char then "" else " "
            end)
           +:+ hint_display revealed rest (S charIndex))
  end.

(** [hintLevel] is the number of letters to reveal. *)
Definition generateHint (word : string) (hintLevel : nat) : string :=
  let wordLength := String.length (remove_whitespace word) in
  if (wordLength =? 0)%nat then ""
  else
    let positionsToReveal :=
      every_fourth 2 wordLength ++ every_fourth 3 wordLength
      ++ every_fourth 1 wordLength ++ every_fourth 0 wordLength in
    let revealedPositions := take hintLevel positionsToReveal in
    hint_display revealedPositions word 0.

(** The order in which [generateHint] reveals the letter positions of a word
    of [wordLength] letters. *)
Definition reveal_order (wordLength : nat) : list nat :=
  every_fourth 2 wordLength ++ every_fourth 3 wordLength
  ++ every_fourth 1 wordLength ++ every_fourth 0 wordLength.

(** The letters of a hint: the letter itself at a revealed position, an
    underscore elsewhere; [charIndex] is the position of the first letter. *)
Fixpoint reveal (revealed : list nat) (letters : string) (charIndex : nat) : string :=
  match letters with
  | EmptyString => EmptyString
  | String char rest =>
      String (if existsb (Nat.eqb charIndex) revealed then char else "_"%char)
        (reveal revealed rest (S charIndex))
  end.

(** A word whose only white space is the space character. *)
Definition spaces_only (word : string) : Prop :=
  JS.all_units (fun c => JS.is_whitespace c = true -> c = " "%char) word.

(** The argument is whatever the client sent as [word]. *)
Definition normalizeWord (word : JS.Value) : string :=
  match word with
  | JS.Str s => if String.eqb s "" then "" else JS.toLowerCase (JS.trim s)
  | _ => ""
  end.

Definition generateOptionsForDrawer (shuffle : list string -> list string)
    (room : Room) : Reply (option (list string)) :=
  let validation := GameEngine.hasActiveGame room in
  if negb (fst validation)
  then mkReply false None (snd validation)
  else
    match game room with
    | None => mkReply false None (snd validation)
    | Some game =>
        if negb (bool_decide (phase game = WORD_SELECT))
        then fail None "Not in word selection phase"
        else
          let wordPool := getWordPool (customWords (settings room)) in
          let options := generateWordOptions shuffle wordPool WORD_OPTIONS_COUNT in
          ok (Some options)
    end.

(** Both selection paths end alike: store the word and its mask on the
    game, then [transitionPhase(room, PHASES.DRAWING)]. *)
Definition store_and_draw (room : Room) (game : Game) (normalized : string)
    : Room * Reply (option string) :=
  let masked := maskWord normalized in
  let game := set_words (Some normalized) (Some masked) game in
  let room := set_game (Some game) room in
  let '(room, phaseResult) :=
    GameEngine.transitionPhase room (phase_name DRAWING) in
  if negb (success phaseResult)
  then (room, mkReply false None (error phaseResult))
  else (room, ok (Some masked)).

Definition selectWord (room : Room) (playerId : string) (selectedWord : JS.Value)
    : Room * Reply (option string) :=
  let validation := GameEngine.hasActiveGame room in
  if negb (fst validation)
  then (room, mkReply false None (snd validation))
  else
    match game room with
    | None => (room, mkReply false None (snd validation))
    | Some game =>
        if negb (GameEngine.isCurrentDrawer room playerId)
        then (room, fail None "Only drawer can select word")
        else if negb (bool_decide (phase game = WORD_SELECT))
        then (room, fail None "Not in word selection phase")
        else
          let normalized := normalizeWord selectedWord in
          if (String.length normalized =? 0)%nat
          then (room, fail None "Invalid word selection")
          else store_and_draw room game normalized
    end.

Definition autoSelectWord (shuffle : list string -> list string) (room : Room)
    : Room * Reply (option string) :=
  let validation := GameEngine.hasActiveGame room in
  if negb (fst validation)
  then (room, mkReply false None (snd validation))
  else
    match game room with
    | None => (room, mkReply false None (snd validation))
    | Some game =>
        if negb (bool_decide (phase game = WORD_SELECT))
        then (room, fail None "Not in word selection phase")
        else
          let wordPool := getWordPool (customWords (settings room)) in
          let options := generateWordOptions shuffle wordPool WORD_OPTIONS_COUNT in
          match options with
          | [] => (room, fail None "No words available")
          | selectedWord :: _ =>
              store_and_draw room game (normalizeWord (JS.Str selectedWord))
          end
    end.

(** [null] when there is no game or the field is falsy (absent or empty). *)
Definition truthy_string (o : option string) : option string :=
  match o with
  | Some s => if String.eqb s "" then None else Some s
  | None => None
  end.

Definition getMaskedWord (room : Room) : option string :=
  match game room with
  | Some game => truthy_string (maskedWord game)
  | None => None
  end.

Definition getSelectedWord (room : Room) : option string :=
  match game room with
  | Some game => truthy_string (selectedWord game)
  | None => None
  end.

Definition clearWordSelection (room : Room) : Room :=
  match game room with
  | Some game => set_game (Some (set_words None None game)) room
  | None => room
  end.

End WordEngine.

(** ** guessEngine.js *)

Module GuessEngine.

Definition MIN_GUESS_LENGTH : nat := 1.
Definition MAX_GUESS_LENGTH : nat := 50.

Definition normalizeGuess (guess : string) : string :=
  if String.eqb guess "" then "" else JS.toLowerCase (JS.trim guess).

(** [{ valid, normalized, error }] *)
Definition validateGuessFormat (guess : string) : bool * string * option string :=
  if String.eqb guess ""
  then (false, "", Some "Guess must be a string")
  else
    let normalized := normalizeGuess guess in
    if (String.length normalized <? MIN_GUESS_LENGTH)%nat
    then (false, "", Some "Guess cannot be empty")
    else if (MAX_GUESS_LENGTH <? String.length normalized)%nat
    then (false, "", Some ("Guess cannot exceed " +:+ pretty MAX_GUESS_LENGTH
                           +:+ " characters"))
    else (true, normalized, None).

(** The reply carries [isCorrect]. *)
Definition validateGuess (room : Room) (playerId : string) (guess : string)
    : Room * Reply bool :=
  let validation := GameEngine.hasActiveGame room in
  if negb (fst validation)
  then (room, mkReply false false (snd validation))
  else
    match game room with
    | None => (room, mkReply false false (snd validation))
    | Some game =>
        if negb (bool_decide (phase game = DRAWING))
        then (room, fail false "Guessing is only allowed during drawing phase")
        else if GameEngine.isCurrentDrawer room playerId
        then (room, fail false "Drawer cannot guess")
        else if bool_decide (playerId ∈ guessedPlayers game)
        then (room, fail false "You have already guessed correctly")
        else
          let '(valid, normalized, formatError) := validateGuessFormat guess in
          if negb valid
          then (room, mkReply false false formatError)
          else
            match WordEngine.getSelectedWord room with
            | None => (room, fail false "No word selected for this round")
            | Some selectedWord =>
                let normalizedGuess := normalized in
                let normalizedWord := WordEngine.normalizeWord (JS.Str selectedWord) in
                let isCorrect := String.eqb normalizedGuess normalizedWord in
                if isCorrect
                then
                  let game :=
                    set_guessedPlayers (guessedPlayers game ++ [playerId]) game in
                  (set_game (Some game) room, ok true)
                else (room, ok false)
            end
    end.

Definition getGuessedPlayersCount (room : Room) : nat :=
  match game room with
  | Some game => length (guessedPlayers game)
  | None => 0%nat
  end.

Definition allGuessersGuessed (room : Room) : bool :=
  match game room with
  | None => false
  | Some game =>
      let guessers :=
        List.filter (fun playerId => negb (bool_decide (Some playerId = drawerId game)))
          (players room) in
      (length guessers <=? getGuessedPlayersCount room)%nat
  end.


Definition hasPlayerGuessed (room : Room) (playerId : string) : bool :=
  match game room with
  | Some game => bool_decide (playerId ∈ guessedPlayers game)
  | None => false
  end.

Definition getGuessedPlayers (room : Room) : list string :=
  match game room with
  | Some game => guessedPlayers game
  | None => []
  end.

Definition clearGuessedPlayers (room : Room) : Room :=
  match game room with
  | Some game => set_game (Some (set_guessedPlayers [] game)) room
  | None => room
  end.

End GuessEngine.

(** ** players.js *)

Module Players.

(** The two module-level Maps. Both hold the same player objects: [players]
    (by socket id) is kept as the id of the object, [playerById] holds the
    object itself. *)
Record Registry : Type := mkRegistry {
  players_by_socket : gmap string string;
  playerById : gmap string Player
}.

Definition MAX_NAME_LENGTH : nat := 20.
Definition MIN_NAME_LENGTH : nat := 1.
Definition DEFAULT_NAME_PREFIX : string := "Player".

(** [randomUUID()] and the random name suffix are supplied by the caller. *)
Definition createPlayer (reg : Registry) (socketId playerId suffix : string)
    : Registry * Player :=
  let player := mkPlayer playerId socketId (DEFAULT_NAME_PREFIX +:+ suffix) None None in
  (mkRegistry (<[socketId := playerId]> (players_by_socket reg))
              (<[playerId := player]> (playerById reg)),
   player).

Definition getPlayerById (reg : Registry) (playerId : string) : option Player :=
  playerById reg !! playerId.

Definition getPlayer (reg : Registry) (socketId : string) : option Player :=
  players_by_socket reg !! socketId ≫= getPlayerById reg.

Definition updatePlayerRoom (reg : Registry) (playerId : string)
    (roomId : option string) : Registry * bool :=
  match playerById reg !! playerId with
  | None => (reg, false)
  | Some player =>
      (mkRegistry (players_by_socket reg)
         (<[playerId := mkPlayer (p_id player) (socketId player) (name player)
                          roomId (score player)]> (playerById reg)),
       true)
  end.

Definition removePlayer (reg : Registry) (socketId : string) : Registry * bool :=
  match getPlayer reg socketId with
  | None => (reg, false)
  | Some player =>
      (mkRegistry (delete socketId (players_by_socket reg))
                  (delete (p_id player) (playerById reg)),
       true)
  end.

(** [{ valid, sanitized, error }]; the argument is whatever the client sent
    as [name]. *)
Definition validateName (name : JS.Value) : bool * string * option string :=
  match name with
  | JS.Str s =>
      let trimmed := JS.trim s in
      if (String.length trimmed <? MIN_NAME_LENGTH)%nat
      then (false, "", Some "Name cannot be empty")
      else if (MAX_NAME_LENGTH <? String.length trimmed)%nat
      then (false, "", Some ("Name cannot exceed " +:+ pretty MAX_NAME_LENGTH
                             +:+ " characters"))
      else (true, trimmed, None)
  | _ => (false, "", Some "Name must be a string")
  end.

(** The player object is found through the socket Map and written in
    place. *)
Definition updatePlayerName (reg : Registry) (socket : string) (newName : JS.Value)
    : Registry * Reply (option Player) :=
  match players_by_socket reg !! socket with
  | None => (reg, fail None "Player not found")
  | Some key =>
      match playerById reg !! key with
      | None => (reg, fail None "Player not found")
      | Some player =>
          let '(valid, sanitized, error) := validateName newName in
          if negb valid then (reg, mkReply false None error)
          else
            let player :=
              mkPlayer (p_id player) (socketId player) sanitized (roomId player)
                (score player) in
            (mkRegistry (players_by_socket reg) (<[key := player]> (playerById reg)),
             ok (Some player))
      end
  end.

Definition getPlayerCount (reg : Registry) : nat := size (players_by_socket reg).

(** The names listed in [module.exports]. *)
Definition exports : list string :=
  [ "createPlayer"; "updatePlayerName"; "updatePlayerRoom"; "removePlayer";
    "getPlayer"; "getPlayerById"; "getAllPlayers"; "getPlayerCount" ].

(** The members of [require('./players')] that index.js reads. A name that
    [module.exports] does not list reads as [undefined], here [None]. *)
Record PlayerManager : Type := mkPlayerManager {
  pm_getPlayer : Registry -> string -> option Player;
  pm_getPlayerById : Registry -> string -> option Player;
  pm_resetPlayerScores : option (list string -> Registry -> Registry);
  pm_updatePlayerScore : option (string -> Z -> Registry -> Registry)
}.

Definition playerManager : PlayerManager :=
  mkPlayerManager getPlayer getPlayerById None None.

End Players.

(** ** Numbers of the score engine

    The score engine divides: its numbers are binary64 values, and every
    arithmetic operation gives the representable number nearest to the exact
    result, the one with the even significand when two are equally near. A
    finite number is the rational it denotes; operations on integers below
    2^53 in absolute value are exact. Results of 2^1024 and more (Infinity)
    are out of reach of the times and scores computed here and are not
    modelled; neither is the sign of zero, which no operation below can
    tell. NaN is [None], where it can arise. *)

Module Binary64.

Local Open Scope Q_scope.

(** The nearest integer, the even one of two that are equally near. *)
Definition round_half_even (x : Q) : Z :=
  let f := Qfloor x in
  match Qcompare (x - inject_Z f) (1 # 2) with
  | Lt => f
  | Gt => (f + 1)%Z
  | Eq => if Z.even f then f else (f + 1)%Z
  end.

Definition pow2 (k : Z) : Q := 2 ^ k.

(** For [x > 0], the exponent [e] with [2^e <= x < 2^(e+1)]. *)
Definition ilog2 (x : Q) : Z :=
  let e := (Z.log2 (Qnum x) - Z.log2 (Zpos (Qden x)))%Z in
  if Qle_bool (pow2 e) x then e else (e - 1)%Z.

(** The exponent of the last place of the binary64 numbers around [x]: 53
    significant bits, and no exponent below that of the subnormal numbers. *)
Definition ulp_exponent (x : Q) : Z := Z.max (ilog2 (Qabs x) - 52) (-1074).

(** The binary64 number nearest to [x], ties to even. *)
Definition round64 (x : Q) : Q :=
  let k := ulp_exponent x in
  inject_Z (round_half_even (x / pow2 k)) * pow2 k.

(** The Standard Library's specification of the IEEE 754 operations
    ([SpecFloat], with 53 bits and exponents up to 1024 for binary64), to
    compare the rounding against: the number of an integer, and the rational
    that a finite number denotes. *)
Definition ieee_of_Z (z : Z) : spec_float := binary_normalize 53 1024 z 0 false.

Definition ieee_value (x : spec_float) : option Q :=
  match x with
  | S754_zero _ => Some 0
  | S754_finite s m e =>
      Some ((if s then -1 else 1) * inject_Z (Zpos m) * pow2 e)
  | _ => None
  end.

(** Comparisons of numbers that may be NaN: false when one of them is. *)
Definition le (a b : option Q) : bool :=
  match a, b with
  | Some a, Some b => Qle_bool a b
  | _, _ => false
  end.

Definition lt (a b : option Q) : bool :=
  match a, b with
  | Some a, Some b => negb (Qle_bool b a)
  | _, _ => false
  end.

End Binary64.

(** ** scoreEngine.js *)

Module ScoreEngine.

Local Open Scope Q_scope.

Definition BASE_SCORE : Q := 100.
Definition DRAWER_SCORE_MULTIPLIER : Q := 1 # 2.
Definition TIME_BONUS_MULTIPLIER : Q := 1.
Definition MAX_TIME_BONUS : Q := 100.
Definition MIN_SCORE : Z := 10.

Definition Qltb (a b : Q) : bool := negb (Qle_bool b a).

(** [calculateScore] on arguments that are numbers (binary64 values, taken
    as the rationals they denote). Times are in seconds and may be
    fractional; each arithmetic operation rounds. [Math.floor] and
    [Math.max] are exact. *)
Definition calculateScore_of_numbers (roundTime guessTime : Q) (isDrawer : bool) : Z :=
  if Qle_bool roundTime 0 || Qltb guessTime 0 || Qltb roundTime guessTime
  then MIN_SCORE
  else
    let timeRatio := Binary64.round64 (guessTime / roundTime) in
    let timeBonus :=
      Binary64.round64 (MAX_TIME_BONUS * Binary64.round64 (1 - timeRatio)) in
    let score := Binary64.round64 (BASE_SCORE + timeBonus) in
    let score :=
      if isDrawer
      then inject_Z (Qfloor (Binary64.round64 (score * DRAWER_SCORE_MULTIPLIER)))
      else score in
    Z.max MIN_SCORE (Qfloor score).

(** [calculateScore]; an argument that is NaN is [None]. Every comparison
    with NaN is false, and behind the guard a NaN argument makes the ratio
    NaN, which goes through the arithmetic, [Math.floor] and [Math.max]. *)
Definition calculateScore (roundTime guessTime : option Q) (isDrawer : bool)
    : option Z :=
  if Binary64.le roundTime (Some 0) || Binary64.lt guessTime (Some 0)
     || Binary64.lt roundTime guessTime
  then Some MIN_SCORE
  else
    match roundTime, guessTime with
    | Some roundTime, Some guessTime =>
        Some (calculateScore_of_numbers roundTime guessTime isDrawer)
    | _, _ => None
    end.

(** The number that [calculateScore] floors for a guesser timed [elapsed]
    milliseconds into a round of [roundTime] seconds, and the same
    computation with the operations of [SpecFloat]. *)
Definition unfloored_score (roundTime elapsed : Z) : Q :=
  let guessTime :=
    Binary64.round64 (Binary64.round64 (inject_Z elapsed) / 1000) in
  let timeRatio := Binary64.round64 (guessTime / inject_Z roundTime) in
  let timeBonus :=
    Binary64.round64 (MAX_TIME_BONUS * Binary64.round64 (1 - timeRatio)) in
  Binary64.round64 (BASE_SCORE + timeBonus).

Definition unfloored_score_ieee (roundTime elapsed : Z) : spec_float :=
  let number := Binary64.ieee_of_Z in
  let guessTime :=
    SFdiv 53 1024 (SFsub 53 1024 (number elapsed) (number 0%Z))
      (number 1000%Z) in
  let timeRatio := SFdiv 53 1024 guessTime (number roundTime) in
  let timeBonus :=
    SFmul 53 1024 (number 100%Z) (SFsub 53 1024 (number 1%Z) timeRatio) in
  SFadd 53 1024 (number 100%Z) timeBonus.

Definition scores_agree (roundTime elapsed : Z) : bool :=
  match Binary64.ieee_value (unfloored_score_ieee roundTime elapsed) with
  | Some q => Qeq_bool q (unfloored_score roundTime elapsed)
  | None => false
  end.

(** [roundGuessTimes]: room id, then round, then player id, to the
    timestamp (milliseconds) of the scored guess. *)
Definition GuessTimes : Type := gmap string (gmap Z (gmap string Z)).

Definition recordGuessTime (times : GuessTimes) (roomId : string) (round : Z)
    (playerId : string) (timestamp : Z) : GuessTimes :=
  let roomData := default ∅ (times !! roomId) in
  let roundData := default ∅ (roomData !! round) in
  <[roomId := <[round := <[playerId := timestamp]> roundData]> roomData]> times.

(** [roomData[round].get(playerId) || null]: a stored 0 reads as [null]. *)
Definition getGuessTime (times : GuessTimes) (roomId : string) (round : Z)
    (playerId : string) : option Z :=
  match times !! roomId with
  | None => None
  | Some roomData =>
      match roomData !! round with
      | None => None
      | Some roundData =>
          match roundData !! playerId with
          | Some t => if (t =? 0)%Z then None else Some t
          | None => None
          end
      end
  end.

Definition clearRoundScoring (times : GuessTimes) (roomId : string) : GuessTimes :=
  delete roomId times.

(** What the score engine reads and writes: its own Map and, through the
    callbacks it is given, the player registry. *)
Record Store : Type := mkStore {
  registry : Players.Registry;
  roundGuessTimes : GuessTimes
}.

(** [(timestamp - roundStartTime) / 1000]: the timestamps are integers, and
    both the difference and the quotient are rounded. *)
Definition seconds_between (start stop : Z) : Q :=
  Binary64.round64 (Binary64.round64 (inject_Z (stop - start)) / 1000).

(** [player.score || 0] *)
Definition score_or_0 (p : Player) : Z := default 0%Z (score p).

(** [if (typeof player.score !== 'number') player.score = 0;] written to the
    object that [getPlayer] returned, which is the registry's. *)
Definition initialize_score (reg : Players.Registry) (player : Player)
    : Players.Registry * Player :=
  match score player with
  | Some _ => (reg, player)
  | None =>
      let player := set_score (Some 0%Z) player in
      (Players.mkRegistry (Players.players_by_socket reg)
         (<[p_id player := player]> (Players.playerById reg)),
       player)
  end.

(** The reply carries [score] and [totalScore]. [now] is [Date.now()];
    [getPlayer] and [updatePlayerScore] are the callbacks, the second of which
    may be [undefined], in which case calling it throws. A [roundStartTime]
    that is absent or 0 is falsy. The [score] of the reply is [None] for NaN:
    in the already-scored branch an absent [roundStartTime] makes the guess
    time NaN. In the other branch both times are numbers, and so is the
    score. *)
Definition awardGuessScore (now : Z)
    (getPlayer : Players.Registry -> string -> option Player)
    (updatePlayerScore : option (string -> Z -> Players.Registry -> Players.Registry))
    (st : Store) (room : Room) (playerId : string) (guessTimestamp : Z)
    : Store * Completion (Reply (option Z * Z)) :=
  let validation := GameEngine.hasActiveGame room in
  if negb (fst validation)
  then (st, Normal (mkReply false (Some 0, 0)%Z (snd validation)))
  else
    match game room with
    | None => (st, Normal (mkReply false (Some 0, 0)%Z (snd validation)))
    | Some game =>
        match getGuessTime (roundGuessTimes st) (id room) (currentRound game) playerId with
        | Some existingTime =>
            match getPlayer (registry st) playerId with
            | None => (st, Normal (fail (Some 0, 0)%Z "Player not found"))
            | Some player =>
                let roundScore :=
                  calculateScore (Some (inject_Z (drawTime (settings room))))
                    match roundStartTime game with
                    | None => None
                    | Some start => Some (seconds_between start existingTime)
                    end
                    (GameEngine.isCurrentDrawer room playerId) in
                (st, Normal (ok (roundScore, score_or_0 player)))
            end
        | None =>
            let times :=
              recordGuessTime (roundGuessTimes st) (id room) (currentRound game)
                playerId guessTimestamp in
            let st := mkStore (registry st) times in
            let roundStartTime :=
              match roundStartTime game with
              | Some t => if (t =? 0)%Z then now else t
              | None => now
              end in
            let guessTimeSeconds := seconds_between roundStartTime guessTimestamp in
            let isDrawer := GameEngine.isCurrentDrawer room playerId in
            let roundScore :=
              calculateScore_of_numbers (inject_Z (drawTime (settings room)))
                guessTimeSeconds isDrawer in
            match getPlayer (registry st) playerId with
            | None => (st, Normal (fail (Some 0, 0)%Z "Player not found"))
            | Some player =>
                let '(reg, player) := initialize_score (registry st) player in
                let st := mkStore reg times in
                let newTotalScore := (score_or_0 player + roundScore)%Z in
                match updatePlayerScore with
                | None => (st, Throw "TypeError: updatePlayerScore is not a function")
                | Some update =>
                    (mkStore (update playerId newTotalScore reg) times,
                     Normal (ok (Some roundScore, newTotalScore)))
                end
            end
        end
    end.

Definition initializeRoundStartTime (room : Room) (startTime : Z) : Room :=
  match game room with
  | Some game => set_game (Some (set_roundStartTime (Some startTime) game)) room
  | None => room
  end.


(** The part of [calculateScore] behind its guard, from the rounded sum
    on. *)
Definition finish (score : Q) (isDrawer : bool) : Z :=
  let score :=
    if isDrawer
    then inject_Z (Qfloor (Binary64.round64 (score * DRAWER_SCORE_MULTIPLIER)))
    else score in
  Z.max MIN_SCORE (Qfloor score).

Definition clearRoundGuessTimes (times : GuessTimes) (roomId : string) : GuessTimes :=
  delete roomId times.

(** [Math.floor(BASE_SCORE * DRAWER_SCORE_MULTIPLIER)] *)
Definition scorePerGuesser : Z := Qfloor (BASE_SCORE * DRAWER_SCORE_MULTIPLIER).

(** The reply carries [drawerScore]. [now] is [Date.now()], stored as the
    marker that the drawer has been scored. The result is [None] when the
    game has no drawer id ([room.players[i]] was [undefined]): the Map of
    guess times is keyed by strings here. *)
Definition awardDrawerScore (now : Z)
    (getPlayer : Players.Registry -> string -> option Player)
    (updatePlayerScore : option (string -> Z -> Players.Registry -> Players.Registry))
    (st : Store) (room : Room) : option (Store * Completion (Reply Z)) :=
  let validation := GameEngine.hasActiveGame room in
  if negb (fst validation)
  then Some (st, Normal (mkReply false 0%Z (snd validation)))
  else
    match game room with
    | None => Some (st, Normal (mkReply false 0%Z (snd validation)))
    | Some game =>
        match drawerId game with
        | None => None
        | Some drawerId =>
            let guessedCount := Z.of_nat (GuessEngine.getGuessedPlayersCount room) in
            let drawerScore := (guessedCount * scorePerGuesser)%Z in
            match getGuessTime (roundGuessTimes st) (id room) (currentRound game)
                    drawerId with
            | Some existingTime =>
                match getPlayer (registry st) drawerId with
                | None => Some (st, Normal (fail 0%Z "Drawer not found"))
                | Some drawer => Some (st, Normal (ok drawerScore))
                end
            | None =>
                let times :=
                  recordGuessTime (roundGuessTimes st) (id room) (currentRound game)
                    drawerId now in
                let st := mkStore (registry st) times in
                match getPlayer (registry st) drawerId with
                | None => Some (st, Normal (ok drawerScore))
                | Some drawer =>
                    let '(reg, drawer) := initialize_score (registry st) drawer in
                    let st := mkStore reg times in
                    let newTotalScore := (score_or_0 drawer + drawerScore)%Z in
                    match updatePlayerScore with
                    | None =>
                        Some (st, Throw "TypeError: updatePlayerScore is not a function")
                    | Some update =>
                        Some (mkStore (update drawerId newTotalScore reg) times,
                              Normal (ok drawerScore))
                    end
                end
            end
        end
    end.

Record LeaderboardEntry : Type := mkEntry {
  le_playerId : string;
  le_name : string;
  le_score : Z
}.

(** [Array.prototype.sort] is stable, and [(a, b) => b.score - a.score] is a
    consistent comparator on integer scores: the result is the one stable
    arrangement by descending score, built here by insertion. *)
Fixpoint insert_by_score (x : LeaderboardEntry) (l : list LeaderboardEntry)
    : list LeaderboardEntry :=
  match l with
  | [] => [x]
  | y :: l' =>
      if (le_score x <? le_score y)%Z then y :: insert_by_score x l' else x :: l
  end.

Definition sort_by_score (l : list LeaderboardEntry) : list LeaderboardEntry :=
  foldr insert_by_score [] l.

(** [a] may be listed before [b]: it does not score less. *)
Definition ranks_before (a b : LeaderboardEntry) : Prop :=
  (le_score b <= le_score a)%Z.

(** The entry of one member, [null] for an id that [getPlayer] does not
    know. *)
Definition leaderboard_entry (getPlayer : string -> option Player)
    (playerId : string) : option LeaderboardEntry :=
  match getPlayer playerId with
  | None => None
  | Some player => Some (mkEntry (p_id player) (name player) (score_or_0 player))
  end.

Definition getLeaderboard (room : Room)
    (getPlayer : string -> option Player) : list LeaderboardEntry :=
  sort_by_score (omap (leaderboard_entry getPlayer) (players room)).

End ScoreEngine.

(** ** drawingEngine.js *)

Module DrawingEngine.

Definition MAX_DRAW_EVENTS_PER_SECOND : Z := 30.
Definition BATCH_WINDOW_MS : Z := 50.

(** The two module-level Maps, both keyed by room id: the buffered
    [draw_move] payloads, oldest first, and the time of the last move that
    was let through. *)
Record State : Type := mkState {
  drawBatches : gmap string (list JS.Value);
  lastEventTimes : gmap string Z
}.

(** [1000 / MAX_DRAW_EVENTS_PER_SECOND], a fraction. *)
Definition minInterval : Q := (1000 / inject_Z MAX_DRAW_EVENTS_PER_SECOND)%Q.

(** [now] is [Date.now()]. An absent time and a stored 0 both read as 0. *)
Definition shouldThrottle (now : Z) (st : State) (roomId : string) : State * bool :=
  let lastTime := default 0 (lastEventTimes st !! roomId) in
  if negb (Qle_bool minInterval (inject_Z (now - lastTime)))
  then (st, true)
  else (mkState (drawBatches st) (<[roomId := now]> (lastEventTimes st)), false).

Definition clearBatch (st : State) (roomId : string) : State :=
  mkState (delete roomId (drawBatches st)) (delete roomId (lastEventTimes st)).

Definition validEventTypes : list string :=
  [ "draw_start"; "draw_move"; "draw_end"; "clear_canvas" ].

Definition validateDrawingEvent (room : Room) (playerId : string)
    (eventType : string) : bool * option string :=
  let validation := GameEngine.hasActiveGame room in
  if negb (fst validation) then (false, snd validation)
  else
    match game room with
    | None => (false, snd validation)
    | Some game =>
        if negb (bool_decide (phase game = DRAWING))
        then (false, Some "Not in drawing phase")
        else if negb (GameEngine.isCurrentDrawer room playerId)
        then (false, Some "Only drawer can draw")
        else if negb (bool_decide (eventType ∈ validEventTypes))
        then (false, Some "Invalid drawing event type")
        else (true, None)
    end.

(** The reply carries [data], [null] when there is none. *)
Definition handleDrawStart (st : State) (room : Room) (playerId : string)
    (data : JS.Value) : State * Reply JS.Value :=
  let validation := validateDrawingEvent room playerId "draw_start" in
  if negb (fst validation) then (st, mkReply false JS.Null (snd validation))
  else
    let st := clearBatch st (id room) in
    if negb (JS.is_object data) then (st, fail JS.Null "Invalid drawing data")
    else (st, ok data).

(** The reply carries [data] and [shouldBatch]. A throttled payload is
    buffered as it came; one that is let through after buffered ones is
    appended to the buffer, and the whole buffer, which stays in the Map, is
    the [data] of the reply. *)
Definition handleDrawMove (now : Z) (st : State) (room : Room) (playerId : string)
    (data : JS.Value) : State * Reply (JS.Value * bool) :=
  let validation := validateDrawingEvent room playerId "draw_move" in
  if negb (fst validation)
  then (st, mkReply false (JS.Null, false) (snd validation))
  else
    let '(st, throttled) := shouldThrottle now st (id room) in
    if throttled
    then
      let batch := default [] (drawBatches st !! id room) in
      (mkState (<[id room := batch ++ [data]]> (drawBatches st)) (lastEventTimes st),
       ok (JS.Null, true))
    else if negb (JS.is_object data)
    then (st, fail (JS.Null, false) "Invalid drawing data")
    else
      match drawBatches st !! id room with
      | Some (first :: rest) =>
          let batch := (first :: rest) ++ [data] in
          (mkState (<[id room := batch]> (drawBatches st)) (lastEventTimes st),
           ok (JS.Arr batch, false))
      | _ => (st, ok (data, false))
      end.

Definition handleDrawEnd (st : State) (room : Room) (playerId : string)
    (data : JS.Value) : State * Reply JS.Value :=
  let validation := validateDrawingEvent room playerId "draw_end" in
  if negb (fst validation) then (st, mkReply false JS.Null (snd validation))
  else
    let st := clearBatch st (id room) in
    if negb (JS.is_object data) then (st, fail JS.Null "Invalid drawing data")
    else (st, ok data).

Definition handleClearCanvas (st : State) (room : Room) (playerId : string)
    : State * Reply unit :=
  let validation := validateDrawingEvent room playerId "clear_canvas" in
  if negb (fst validation) then (st, mkReply false tt (snd validation))
  else (clearBatch st (id room), ok tt).

(** [null] when nothing is buffered. *)
Definition flushBatch (st : State) (roomId : string)
    : State * option (list JS.Value) :=
  match drawBatches st !! roomId with
  | Some (first :: rest) =>
      (mkState (delete roomId (drawBatches st)) (lastEventTimes st),
       Some (first :: rest))
  | _ => (st, None)
  end.

Definition clearDrawingState (st : State) (roomId : string) : State :=
  clearBatch st roomId.

(** A run of [draw_move] events from one player in one room, each with the
    time at which it arrives. *)
Definition handleDrawMoves (st : State) (room : Room) (playerId : string)
    (moves : list (Z * JS.Value)) : State :=
  foldl (fun st move => fst (handleDrawMove (fst move) st room playerId (snd move)))
    st moves.

End DrawingEngine.

(** ** index.js: serialization of the game and the event handlers

    The transport is outside the model: of what a handler emits, only the
    [game_error] that goes back to the caller is kept. Timers are not
    started. *)

Module Index.

Record Server : Type := mkServer {
  store : ScoreEngine.Store;
  rooms : gmap string Room
}.

Definition serializeGameState (room : Room) : JS.Value :=
  match game room with
  | None => JS.Null
  | Some game =>
      JS.Obj [ ("phase", JS.Str (phase_name (phase game)));
               ("currentRound", JS.Num (inject_Z (currentRound game)));
               ("totalRounds", JS.Num (inject_Z (totalRounds game)));
               ("drawerId", JS.of_option_str (drawerId game));
               ("drawerIndex", JS.Num (inject_Z (Z.of_nat (drawerIndex game))));
               ("guessedPlayers", JS.Arr (map JS.Str (guessedPlayers game)));
               ("maskedWord",
                match WordEngine.truthy_string (maskedWord game) with
                | Some m => JS.Str m
                | None => JS.Null
                end) ]
  end.

(** The room object is shared with the [rooms] Map: what an engine call
    leaves in the object found under [key] is what the Map holds there from
    then on. *)
Definition put_room (srv : Server) (key : string) (room : Room) : Server :=
  mkServer (store srv) (<[key := room]> (rooms srv)).

Definition put_registry (srv : Server) (reg : Players.Registry) : Server :=
  mkServer (ScoreEngine.mkStore reg (ScoreEngine.roundGuessTimes (store srv)))
           (rooms srv).

(** The lookups that open the game handlers: the player of the socket, the
    room id on the player, the room stored under that id (returned with the
    key it was found under). *)
Definition resolve (pm : Players.PlayerManager) (srv : Server) (socket : string)
    : Player * string * Room + string :=
  match Players.pm_getPlayer pm (ScoreEngine.registry (store srv)) socket with
  | None => inr "Player not found"
  | Some player =>
      match WordEngine.truthy_string (roomId player) with
      | None => inr "Not in a room"
      | Some roomId =>
          match Rooms.getRoom (rooms srv) (JS.Str roomId) with
          | None => inr "Room not found"
          | Some room => inl (player, Rooms.normalizeRoomId (JS.Str roomId), room)
          end
      end
  end.

(** The state that [startRoundForRoom] leaves: the round is started and its
    start time recorded. *)
Definition startRoundForRoom (now : Z) (room : Room) : Room :=
  let '(room', result) := GameEngine.startRound room in
  if negb (success result) then room'
  else
    let room' := ScoreEngine.initializeRoundStartTime room' now in
    match game room' with
    | Some game => set_game (Some (set_roundStartTime (Some now) game)) room'
    | None => room'
    end.

(** [socket.on('start_game', ...)]. The result is the [game_error] sent
    back, if any. *)
Definition start_game (pm : Players.PlayerManager) (now : Z) (srv : Server)
    (socket : string) : Server * Completion (option string) :=
  match resolve pm srv socket with
  | inr e => (srv, Normal (Some e))
  | inl (player, key, room) =>
      let '(room, result) := GameEngine.startGame room (p_id player) in
      let srv := put_room srv key room in
      if success result
      then
        match Players.pm_resetPlayerScores pm with
        | None =>
            (srv, Throw "TypeError: playerManager.resetPlayerScores is not a function")
        | Some resetPlayerScores =>
            let srv :=
              put_registry srv
                (resetPlayerScores (players room) (ScoreEngine.registry (store srv))) in
            (put_room srv key (startRoundForRoom now room), Normal None)
        end
      else (srv, Normal (error result))
  end.

(** [socket.on('play_again', ...)] *)
Definition play_again (pm : Players.PlayerManager) (srv : Server)
    (socket : string) : Server * Completion (option string) :=
  match resolve pm srv socket with
  | inr e => (srv, Normal (Some e))
  | inl (player, key, room) =>
      if negb (String.eqb (ownerId room) (p_id player))
      then (srv, Normal (Some "Only room owner can start a new game"))
      else if negb (bool_decide (status room = FINISHED))
      then (srv, Normal (Some "Game is not finished"))
      else
        let '(room, result) := GameEngine.resetGame room in
        let srv := put_room srv key room in
        if success result
        then
          match Players.pm_resetPlayerScores pm with
          | None =>
              (srv, Throw "TypeError: playerManager.resetPlayerScores is not a function")
          | Some resetPlayerScores =>
              (put_registry srv
                 (resetPlayerScores (players room) (ScoreEngine.registry (store srv))),
               Normal None)
          end
        else (srv, Normal (error result))
  end.

(** What the [guess] handler did: rejected the guess with a [game_error], or
    relayed it as a chat message, with the score reply when the guess was
    correct, and whether the handler then goes on to end the round. *)
Inductive GuessOutcome : Type :=
| Rejected (e : string)
| Relayed (isCorrect : bool) (scoreResult : option (Reply (option Z * Z)))
    (endsRound : bool).

(** [socket.on('guess', ...)], up to the point where the round is ended.
    [guessTimestamp] is the [Date.now()] of the handler, [now] the one read
    later by the score engine. *)
Definition guess (pm : Players.PlayerManager) (guessTimestamp now : Z)
    (srv : Server) (socket : string) (payload : JS.Value)
    : Server * Completion GuessOutcome :=
  match resolve pm srv socket with
  | inr e => (srv, Normal (Rejected e))
  | inl (player, key, room) =>
      match (if JS.is_object payload then JS.prop payload "guess" else JS.Undefined) with
      | JS.Str guess =>
          let '(room, result) := GuessEngine.validateGuess room (p_id player) guess in
          let srv := put_room srv key room in
          if negb (success result)
          then (srv, Normal (Rejected (default "" (error result))))
          else if data result
          then
            let '(st, scored) :=
              ScoreEngine.awardGuessScore now (Players.pm_getPlayerById pm)
                (Players.pm_updatePlayerScore pm) (store srv) room (p_id player)
                guessTimestamp in
            let srv := mkServer st (rooms srv) in
            match scored with
            | Throw e => (srv, Throw e)
            | Normal scoreResult =>
                (srv,
                 Normal (Relayed true (Some scoreResult)
                           (success scoreResult
                            && GuessEngine.allGuessersGuessed room)))
            end
          else (srv, Normal (Relayed false None false))
      | _ => (srv, Normal (Rejected "Invalid guess format"))
      end
  end.

(** *** The lobby handlers

    An emission is kept with the socket it goes to. *)

Record Emission : Type := mkEmission {
  to : string;
  event : string;
  payload : JS.Value
}.

Definition registry_of (srv : Server) : Players.Registry :=
  ScoreEngine.registry (store srv).

(** [room.players.forEach(...)] of the three broadcast helpers: one emission
    per member that is registered and has a socket id. *)
Definition emit_to_members (srv : Server) (room : Room) (eventName : string)
    (body : JS.Value) : list Emission :=
  omap (fun playerId =>
          match Players.getPlayerById (registry_of srv) playerId with
          | Some player =>
              if String.eqb (socketId player) "" then None
              else Some (mkEmission (socketId player) eventName body)
          | None => None
          end)
       (players room).

Definition broadcastRoomUpdate (srv : Server) (roomId : JS.Value) : list Emission :=
  match Rooms.getRoom (rooms srv) roomId with
  | None => []
  | Some room =>
      let serialized :=
        Rooms.serializeRoom room (Players.getPlayerById (registry_of srv)) in
      emit_to_members srv room "room_updated" (JS.Obj [("room", serialized)])
  end.

Definition broadcastSettingsUpdate (srv : Server) (roomId : JS.Value)
    (settings : Settings) : list Emission :=
  match Rooms.getRoom (rooms srv) roomId with
  | None => []
  | Some room =>
      emit_to_members srv room "room_settings_updated"
        (JS.Obj [("settings", Rooms.settings_value settings)])
  end.

Definition broadcastToRoom (srv : Server) (roomId : JS.Value) (eventName : string)
    (body : JS.Value) : list Emission :=
  match Rooms.getRoom (rooms srv) roomId with
  | None => []
  | Some room => emit_to_members srv room eventName body
  end.

Definition player_updated (socket : string) (player : Player) : Emission :=
  mkEmission socket "player_updated"
    (JS.Obj [("id", JS.Str (p_id player)); ("name", JS.Str (name player))]).

Definition room_error (socket : string) (e : option string) : Emission :=
  mkEmission socket "room_error" (JS.Obj [("error", JS.of_option_str e)]).

(** [io.on('connection', ...)]: [playerId] and [suffix] are the random UUID
    and the random name suffix. *)
Definition connection (srv : Server) (socket playerId suffix : string)
    : Server * list Emission :=
  let '(reg, player) := Players.createPlayer (registry_of srv) socket playerId suffix in
  (put_registry srv reg,
   [ mkEmission socket "connected"
       (JS.Obj [("socketId", JS.Str socket); ("status", JS.Str "ok")]);
     player_updated socket player ]).

(** [socket.on('set_player_name', ...)] *)
Definition set_player_name (srv : Server) (socket : string) (body : JS.Value)
    : Server * list Emission :=
  if negb (JS.is_object body) then (srv, [])
  else
    let '(reg, result) :=
      Players.updatePlayerName (registry_of srv) socket (JS.prop body "name") in
    let srv := put_registry srv reg in
    match data result with
    | Some player =>
        if success result
        then
          (srv,
           player_updated socket player
           :: match Rooms.getRoomByPlayer (rooms srv) (p_id player) with
              | Some room => broadcastRoomUpdate srv (JS.Str (id room))
              | None => []
              end)
        else (srv, [])
    | None => (srv, [])
    end.

(** [socket.on('create_room', ...)] *)
Definition create_room (draw : nat -> nat) (srv : Server) (socket : string)
    (body : JS.Value) : Server * list Emission :=
  match Players.getPlayer (registry_of srv) socket with
  | None => (srv, [room_error socket (Some "Player not found")])
  | Some player =>
      match Rooms.getRoomByPlayer (rooms srv) (p_id player) with
      | Some existingRoom => (srv, [room_error socket (Some "Already in a room")])
      | None =>
          let settings :=
            if JS.is_object body then JS.prop body "settings" else JS.Null in
          let '(rooms', result) :=
            Rooms.createRoom draw (rooms srv) (p_id player) settings in
          let srv := mkServer (store srv) rooms' in
          match data result with
          | Some room =>
              if success result
              then
                let srv :=
                  put_registry srv
                    (fst (Players.updatePlayerRoom (registry_of srv) (p_id player)
                            (Some (id room)))) in
                let serialized :=
                  Rooms.serializeRoom room (Players.getPlayerById (registry_of srv)) in
                (srv,
                 [ mkEmission socket "room_created"
                     (JS.Obj [("roomId", JS.Str (id room)); ("room", serialized)]) ])
              else (srv, [room_error socket (error result)])
          | None => (srv, [room_error socket (error result)])
          end
      end
  end.

(** [socket.on('join_room', ...)] *)
Definition join_room (srv : Server) (socket : string) (body : JS.Value)
    : Server * list Emission :=
  match Players.getPlayer (registry_of srv) socket with
  | None => (srv, [room_error socket (Some "Player not found")])
  | Some player =>
      match Rooms.getRoomByPlayer (rooms srv) (p_id player) with
      | Some existingRoom => (srv, [room_error socket (Some "Already in a room")])
      | None =>
          if negb (JS.is_object body) || negb (JS.truthy (JS.prop body "roomId"))
          then (srv, [room_error socket (Some "Invalid room ID")])
          else
            let roomId := JS.prop body "roomId" in
            let '(rooms', result) := Rooms.joinRoom (rooms srv) (p_id player) roomId in
            let srv := mkServer (store srv) rooms' in
            match data result with
            | Some room =>
                if success result
                then
                  let srv :=
                    put_registry srv
                      (fst (Players.updatePlayerRoom (registry_of srv) (p_id player)
                              (Some (id room)))) in
                  let serialized :=
                    Rooms.serializeRoom room (Players.getPlayerById (registry_of srv)) in
                  (srv,
                   mkEmission socket "room_joined" (JS.Obj [("room", serialized)])
                   :: broadcastRoomUpdate srv (JS.Str (id room)))
                else (srv, [room_error socket (error result)])
            | None => (srv, [room_error socket (error result)])
            end
      end
  end.

(** [socket.on('leave_room', ...)] *)
Definition leave_room (srv : Server) (socket : string) : Server * list Emission :=
  match Players.getPlayer (registry_of srv) socket with
  | None => (srv, [])
  | Some player =>
      match WordEngine.truthy_string (roomId player) with
      | None => (srv, [])
      | Some roomId =>
          let '(rooms', result) :=
            Rooms.leaveRoom (rooms srv) (p_id player) (JS.Str roomId) in
          let srv := mkServer (store srv) rooms' in
          if success result
          then
            let srv :=
              put_registry srv
                (fst (Players.updatePlayerRoom (registry_of srv) (p_id player) None)) in
            let left := mkEmission socket "room_left" (JS.Obj [("roomId", JS.Str roomId)]) in
            if snd (data result) then (srv, [left])
            else (srv, left :: broadcastRoomUpdate srv (JS.Str roomId))
          else (srv, [])
      end
  end.

Definition room_settings_error (socket : string) (m : option string) : Emission :=
  mkEmission socket "room_settings_error" (JS.Obj [("message", JS.of_option_str m)]).

(** [socket.on('update_room_settings', ...)] *)
Definition update_room_settings (srv : Server) (socket : string) (body : JS.Value)
    : Server * list Emission :=
  match Players.getPlayer (registry_of srv) socket with
  | None => (srv, [room_settings_error socket (Some "Player not found")])
  | Some player =>
      match WordEngine.truthy_string (roomId player) with
      | None => (srv, [room_settings_error socket (Some "Not in a room")])
      | Some roomId =>
          if negb (JS.is_object body) || negb (JS.truthy (JS.prop body "settings"))
          then (srv, [room_settings_error socket (Some "Invalid settings payload")])
          else
            let '(rooms', result) :=
              Rooms.updateRoomSettings (rooms srv) (p_id player) (JS.Str roomId)
                (JS.prop body "settings") in
            let srv := mkServer (store srv) rooms' in
            match data result with
            | Some settings =>
                if success result
                then (srv, broadcastSettingsUpdate srv (JS.Str roomId) settings)
                else (srv, [room_settings_error socket (error result)])
            | None => (srv, [room_settings_error socket (error result)])
            end
      end
  end.

(** [socket.on('disconnect', ...)] *)
Definition disconnect (srv : Server) (socket : string) : Server * list Emission :=
  let '(srv, emitted) :=
    match Players.getPlayer (registry_of srv) socket with
    | None => (srv, [])
    | Some player =>
        match WordEngine.truthy_string (roomId player) with
        | None => (srv, [])
        | Some roomId =>
            let '(rooms', result) :=
              Rooms.leaveRoom (rooms srv) (p_id player) (JS.Str roomId) in
            let srv := mkServer (store srv) rooms' in
            if success result && negb (snd (data result))
            then (srv, broadcastRoomUpdate srv (JS.Str roomId))
            else (srv, [])
        end
    end in
  (put_registry srv (fst (Players.removePlayer (registry_of srv) socket)), emitted).

(** *** The drawing handlers *)

Definition game_error (socket : string) (e : option string) : Emission :=
  mkEmission socket "game_error" (JS.Obj [("error", JS.of_option_str e)]).

(** The player and the room that open a drawing handler. *)
Definition drawing_room_of (srv : Server) (socket : string)
    : Player * Room + string :=
  match Players.getPlayer (registry_of srv) socket with
  | None => inr "Not in a room"
  | Some player =>
      match WordEngine.truthy_string (roomId player) with
      | None => inr "Not in a room"
      | Some roomId =>
          match Rooms.getRoom (rooms srv) (JS.Str roomId) with
          | None => inr "Room not found"
          | Some room => inl (player, room)
          end
      end
  end.

(** The loop that relays a drawing event: to every member but the drawer
    that is registered and has a socket id. It begins by reading
    [room.game.drawerId], which throws when the room has no game. *)
Definition relay_to_guessers (srv : Server) (room : Room) (eventName : string)
    (body : JS.Value) : Completion (list Emission) :=
  match game room with
  | None => Throw "TypeError: Cannot read properties of null (reading 'drawerId')"
  | Some game =>
      Normal
        (omap (fun playerId =>
                 if bool_decide (Some playerId = drawerId game) then None
                 else
                   match Players.getPlayerById (registry_of srv) playerId with
                   | Some guesser =>
                       if String.eqb (socketId guesser) "" then None
                       else Some (mkEmission (socketId guesser) eventName body)
                   | None => None
                   end)
              (players room))
  end.

(** [socket.on('draw_start', ...)] *)
Definition draw_start (srv : Server) (ds : DrawingEngine.State) (socket : string)
    (body : JS.Value) : DrawingEngine.State * Completion (list Emission) :=
  match drawing_room_of srv socket with
  | inr e => (ds, Normal [game_error socket (Some e)])
  | inl (player, room) =>
      let '(ds, result) := DrawingEngine.handleDrawStart ds room (p_id player) body in
      if success result
      then (ds, relay_to_guessers srv room "draw_start" (data result))
      else (ds, Normal [game_error socket (error result)])
  end.

(** [socket.on('draw_move', ...)]. The flag tells whether the handler set
    the 50 ms timer that calls [draw_move_flush]. *)
Definition draw_move (now : Z) (srv : Server) (ds : DrawingEngine.State)
    (socket : string) (body : JS.Value)
    : DrawingEngine.State * Completion (list Emission) * bool :=
  match drawing_room_of srv socket with
  | inr e => (ds, Normal [], false)
  | inl (player, room) =>
      let '(ds, result) := DrawingEngine.handleDrawMove now ds room (p_id player) body in
      if success result
      then
        if snd (data result) then (ds, Normal [], true)
        else
          (ds,
           relay_to_guessers srv room "draw_move"
             (match fst (data result) with
              | JS.Arr items => JS.Arr items
              | single => JS.Arr [single]
              end),
           false)
      else (ds, Normal [], false)
  end.

(** The timer callback of [draw_move], run on the room as it is then. *)
Definition draw_move_flush (srv : Server) (ds : DrawingEngine.State) (room : Room)
    : DrawingEngine.State * Completion (list Emission) :=
  match DrawingEngine.flushBatch ds (id room) with
  | (ds, Some batch) => (ds, relay_to_guessers srv room "draw_move" (JS.Arr batch))
  | (ds, None) => (ds, Normal [])
  end.

(** [socket.on('draw_end', ...)] *)
Definition draw_end (srv : Server) (ds : DrawingEngine.State) (socket : string)
    (body : JS.Value) : DrawingEngine.State * Completion (list Emission) :=
  match drawing_room_of srv socket with
  | inr e => (ds, Normal [])
  | inl (player, room) =>
      let '(ds, result) := DrawingEngine.handleDrawEnd ds room (p_id player) body in
      if success result
      then (ds, relay_to_guessers srv room "draw_end" (data result))
      else (ds, Normal [])
  end.

(** [socket.on('clear_canvas', ...)] *)
Definition clear_canvas (srv : Server) (ds : DrawingEngine.State) (socket : string)
    : DrawingEngine.State * Completion (list Emission) :=
  match drawing_room_of srv socket with
  | inr e => (ds, Normal [game_error socket (Some e)])
  | inl (player, room) =>
      let '(ds, result) := DrawingEngine.handleClearCanvas ds room (p_id player) in
      if success result
      then (ds, relay_to_guessers srv room "clear_canvas" JS.Undefined)
      else (ds, Normal [game_error socket (error result)])
  end.

(** [e] goes to the socket of a registered member of [room] who is not the
    drawer. *)
Definition to_guesser_of (srv : Server) (room : Room) (e : Emission) : Prop :=
  exists g q guesser,
    game room = Some g /\ q ∈ players room /\ drawerId g <> Some q
    /\ Players.getPlayerById (registry_of srv) q = Some guesser
    /\ to e = socketId guesser.

(** What a drawing handler may emit for the event [eventName] that came in
    on [socket]: an error back to the sender, or the event itself, relayed
    for the current drawer to a guesser of the drawer's room. *)
Definition drawing_emission (srv : Server) (socket eventName : string)
    (e : Emission) : Prop :=
  (event e = "game_error" /\ to e = socket)
  \/ (event e = eventName
      /\ exists player room g,
           drawing_room_of srv socket = inl (player, room)
           /\ game room = Some g /\ phase g = DRAWING
           /\ drawerId g = Some (p_id player)
           /\ to_guesser_of srv room e).

(** *** Word selection *)

Definition of_option_word (o : option string) : JS.Value :=
  match o with
  | Some s => JS.Str s
  | None => JS.Null
  end.

(** [startDrawingPhase(room)] for the room object stored under [key]; [now]
    is [Date.now()]. The drawing timer is not started. The function begins
    by reading [room.game.roundStartTime], which throws when the room has no
    game. *)
Definition startDrawingPhase (now : Z) (srv : Server) (ds : DrawingEngine.State)
    (key : string) (room : Room)
    : Server * DrawingEngine.State * Completion (list Emission) :=
  match game room with
  | None =>
      (srv, ds,
       Throw "TypeError: Cannot read properties of null (reading 'roundStartTime')")
  | Some game =>
      let room :=
        match roundStartTime game with
        | Some t =>
            if (t =? 0)%Z then ScoreEngine.initializeRoundStartTime room now else room
        | None => ScoreEngine.initializeRoundStartTime room now
        end in
      let srv := put_room srv key room in
      let ds := DrawingEngine.clearDrawingState ds (id room) in
      let maskedWord := WordEngine.getMaskedWord room in
      let drawerId := drawerId game in
      let started :=
        omap (fun playerId =>
                match Players.getPlayerById (registry_of srv) playerId with
                | None => None
                | Some player =>
                    if String.eqb (socketId player) "" then None
                    else
                      Some (mkEmission (socketId player) "drawing_started"
                              (if bool_decide (Some playerId = drawerId)
                               then
                                 JS.Obj [ ("game", serializeGameState room);
                                          ("drawerId", JS.of_option_str drawerId);
                                          ("word",
                                           of_option_word
                                             (WordEngine.getSelectedWord room)) ]
                               else
                                 JS.Obj [ ("game", serializeGameState room);
                                          ("drawerId", JS.of_option_str drawerId);
                                          ("maskedWord", of_option_word maskedWord) ]))
                end)
             (players room) in
      (srv, ds, Normal started)
  end.

(** [socket.on('select_word', ...)]; the word selection timer is not
    stopped. *)
Definition select_word (now : Z) (srv : Server) (ds : DrawingEngine.State)
    (socket : string) (body : JS.Value)
    : Server * DrawingEngine.State * Completion (list Emission) :=
  match resolve Players.playerManager srv socket with
  | inr e => (srv, ds, Normal [game_error socket (Some e)])
  | inl (player, key, room) =>
      if negb (JS.is_object body) || negb (JS.truthy (JS.prop body "word"))
      then (srv, ds, Normal [game_error socket (Some "Invalid word selection")])
      else
        let '(room, result) :=
          WordEngine.selectWord room (p_id player) (JS.prop body "word") in
        let srv := put_room srv key room in
        if success result
        then
          let announced :=
            broadcastToRoom srv (JS.Str (id room)) "word_selected"
              (JS.Obj [ ("maskedWord", JS.of_option_str (data result));
                        ("autoSelected", JS.Bool false) ]) in
          match startDrawingPhase now srv ds key room with
          | (srv, ds, Normal started) => (srv, ds, Normal (announced ++ started))
          | (srv, ds, Throw e) => (srv, ds, Throw e)
          end
        else (srv, ds, Normal [game_error socket (error result)])
  end.

(** An emission that carries neither the stored word nor, unless it goes to
    the player [drawer], the word under the key [word]. *)
Definition keeps_word (srv : Server) (drawer : string) (e : Emission) : Prop :=
  JS.has_key "selectedWord" (payload e) = false
  /\ (JS.has_key "word" (payload e) = true ->
      exists player,
        Players.getPlayerById (registry_of srv) drawer = Some player
        /\ to e = socketId player).

End Index.

(** ** The life of the rooms Map

    Every way the engine modules can change the [rooms] Map, as one labelled
    step, and the Maps that finitely many steps build from the empty one. *)

Module Lifecycle.

(** The engine calls that act on a room object. *)
Inductive GameOp : Type :=
| StartGame (playerId : string)
| StartRound
| EndRound
| ProgressToNextDrawer
| EndGame
| ResetGame
| TransitionPhase (newPhase : string)
| SelectWord (playerId : string) (word : JS.Value)
| AutoSelectWord (shuffle : list string -> list string)
| ClearWordSelection
| ValidateGuess (playerId : string) (guess : string)
| InitializeRoundStartTime (startTime : Z).

Inductive Op : Type :=
| CreateRoom (draw : nat -> nat) (playerId : string) (settings : JS.Value)
| JoinRoom (playerId : string) (roomId : JS.Value)
| LeaveRoom (playerId : string) (roomId : JS.Value)
| UpdateRoomSettings (playerId : string) (roomId : JS.Value) (newSettings : JS.Value)
| OnRoom (key : string) (op : GameOp).

Definition apply_game_op (op : GameOp) (room : Room) : Room :=
  match op with
  | StartGame playerId => fst (GameEngine.startGame room playerId)
  | StartRound => fst (GameEngine.startRound room)
  | EndRound => fst (GameEngine.endRound room)
  | ProgressToNextDrawer => fst (GameEngine.progressToNextDrawer room)
  | EndGame => fst (GameEngine.endGame room)
  | ResetGame => fst (GameEngine.resetGame room)
  | TransitionPhase newPhase => fst (GameEngine.transitionPhase room newPhase)
  | SelectWord playerId word => fst (WordEngine.selectWord room playerId word)
  | AutoSelectWord shuffle => fst (WordEngine.autoSelectWord shuffle room)
  | ClearWordSelection => WordEngine.clearWordSelection room
  | ValidateGuess playerId guess => fst (GuessEngine.validateGuess room playerId guess)
  | InitializeRoundStartTime startTime =>
      ScoreEngine.initializeRoundStartTime room startTime
  end.

Definition step (op : Op) (rooms : gmap string Room) : gmap string Room :=
  match op with
  | CreateRoom draw playerId settings =>
      fst (Rooms.createRoom draw rooms playerId settings)
  | JoinRoom playerId roomId => fst (Rooms.joinRoom rooms playerId roomId)
  | LeaveRoom playerId roomId => fst (Rooms.leaveRoom rooms playerId roomId)
  | UpdateRoomSettings playerId roomId newSettings =>
      fst (Rooms.updateRoomSettings rooms playerId roomId newSettings)
  | OnRoom key op => alter (apply_game_op op) key rooms
  end.

Definition run_from (rooms : gmap string Room) (ops : list Op) : gmap string Room :=
  foldl (fun rooms op => step op rooms) rooms ops.

Definition run (ops : list Op) : gmap string Room := run_from ∅ ops.

(** [leaves_lobby_only rooms op]: if [op] is a [leaveRoom], the room it
    names has no game. *)
Definition leaves_lobby_only (rooms : gmap string Room) (op : Op) : bool :=
  match op with
  | LeaveRoom _ roomId =>
      match Rooms.getRoom rooms roomId with
      | Some room => bool_decide (game room = None)
      | None => true
      end
  | _ => true
  end.

(** Every step of the run from [rooms] satisfies [allowed] in the state it
    is taken in. *)
Fixpoint respects (allowed : gmap string Room -> Op -> bool)
    (rooms : gmap string Room) (ops : list Op) : bool :=
  match ops with
  | [] => true
  | op :: rest => allowed rooms op && respects allowed (step op rooms) rest
  end.

(** The key under which a step looks its room up. *)
Definition target (op : Op) : option string :=
  match op with
  | CreateRoom _ _ _ => None
  | JoinRoom _ roomId | LeaveRoom _ roomId | UpdateRoomSettings _ roomId _ =>
      Some (Rooms.normalizeRoomId roomId)
  | OnRoom key _ => Some key
  end.

(** How a step changes the room it finds, when it changes it:
    [room_change op r r']. *)
Definition room_change (op : Op) (r r' : Room) : Prop :=
  match op with
  | CreateRoom _ _ _ => False
  | JoinRoom playerId _ =>
      status r = WAITING
      /\ (playerId ∉ players r)
      /\ Z.of_nat (length (players r)) < maxPlayers (settings r)
      /\ r' = set_players (players r ++ [playerId]) r
  | LeaveRoom playerId _ =>
      exists i first rest,
        Rooms.indexOf playerId (players r) = Some i
        /\ delete i (players r) = first :: rest
        /\ r' = (if String.eqb (ownerId r) playerId then set_ownerId first else fun x => x)
                 (set_players (first :: rest) r)
  | UpdateRoomSettings playerId _ newSettings =>
      status r = WAITING
      /\ Z.of_nat (length (players r)) <= maxPlayers (Rooms.validateSettings newSettings)
      /\ r' = set_settings (Rooms.validateSettings newSettings) r
  | OnRoom _ op => r' = apply_game_op op r
  end.

(** What an engine call on an active game can do to the drawer and to the
    list of those who guessed: leave the drawer alone and keep the list,
    empty it or append a player who is not the drawer; or set the drawer to
    the member at the new index and empty the list. *)
Definition round_change (members : list string) (g g' : Game) : Prop :=
  (drawerIndex g' = drawerIndex g /\ drawerId g' = drawerId g
   /\ (guessedPlayers g' = guessedPlayers g
       \/ guessedPlayers g' = []
       \/ exists playerId,
            drawerId g <> Some playerId
            /\ guessedPlayers g' = guessedPlayers g ++ [playerId]))
  \/ (drawerId g' = members !! drawerIndex g' /\ guessedPlayers g' = []).

(** The ways an engine call changes the room it is given. *)
Inductive game_change (r : Room) : Room -> Prop :=
| change_none : game_change r r
| change_start :
    status r = WAITING ->
    game_change r
      (set_status IN_GAME (set_game (Some (GameEngine.initializeGameState r)) r))
| change_reset : game_change r (set_status WAITING (set_game None r))
| change_end (g : Game) :
    game r = Some g -> status r = IN_GAME ->
    game_change r (set_status FINISHED (set_game (Some (set_phase GAME_END g)) r))
| change_round (g g' : Game) :
    game r = Some g -> status r = IN_GAME -> round_change (players r) g g' ->
    game_change r (set_game (Some g') r)
| change_detail (g g' : Game) :
    game r = Some g ->
    drawerIndex g' = drawerIndex g -> drawerId g' = drawerId g ->
    guessedPlayers g' = guessedPlayers g -> phase g' = phase g ->
    game_change r (set_game (Some g') r).

(** The invariant of the specification: the drawer id is the member at the
    drawer index. *)
Definition drawer_in_place (room : Room) : Prop :=
  forall g, game room = Some g -> drawerId g = players room !! drawerIndex g.

Definition within_capacity (room : Room) : Prop :=
  Z.of_nat (length (players room)) <= maxPlayers (settings room).

(** A room with a game is in game, or finished with the game at its end. *)
Definition status_matches_game (room : Room) : Prop :=
  forall g, game room = Some g ->
    status room = IN_GAME \/ (status room = FINISHED /\ phase g = GAME_END).

(** The drawer is not among those who guessed the word. *)
Definition drawer_never_guessed (room : Room) : Prop :=
  forall g p, game room = Some g -> drawerId g = Some p -> p ∉ guessedPlayers g.

(** The two facts about status and guessers that hold in every run. *)
Definition sound (r : Room) : Prop :=
  status_matches_game r /\ drawer_never_guessed r.

(** The owner is a member, and no member is listed twice. *)
Definition well_formed (room : Room) : Prop :=
  ownerId room ∈ players room /\ NoDup (players room).

(** One turn of the game as the round handlers of index.js drive the
    engine: the round is ended, then the next drawer takes over. *)
Definition next_turn (room : Room) : Room :=
  fst (GameEngine.progressToNextDrawer (fst (GameEngine.endRound room))).

(** The room [k] turns after the game was started by [playerId]. *)
Definition after_turns (k : nat) (room : Room) (playerId : string) : Room :=
  Nat.iter k next_turn (fst (GameEngine.startGame room playerId)).

(** The room [k] turns after the start of a game in [r], in closed form:
    with [n] members, drawer index [k mod n] and round [1 + k / n]. *)
Definition scheduled (r : Room) (k : nat) : Room :=
  let n := length (players r) in
  set_status IN_GAME
    (set_game
       (Some (mkGame WORD_SELECT (1 + Z.of_nat (k / n)) (rounds (settings r))
                (k mod n) (players r !! (k mod n)%nat) [] None None None))
       r).

(** No player is listed twice among those who guessed. *)
Definition guessed_once (room : Room) : Prop :=
  forall g, game room = Some g -> NoDup (guessedPlayers g).

End Lifecycle.

(** ** The life of the server state

    The events that reach the lobby and game handlers of index.js, one after
    the other, from the state in which the process starts. *)

Module Lobby.

Inductive Event : Type :=
| Connect (socket playerId suffix : string)
| SetPlayerName (socket : string) (body : JS.Value)
| CreateRoom (draw : nat -> nat) (socket : string) (body : JS.Value)
| JoinRoom (socket : string) (body : JS.Value)
| LeaveRoom (socket : string)
| UpdateRoomSettings (socket : string) (body : JS.Value)
| StartGame (now : Z) (socket : string)
| Guess (guessTimestamp now : Z) (socket : string) (body : JS.Value)
| PlayAgain (socket : string)
| Disconnect (socket : string).

(** The state after the handler of the event has run, to its end or to the
    point where it throws. [playerManager] is the module as players.js
    exports it. *)
Definition handle (e : Event) (srv : Index.Server) : Index.Server :=
  match e with
  | Connect socket playerId suffix => fst (Index.connection srv socket playerId suffix)
  | SetPlayerName socket body => fst (Index.set_player_name srv socket body)
  | CreateRoom draw socket body => fst (Index.create_room draw srv socket body)
  | JoinRoom socket body => fst (Index.join_room srv socket body)
  | LeaveRoom socket => fst (Index.leave_room srv socket)
  | UpdateRoomSettings socket body => fst (Index.update_room_settings srv socket body)
  | StartGame now socket => fst (Index.start_game Players.playerManager now srv socket)
  | Guess guessTimestamp now socket body =>
      fst (Index.guess Players.playerManager guessTimestamp now srv socket body)
  | PlayAgain socket => fst (Index.play_again Players.playerManager srv socket)
  | Disconnect socket => fst (Index.disconnect srv socket)
  end.

(** The transport gives every connection a socket id of its own, and
    [randomUUID()] a player id of its own. *)
Definition fresh (srv : Index.Server) (e : Event) : bool :=
  match e with
  | Connect socket playerId _ =>
      bool_decide (Players.players_by_socket (Index.registry_of srv) !! socket = None)
      && bool_decide (Players.playerById (Index.registry_of srv) !! playerId = None)
  | _ => true
  end.

Fixpoint admissible (srv : Index.Server) (events : list Event) : bool :=
  match events with
  | [] => true
  | e :: rest => fresh srv e && admissible (handle e srv) rest
  end.

Definition run_from (srv : Index.Server) (events : list Event) : Index.Server :=
  foldl (fun srv e => handle e srv) srv events.

(** No player, no room, no recorded guess time. *)
Definition initial : Index.Server :=
  Index.mkServer (ScoreEngine.mkStore (Players.mkRegistry ∅ ∅) ∅) ∅.

Definition run (events : list Event) : Index.Server := run_from initial events.

(** The two indexes of the registry agree, every member of a room is a
    registered player whose [roomId] is the id of that room, and the
    [roomId] of a player names a room that lists the player. *)
Record consistent (reg : Players.Registry) (rooms : gmap string Room) : Prop :=
  mkConsistent {
  socket_has_player :
    forall socket key,
      Players.players_by_socket reg !! socket = Some key ->
      exists player, Players.playerById reg !! key = Some player
                     /\ socketId player = socket;
  player_has_socket :
    forall key player,
      Players.playerById reg !! key = Some player ->
      p_id player = key
      /\ Players.players_by_socket reg !! socketId player = Some key;
  room_has_members :
    forall code room,
      rooms !! code = Some room ->
      id room = code /\ Rooms.normalizeRoomId (JS.Str code) = code /\ code <> ""
      /\ NoDup (players room)
      /\ forall member, member ∈ players room ->
           exists player, Players.playerById reg !! member = Some player
                          /\ roomId player = Some code;
  player_has_room :
    forall key player code,
      Players.playerById reg !! key = Some player -> roomId player = Some code ->
      exists room, rooms !! code = Some room /\ key ∈ players room
}.

(** A player that no room lists. *)
Definition roomless (rooms : gmap string Room) (key : string) : Prop :=
  forall code room, rooms !! code = Some room -> key ∉ players room.

End Lobby.

(** ** The words of the specification, where a property compares them with
    the code *)

Module Spec.

Local Open Scope Q_scope.

(** [clamp(x, 0, 1)] *)
Definition clamp01 (x : Q) : Q :=
  if Qle_bool x 0 then 0 else if Qle_bool 1 x then 1 else x.

(** [max(10, floor(100 + 100 * (1 - clamp(((t - s) / 1000) / D, 0, 1))))] *)
Definition score (D s t : Z) : Z :=
  let elapsed := inject_Z (t - s) / 1000 in
  let ratio := clamp01 (elapsed / inject_Z D) in
  Z.max 10 (Qfloor (100 + 100 * (1 - ratio))).

(** The display unit of one code unit of the word: the space itself, or an
    underscore. *)
Definition mask_unit (c : ascii) : ascii :=
  if Ascii.eqb c " "%char then " "%char else "_"%char.

End Spec.

(** ** Values used to exercise the definitions *)

Module Fixtures.

(** A callback for [updatePlayerScore]: it stores the total on the player. *)
Definition store_total (playerId : string) (total : Z) (reg : Players.Registry)
    : Players.Registry :=
  Players.mkRegistry (Players.players_by_socket reg)
    (alter (set_score (Some total)) playerId (Players.playerById reg)).

Definition alice : Player := mkPlayer "p1" "s1" "Alice" (Some "ABC123") None.
Definition bob : Player := mkPlayer "p2" "s2" "Bob" (Some "ABC123") None.
Definition carol : Player := mkPlayer "p3" "s3" "Carol" (Some "ABC123") None.

Definition registry : Players.Registry :=
  Players.mkRegistry
    (<["s1" := "p1"]> (<["s2" := "p2"]> (<["s3" := "p3"]> ∅)))
    (<["p1" := alice]> (<["p2" := bob]> (<["p3" := carol]> ∅))).

Definition store : ScoreEngine.Store := ScoreEngine.mkStore registry ∅.

(** A room of the default settings with two members, waiting. *)
Definition lobby : Room :=
  mkRoom "ABC123" "p1" ["p1"; "p2"] Rooms.DEFAULT_SETTINGS WAITING None.

(** The same room while "p1" draws "cat", the round having started at
    time 1000. *)
Definition drawing_room : Room :=
  mkRoom "ABC123" "p1" ["p1"; "p2"] Rooms.DEFAULT_SETTINGS IN_GAME
    (Some (mkGame DRAWING 1 3 0 (Some "p1") [] (Some 1000) (Some "cat")
             (Some "_ _ _"))).

(** The same room at the start of a round, before a word is chosen. *)
Definition word_select_room : Room :=
  mkRoom "ABC123" "p1" ["p1"; "p2"] Rooms.DEFAULT_SETTINGS IN_GAME
    (Some (mkGame WORD_SELECT 1 3 0 (Some "p1") [] (Some 1000) None None)).

(** The same room after the last round. *)
Definition finished_room : Room :=
  mkRoom "ABC123" "p1" ["p1"; "p2"] Rooms.DEFAULT_SETTINGS FINISHED
    (Some (mkGame GAME_END 3 3 1 (Some "p2") [] (Some 1000) None None)).

Definition server_of (room : Room) : Index.Server :=
  Index.mkServer store (<["ABC123" := room]> ∅).

(** A rearrangement of the kind the random-comparator sort can leave: the
    entries equal to "telescope" come first, the others keep their order. *)
Definition telescopes_first (l : list string) : list string :=
  List.filter (String.eqb "telescope") l
  ++ List.filter (fun w => negb (String.eqb "telescope" w)) l.

(** The draws that make [generateRoomId] produce "ABC123". *)
Definition draw_ABC123 (k : nat) : nat := nth k [0; 1; 2; 27; 28; 29]%nat 0%nat.

(** "p1" creates a room with the default settings; "p2" and "p3" join it. *)
Definition lobby_ops : list Lifecycle.Op :=
  [ Lifecycle.CreateRoom draw_ABC123 "p1" JS.Undefined;
    Lifecycle.JoinRoom "p2" (JS.Str "abc123");
    Lifecycle.JoinRoom "p3" (JS.Str " ABC123 ") ].

(** Then "p1" starts the game. *)
Definition game_ops : list Lifecycle.Op :=
  lobby_ops ++ [ Lifecycle.OnRoom "ABC123" (Lifecycle.StartGame "p1") ].

(** Then "p1", the first drawer, leaves. *)
Definition midgame_leave_ops : list Lifecycle.Op :=
  game_ops ++ [ Lifecycle.LeaveRoom "p1" (JS.Str "ABC123") ].

(** Or "p1" selects "cat" and "p2" guesses it. *)
Definition guessed_ops : list Lifecycle.Op :=
  game_ops
  ++ [ Lifecycle.OnRoom "ABC123" (Lifecycle.SelectWord "p1" (JS.Str "Cat"));
       Lifecycle.OnRoom "ABC123" (Lifecycle.ValidateGuess "p2" "cat ") ].

(** The room that [guessed_ops] leaves. *)
Definition guessed_room : Room :=
  mkRoom "ABC123" "p1" ["p1"; "p2"; "p3"] Rooms.DEFAULT_SETTINGS IN_GAME
    (Some (mkGame DRAWING 1 3 0 (Some "p1") ["p2"] None (Some "cat")
             (Some "_ _ _"))).

(** Two players connect; the first creates a room, the second joins it
    under its code in lower case, and the first leaves. *)
Definition lobby_events : list Lobby.Event :=
  [ Lobby.Connect "s1" "p1" "001";
    Lobby.Connect "s2" "p2" "002";
    Lobby.CreateRoom draw_ABC123 "s1" JS.Null;
    Lobby.JoinRoom "s2" (JS.Obj [("roomId", JS.Str "abc123")]);
    Lobby.LeaveRoom "s1" ].

End Fixtures.

(** * Properties *)

(** ** The guard shared by the engine functions *)

Lemma hasActiveGame_true (room : Room) (g : Game) :
  game room = Some g -> status room = IN_GAME ->
  GameEngine.hasActiveGame room = (true, None).
Proof.
  intros Hg Hs. unfold GameEngine.hasActiveGame. rewrite Hg, Hs. reflexivity.
Qed.

Lemma hasActiveGame_inv (room : Room) :
  fst (GameEngine.hasActiveGame room) = true ->
  status room = IN_GAME /\ exists g, game room = Some g.
Proof.
  unfold GameEngine.hasActiveGame. destruct (game room) as [g|]; [|discriminate].
  destruct (status room); cbn; intros H; try discriminate. eauto.
Qed.

Lemma hasActiveGame_false (room : Room) :
  fst (GameEngine.hasActiveGame room) = false ->
  game room = None \/ status room <> IN_GAME.
Proof.
  unfold GameEngine.hasActiveGame. destruct (game room) as [g|]; [|auto].
  destruct (status room); cbn; intros H; try discriminate; right; discriminate.
Qed.

(** ** Masking of the selected word *)

Section MaskWord.

Import JS WordEngine Spec.

Lemma mask_char_unit (c : ascii) :
  mask_char (String c EmptyString) = String (mask_unit c) EmptyString.
Proof.
  unfold mask_char, mask_unit. cbn [String.eqb].
  destruct (Ascii.eqb c " "); reflexivity.
Qed.

Lemma maskWord_single (c : ascii) :
  maskWord (String c EmptyString) = String (mask_unit c) EmptyString.
Proof.
  unfold maskWord, join. cbn [String.eqb split_chars map String.concat].
  apply mask_char_unit.
Qed.

Lemma maskWord_cons (c d : ascii) (w : string) :
  maskWord (String c (String d w))
  = String (mask_unit c) (String " " (maskWord (String d w))).
Proof.
  unfold maskWord, join.
  cbn [String.eqb split_chars map String.concat].
  rewrite mask_char_unit. reflexivity.
Qed.

Lemma maskWord_length (w : string) :
  String.length (maskWord w) = (2 * String.length w - 1)%nat.
Proof.
  induction w as [|c w IH]; [reflexivity|].
  destruct w as [|d w].
  - rewrite maskWord_single. reflexivity.
  - rewrite maskWord_cons. cbn [String.length] in *. lia.
Qed.

Lemma maskWord_even (w : string) (i : nat) (c : ascii) :
  String.get i w = Some c ->
  String.get (2 * i) (maskWord w) = Some (mask_unit c).
Proof.
  revert i. induction w as [|a w IH]; intros i Hi; [discriminate|].
  destruct w as [|d w].
  - destruct i as [|i]; cbn in Hi; [|discriminate].
    injection Hi as ->. rewrite maskWord_single. reflexivity.
  - rewrite maskWord_cons. destruct i as [|i].
    + cbn in Hi. injection Hi as ->. reflexivity.
    + replace (2 * S i)%nat with (S (S (2 * i))) by lia.
      cbn [String.get]. apply IH. exact Hi.
Qed.

Lemma maskWord_odd (w : string) (i : nat) :
  (i + 1 < String.length w)%nat ->
  String.get (2 * i + 1) (maskWord w) = Some " "%char.
Proof.
  revert i. induction w as [|a w IH]; intros i Hi; [cbn in Hi; lia|].
  destruct w as [|d w]; [cbn in Hi; lia|].
  rewrite maskWord_cons. destruct i as [|i]; [reflexivity|].
  replace (2 * S i + 1)%nat with (S (S (2 * i + 1))) by lia.
  cbn [String.get]. apply IH. cbn [String.length] in *. lia.
Qed.

End MaskWord.

(** The two displays of the module differ at a word break: the hint of
    level 0 has two spaces there, the mask three. *)
Example generateHint_ice_cream :
  WordEngine.generateHint "ice cream" 0 = "_ _ _  _ _ _ _ _"
  /\ WordEngine.generateHint "ice cream" 1 = "_ _ e  _ _ _ _ _"
  /\ WordEngine.maskWord "ice cream" = "_ _ _   _ _ _ _ _".
Proof. repeat split; vm_compute; reflexivity. Qed.

(** C7, as stated: the example of the specification has two spaces at the
    word break, the code produces three. *)
Lemma maskWord_ice_cream_two_spaces_fails :
  WordEngine.maskWord "ice cream" <> "_ _ _  _ _ _ _ _".
Proof. vm_compute. discriminate. Qed.

(** C7, amended: the mask of [w] has one display unit per code unit of [w]
    (an underscore, or the space itself) at the even positions and a single
    joining space between consecutive units, so that a space of the word
    shows as three spaces; [maskWord "ice cream"] is ["_ _ _   _ _ _ _ _"]. *)
Theorem maskWord_units_joined_by_space (w : string) :
  String.length (WordEngine.maskWord w) = (2 * String.length w - 1)%nat
  /\ (forall i c, String.get i w = Some c ->
        String.get (2 * i) (WordEngine.maskWord w) = Some (Spec.mask_unit c))
  /\ (forall i, (i + 1 < String.length w)%nat ->
        String.get (2 * i + 1) (WordEngine.maskWord w) = Some " "%char)
  /\ WordEngine.maskWord "ice cream" = "_ _ _   _ _ _ _ _".
Proof.
  split; [apply maskWord_length|].
  split; [intros i c; apply maskWord_even|].
  split; [apply maskWord_odd|reflexivity].
Qed.

Lemma maskWord_units_joined_by_space_witness :
  String.get 6 (WordEngine.maskWord "ice cream") = Some " "%char
  /\ String.get 7 (WordEngine.maskWord "ice cream") = Some " "%char
  /\ String.get 8 (WordEngine.maskWord "ice cream") = Some "_"%char.
Proof.
  destruct (maskWord_units_joined_by_space "ice cream") as (_ & Heven & Hodd & _).
  split; [exact (Heven 3%nat " "%char eq_refl)|].
  split; [apply (Hodd 3%nat); vm_compute; lia|].
  exact (Heven 4%nat "c"%char eq_refl).
Defined.

(** ** Rounding to binary64 *)

Section Rounding.

Import Binary64.
Local Open Scope Q_scope.

Lemma pow2_pos (k : Z) : 0 < pow2 k.
Proof. apply Qpower_0_lt. reflexivity. Qed.

Lemma pow2_add (a b : Z) : pow2 (a + b) == pow2 a * pow2 b.
Proof. apply Qpower_plus. discriminate. Qed.

Lemma pow2_le (a b : Z) : (a <= b)%Z -> pow2 a <= pow2 b.
Proof. intros H. apply Qpower_le_compat_l; [exact H|discriminate]. Qed.

Lemma pow2_lt (a b : Z) : (a < b)%Z -> pow2 a < pow2 b.
Proof. intros H. apply Qpower_lt_compat_l; [exact H|reflexivity]. Qed.

Lemma pow2_le_inv (a b : Z) : pow2 a <= pow2 b -> (a <= b)%Z.
Proof.
  intros H. destruct (Z_le_gt_dec a b) as [Hle|Hgt]; [exact Hle|].
  exfalso. apply (Qlt_not_le _ _ (pow2_lt b a ltac:(lia))). exact H.
Qed.

Lemma pow2_Z (n : Z) : (0 <= n)%Z -> pow2 n == inject_Z (2 ^ n).
Proof. intros H. symmetry. apply (Zpower_Qpower 2 n H). Qed.

Lemma pow2_succ (a : Z) : pow2 (a + 1) == 2 * pow2 a.
Proof. rewrite pow2_add. change (pow2 1) with 2. ring. Qed.

Lemma pow2_pred (a : Z) : pow2 a == 2 * pow2 (a - 1).
Proof. rewrite <- pow2_succ. replace (a - 1 + 1)%Z with a by lia. reflexivity. Qed.

(** *** The nearest integer *)

Lemma round_half_even_floor (x : Q) :
  round_half_even x = Qfloor x \/ round_half_even x = (Qfloor x + 1)%Z.
Proof.
  unfold round_half_even.
  destruct (Qcompare _ _); [destruct (Z.even _)|..]; auto.
Qed.

Lemma round_half_even_near (x : Q) :
  x - (1 # 2) <= inject_Z (round_half_even x) <= x + (1 # 2).
Proof.
  unfold round_half_even.
  pose proof (Qfloor_le x) as Hlo. pose proof (Qlt_floor x) as Hhi.
  rewrite inject_Z_plus in Hhi. change (inject_Z 1) with 1 in Hhi.
  destruct (Qcompare_spec (x - inject_Z (Qfloor x)) (1 # 2)) as [E|E|E].
  - destruct (Z.even (Qfloor x)); rewrite ?inject_Z_plus;
      change (inject_Z 1) with 1; split; lra.
  - split; lra.
  - rewrite inject_Z_plus. change (inject_Z 1) with 1. split; lra.
Qed.

Lemma round_half_even_monotone (x y : Q) :
  x <= y -> (round_half_even x <= round_half_even y)%Z.
Proof.
  intros H. pose proof (Qfloor_resp_le x y H) as Hf.
  destruct (Z.eq_dec (Qfloor x) (Qfloor y)) as [E|N].
  - unfold round_half_even. rewrite E.
    destruct (Qcompare_spec (x - inject_Z (Qfloor y)) (1 # 2)) as [Ex|Ex|Ex];
      destruct (Qcompare_spec (y - inject_Z (Qfloor y)) (1 # 2)) as [Ey|Ey|Ey];
      destruct (Z.even (Qfloor y)); try lia; exfalso; lra.
  - destruct (round_half_even_floor x) as [-> | ->],
             (round_half_even_floor y) as [-> | ->]; lia.
Qed.

Lemma round_half_even_compat (x y : Q) :
  x == y -> round_half_even x = round_half_even y.
Proof.
  intros H. apply Z.le_antisymm; apply round_half_even_monotone; rewrite H;
    apply Qle_refl.
Qed.

Lemma round_half_even_Z (z : Z) : round_half_even (inject_Z z) = z.
Proof.
  unfold round_half_even. rewrite Qfloor_Z.
  destruct (Qcompare_spec (inject_Z z - inject_Z z) (1 # 2)) as [E|E|E];
    [exfalso; lra|reflexivity|exfalso; lra].
Qed.

(** *** The exponent of a positive number *)

Lemma ilog2_spec (x : Q) :
  0 < x -> pow2 (ilog2 x) <= x /\ x < pow2 (ilog2 x + 1).
Proof.
  intros Hx. destruct x as [a b].
  assert (0 < a)%Z as Ha by (unfold Qlt in Hx; cbn in Hx; lia).
  unfold ilog2. cbn [Qnum Qden].
  set (la := Z.log2 a). set (lb := Z.log2 (Zpos b)).
  destruct (Z.log2_spec a Ha) as [Ha1 Ha2].
  destruct (Z.log2_spec (Zpos b) eq_refl) as [Hb1 Hb2].
  fold la in Ha1, Ha2. fold lb in Hb1, Hb2.
  assert (0 <= la)%Z as Hla by apply Z.log2_nonneg.
  assert (0 <= lb)%Z as Hlb by apply Z.log2_nonneg.
  rewrite Zle_Qle, <- (pow2_Z la Hla) in Ha1.
  rewrite Zlt_Qlt, <- (pow2_Z (Z.succ la)), <- Z.add_1_r, pow2_succ in Ha2 by lia.
  rewrite Zle_Qle, <- (pow2_Z lb Hlb) in Hb1.
  rewrite Zlt_Qlt, <- (pow2_Z (Z.succ lb)), <- Z.add_1_r, pow2_succ in Hb2 by lia.
  assert ((a # b) * inject_Z (Zpos b) == inject_Z a) as Hab.
  { unfold Qeq. cbn. lia. }
  pose proof (pow2_pos la) as Pa. pose proof (pow2_pos lb) as Pb.
  assert (pow2 la == pow2 (la - lb) * pow2 lb) as Hsplit.
  { rewrite <- pow2_add. replace (la - lb + lb)%Z with la by lia. reflexivity. }
  pose proof (pow2_pos (la - lb)) as Pe.
  set (X := a # b) in *. set (A := inject_Z a) in *.
  set (B := inject_Z (Zpos b)) in *.
  set (PA := pow2 la) in *. set (PB := pow2 lb) in *.
  destruct (Qle_bool (pow2 (la - lb)) X) eqn:E.
  - apply Qle_bool_iff in E. split; [exact E|].
    rewrite pow2_succ. set (PE := pow2 (la - lb)) in *.
    apply Qnot_le_lt. intros Hc. nra.
  - assert (X < pow2 (la - lb)) as E'.
    { apply Qnot_le_lt. intros Hc. apply Qle_bool_iff in Hc. congruence. }
    replace (la - lb - 1 + 1)%Z with (la - lb)%Z by lia. split; [|exact E'].
    pose proof (pow2_pred (la - lb)) as Hp.
    pose proof (pow2_pos (la - lb - 1)) as Pe'.
    set (PE := pow2 (la - lb)) in *. set (PE' := pow2 (la - lb - 1)) in *.
    apply Qnot_lt_le. intros Hc. nra.
Qed.

Lemma ilog2_monotone (x y : Q) : 0 < x -> x <= y -> (ilog2 x <= ilog2 y)%Z.
Proof.
  intros Hx Hxy.
  destruct (ilog2_spec x Hx) as [Hx1 _].
  destruct (ilog2_spec y) as [_ Hy2]; [lra|].
  destruct (Z_le_gt_dec (ilog2 x) (ilog2 y)) as [Hle|Hgt]; [exact Hle|].
  exfalso. pose proof (pow2_le (ilog2 y + 1) (ilog2 x) ltac:(lia)). lra.
Qed.

Lemma ilog2_below (x : Q) (j : Z) : 0 < x -> x <= pow2 j -> (ilog2 x <= j)%Z.
Proof.
  intros Hx Hj. destruct (ilog2_spec x Hx) as [H1 _].
  apply pow2_le_inv. lra.
Qed.


(** *** The last place *)

Lemma Qabs_nonzero (x : Q) : ~ x == 0 -> 0 < Qabs x.
Proof.
  intros Hx. destruct (Qlt_le_dec x 0) as [H|H].
  - rewrite (Qabs_neg x) by lra. lra.
  - rewrite (Qabs_pos x H). lra.
Qed.

Lemma ulp_exponent_min (x : Q) : (-1074 <= ulp_exponent x)%Z.
Proof. unfold ulp_exponent. lia. Qed.

(** The significand has at most 53 bits, and exactly 53 above the subnormal
    numbers. *)
Lemma ulp_exponent_spec (x : Q) :
  ~ x == 0 ->
  Qabs x < pow2 (ulp_exponent x + 53)
  /\ (ulp_exponent x = (-1074)%Z \/ pow2 (ulp_exponent x + 52) <= Qabs x).
Proof.
  intros Hx.
  pose proof (Qabs_nonzero x Hx) as Habs.
  destruct (ilog2_spec (Qabs x) Habs) as [H1 H2].
  unfold ulp_exponent. split.
  - eapply Qlt_le_trans; [exact H2|]. apply pow2_le. lia.
  - destruct (Z.max_spec (ilog2 (Qabs x) - 52) (-1074)) as [[_ ->]|[_ ->]].
    + left. reflexivity.
    + right. replace (ilog2 (Qabs x) - 52 + 52)%Z with (ilog2 (Qabs x)) by lia.
      exact H1.
Qed.

Lemma ulp_exponent_monotone (x y : Q) :
  Qabs x <= Qabs y -> ~ x == 0 -> (ulp_exponent x <= ulp_exponent y)%Z.
Proof.
  intros H Hx. unfold ulp_exponent.
  pose proof (Qabs_nonzero x Hx) as Habs.
  pose proof (ilog2_monotone _ _ Habs H). lia.
Qed.

Lemma round64_scaled (x : Q) :
  round64 x == inject_Z (round_half_even (x / pow2 (ulp_exponent x)))
               * pow2 (ulp_exponent x).
Proof. reflexivity. Qed.

Lemma scaled_le (x y p : Q) : 0 < p -> x <= y -> x / p <= y / p.
Proof.
  intros Hp H. unfold Qdiv. apply Qmult_le_compat_r; [exact H|].
  apply Qlt_le_weak. apply Qinv_lt_0_compat. exact Hp.
Qed.

Lemma scaled_back (x p : Q) : 0 < p -> x / p * p == x.
Proof. intros Hp. field. lra. Qed.

Lemma scaled_nonneg (x p : Q) : 0 < p -> 0 <= x -> inject_Z 0 <= x / p.
Proof.
  intros Hp H. apply Qle_shift_div_l; [exact Hp|]. change (inject_Z 0) with 0. lra.
Qed.

Lemma scaled_nonpos (x p : Q) : 0 < p -> x <= 0 -> x / p <= inject_Z 0.
Proof.
  intros Hp H. apply Qle_shift_div_r; [exact Hp|]. change (inject_Z 0) with 0. lra.
Qed.

Lemma round64_0 (x : Q) : x == 0 -> round64 x == 0.
Proof.
  intros H. rewrite round64_scaled. set (p := pow2 (ulp_exponent x)).
  rewrite (round_half_even_compat _ (inject_Z 0)).
  - rewrite round_half_even_Z. ring.
  - rewrite H. unfold Qdiv. ring.
Qed.

(** A number that is a multiple of its last place is not changed. *)
Lemma round64_exact (x : Q) (m : Z) :
  x == inject_Z m * pow2 (ulp_exponent x) -> round64 x == x.
Proof.
  intros H. rewrite round64_scaled.
  pose proof (pow2_pos (ulp_exponent x)) as Hp.
  set (p := pow2 (ulp_exponent x)) in *.
  rewrite (round_half_even_compat _ (inject_Z m)).
  - rewrite round_half_even_Z. symmetry. exact H.
  - rewrite H. field. lra.
Qed.

Lemma round64_nonneg (x : Q) : 0 <= x -> 0 <= round64 x.
Proof.
  intros H. rewrite round64_scaled.
  pose proof (pow2_pos (ulp_exponent x)) as Hp.
  apply Qmult_le_0_compat; [|lra].
  change 0 with (inject_Z 0). rewrite <- Zle_Qle.
  rewrite <- (round_half_even_Z 0). apply round_half_even_monotone.
  apply scaled_nonneg; assumption.
Qed.

Lemma round64_nonpos (x : Q) : x <= 0 -> round64 x <= 0.
Proof.
  intros H. rewrite round64_scaled.
  pose proof (pow2_pos (ulp_exponent x)) as Hp.
  assert (inject_Z (round_half_even (x / pow2 (ulp_exponent x))) <= 0) as Hm.
  { change 0 with (inject_Z 0). rewrite <- Zle_Qle.
    rewrite <- (round_half_even_Z 0). apply round_half_even_monotone.
    apply scaled_nonpos; assumption. }
  nra.
Qed.

(** Bounds of the rounded significand. *)
Lemma significand_upper (x : Q) (k : Z) (j : Z) :
  (0 <= j)%Z -> x <= pow2 (k + j) ->
  inject_Z (round_half_even (x / pow2 k)) * pow2 k <= pow2 (k + j).
Proof.
  intros Hj H. pose proof (pow2_pos k) as Hp.
  assert (round_half_even (x / pow2 k) <= 2 ^ j)%Z as Hm.
  { rewrite <- (round_half_even_Z (2 ^ j)). apply round_half_even_monotone.
    rewrite <- (pow2_Z j Hj).
    apply Qle_shift_div_r; [exact Hp|]. rewrite <- pow2_add.
    replace (j + k)%Z with (k + j)%Z by lia. exact H. }
  rewrite Zle_Qle, <- (pow2_Z j Hj) in Hm.
  rewrite pow2_add. pose proof (pow2_pos j). nra.
Qed.

Lemma significand_lower (x : Q) (k : Z) (j : Z) :
  (0 <= j)%Z -> pow2 (k + j) <= x ->
  pow2 (k + j) <= inject_Z (round_half_even (x / pow2 k)) * pow2 k.
Proof.
  intros Hj H. pose proof (pow2_pos k) as Hp.
  assert (2 ^ j <= round_half_even (x / pow2 k))%Z as Hm.
  { rewrite <- (round_half_even_Z (2 ^ j)) at 1. apply round_half_even_monotone.
    rewrite <- (pow2_Z j Hj).
    apply Qle_shift_div_l; [exact Hp|]. rewrite <- pow2_add.
    replace (j + k)%Z with (k + j)%Z by lia. exact H. }
  rewrite Zle_Qle, <- (pow2_Z j Hj) in Hm.
  rewrite pow2_add. pose proof (pow2_pos j). nra.
Qed.

Lemma significand_upper_neg (x : Q) (k : Z) (j : Z) :
  (0 <= j)%Z -> x <= - pow2 (k + j) ->
  inject_Z (round_half_even (x / pow2 k)) * pow2 k <= - pow2 (k + j).
Proof.
  intros Hj H. pose proof (pow2_pos k) as Hp.
  assert (round_half_even (x / pow2 k) <= - 2 ^ j)%Z as Hm.
  { rewrite <- (round_half_even_Z (- 2 ^ j)). apply round_half_even_monotone.
    rewrite inject_Z_opp, <- (pow2_Z j Hj).
    apply Qle_shift_div_r; [exact Hp|].
    assert (pow2 (k + j) == pow2 j * pow2 k) as E.
    { rewrite <- pow2_add. replace (j + k)%Z with (k + j)%Z by lia. reflexivity. }
    lra. }
  rewrite Zle_Qle, inject_Z_opp, <- (pow2_Z j Hj) in Hm.
  rewrite pow2_add. pose proof (pow2_pos j). nra.
Qed.

Lemma significand_lower_neg (x : Q) (k : Z) (j : Z) :
  (0 <= j)%Z -> - pow2 (k + j) <= x ->
  - pow2 (k + j) <= inject_Z (round_half_even (x / pow2 k)) * pow2 k.
Proof.
  intros Hj H. pose proof (pow2_pos k) as Hp.
  assert (- 2 ^ j <= round_half_even (x / pow2 k))%Z as Hm.
  { rewrite <- (round_half_even_Z (- 2 ^ j)) at 1. apply round_half_even_monotone.
    rewrite inject_Z_opp, <- (pow2_Z j Hj).
    apply Qle_shift_div_l; [exact Hp|].
    assert (pow2 (k + j) == pow2 j * pow2 k) as E.
    { rewrite <- pow2_add. replace (j + k)%Z with (k + j)%Z by lia. reflexivity. }
    lra. }
  rewrite Zle_Qle, inject_Z_opp, <- (pow2_Z j Hj) in Hm.
  rewrite pow2_add. pose proof (pow2_pos j). nra.
Qed.

(** Rounding keeps the order. *)
Lemma round64_monotone (x y : Q) : x <= y -> round64 x <= round64 y.
Proof.
  intros H.
  destruct (Qlt_le_dec 0 x) as [Hx|Hx].
  - (* 0 < x <= y *)
    assert (~ x == 0) as Nx by lra. assert (~ y == 0) as Ny by lra.
    assert (Qabs x == x) as Ax by (apply Qabs_pos; lra).
    assert (Qabs y == y) as Ay by (apply Qabs_pos; lra).
    pose proof (ulp_exponent_monotone x y ltac:(lra) Nx) as Hk.
    destruct (ulp_exponent_spec x Nx) as [Hx1 _].
    destruct (ulp_exponent_spec y Ny) as [_ Hy2].
    destruct (Z.eq_dec (ulp_exponent x) (ulp_exponent y)) as [E|N].
    + rewrite !round64_scaled, E.
      pose proof (pow2_pos (ulp_exponent y)) as Hp.
      apply Qmult_le_compat_r; [|lra].
      rewrite <- Zle_Qle. apply round_half_even_monotone.
      apply scaled_le; assumption.
    + destruct Hy2 as [Hy2|Hy2];
        [pose proof (ulp_exponent_min x); lia|].
      apply Qle_trans with (pow2 (ulp_exponent x + 53)).
      * rewrite round64_scaled. apply significand_upper; [lia|lra].
      * apply Qle_trans with (pow2 (ulp_exponent y + 52)).
        -- apply pow2_le. lia.
        -- rewrite (round64_scaled y). apply significand_lower; [lia|lra].
  - destruct (Qlt_le_dec y 0) as [Hy|Hy].
    + (* x <= y < 0 *)
      assert (~ x == 0) as Nx by lra. assert (~ y == 0) as Ny by lra.
      assert (Qabs x == - x) as Ax by (apply Qabs_neg; lra).
      assert (Qabs y == - y) as Ay by (apply Qabs_neg; lra).
      pose proof (ulp_exponent_monotone y x ltac:(lra) Ny) as Hk.
      destruct (ulp_exponent_spec x Nx) as [_ Hx2].
      destruct (ulp_exponent_spec y Ny) as [Hy1 _].
      destruct (Z.eq_dec (ulp_exponent x) (ulp_exponent y)) as [E|N].
      * rewrite !round64_scaled, E.
        pose proof (pow2_pos (ulp_exponent y)) as Hp.
        apply Qmult_le_compat_r; [|lra].
        rewrite <- Zle_Qle. apply round_half_even_monotone.
        apply scaled_le; assumption.
      * destruct Hx2 as [Hx2|Hx2];
          [pose proof (ulp_exponent_min y); lia|].
        apply Qle_trans with (- pow2 (ulp_exponent x + 52)).
        -- rewrite round64_scaled. apply significand_upper_neg; [lia|lra].
        -- apply Qle_trans with (- pow2 (ulp_exponent y + 53)).
           ++ pose proof (pow2_le (ulp_exponent y + 53) (ulp_exponent x + 52)
                            ltac:(lia)). lra.
           ++ rewrite (round64_scaled y). apply significand_lower_neg; [lia|lra].
    + (* x <= 0 <= y *)
      pose proof (round64_nonpos x Hx). pose proof (round64_nonneg y Hy). lra.
Qed.

#[global] Instance round64_compat : Proper (Qeq ==> Qeq) round64.
Proof.
  intros x y H. apply Qle_antisym; apply round64_monotone; rewrite H;
    apply Qle_refl.
Qed.

(** The error of a rounding is at most half a unit in the last place. *)
Lemma round64_error (x : Q) (j : Z) :
  0 <= x -> x <= pow2 j -> (-1022 <= j)%Z ->
  x - pow2 (j - 53) <= round64 x <= x + pow2 (j - 53).
Proof.
  intros H0 Hj Hmin.
  destruct (Qeq_dec x 0) as [E|N].
  - rewrite (round64_0 x E). pose proof (pow2_pos (j - 53)). lra.
  - assert (0 < x) as Hx by lra.
    assert (ulp_exponent x <= j - 52)%Z as Hk.
    { unfold ulp_exponent.
      assert (Qabs x == x) as Ax by (apply Qabs_pos; lra).
      assert (0 < Qabs x) as Hx' by lra.
      pose proof (ilog2_below (Qabs x) j Hx' ltac:(lra)). lia. }
    pose proof (round_half_even_near (x / pow2 (ulp_exponent x))) as [Hlo Hhi].
    pose proof (pow2_pos (ulp_exponent x)) as Hp.
    pose proof (scaled_back x _ Hp) as Hback.
    pose proof (pow2_le (ulp_exponent x) (j - 52) Hk) as Hle.
    pose proof (pow2_pred (j - 52)) as Hhalf.
    replace (j - 52 - 1)%Z with (j - 53)%Z in Hhalf by lia.
    rewrite round64_scaled.
    set (m := inject_Z (round_half_even (x / pow2 (ulp_exponent x)))) in *.
    set (s := x / pow2 (ulp_exponent x)) in *.
    set (p := pow2 (ulp_exponent x)) in *.
    set (h := pow2 (j - 53)) in *. set (u := pow2 (j - 52)) in *.
    split; nra.
Qed.

(** Integers of fewer than 54 bits are binary64 numbers. *)
Lemma round64_Z (z : Z) : (Z.abs z < 2 ^ 53)%Z -> round64 (inject_Z z) == inject_Z z.
Proof.
  intros Hz.
  destruct (Z.eq_dec z 0%Z) as [->|Nz]; [apply round64_0; reflexivity|].
  assert (~ inject_Z z == 0) as Nq.
  { change 0 with (inject_Z 0). rewrite inject_Z_injective. exact Nz. }
  assert (ulp_exponent (inject_Z z) <= 0)%Z as Hk.
  { unfold ulp_exponent.
    pose proof (Qabs_nonzero _ Nq) as Hpos.
    assert (Qabs (inject_Z z) <= pow2 52 + pow2 52 - 1) as Hle.
    { assert (Qabs (inject_Z z) == inject_Z (Z.abs z)) as ->.
      { unfold Qabs, inject_Z. cbn. reflexivity. }
      rewrite (pow2_Z 52) by lia. rewrite <- !inject_Z_plus.
      change 1 with (inject_Z 1). unfold Qminus. rewrite <- inject_Z_opp, <- inject_Z_plus.
      rewrite <- Zle_Qle. lia. }
    destruct (ilog2_spec _ Hpos) as [H1 _].
    assert (ilog2 (Qabs (inject_Z z)) <= 52)%Z.
    { destruct (Z_le_gt_dec (ilog2 (Qabs (inject_Z z))) 52) as [?|Hgt]; [assumption|].
      exfalso. pose proof (pow2_le 53 (ilog2 (Qabs (inject_Z z))) ltac:(lia)).
      pose proof (pow2_succ 52) as Hs. change (52 + 1)%Z with 53%Z in Hs. lra. }
    lia. }
  apply (round64_exact _ (z * 2 ^ (- ulp_exponent (inject_Z z)))).
  rewrite inject_Z_mult, <- (pow2_Z (- ulp_exponent (inject_Z z))) by lia.
  rewrite <- Qmult_assoc, <- pow2_add.
  replace (- ulp_exponent (inject_Z z) + ulp_exponent (inject_Z z))%Z with 0%Z by lia.
  change (pow2 0) with 1. ring.
Qed.

End Rounding.

(** ** Scoring of a correct guess *)

Section Scoring.

Import Binary64 ScoreEngine.
Local Open Scope Q_scope.


Lemma Qltb_false (a b : Q) : b <= a -> Qltb a b = false.
Proof.
  intros H. unfold Qltb. apply negb_false_iff. apply Qle_bool_iff. exact H.
Qed.


Lemma Qle_bool_false (a b : Q) : b < a -> Qle_bool a b = false.
Proof.
  intros H. destruct (Qle_bool a b) eqn:E; [|reflexivity].
  apply Qle_bool_iff in E. exfalso. exact (Qlt_not_le _ _ H E).
Qed.



(** With a number for both arguments, [calculateScore] returns a number. *)
Lemma calculateScore_numbers (roundTime guessTime : Q) (isDrawer : bool) :
  calculateScore (Some roundTime) (Some guessTime) isDrawer
  = Some (calculateScore_of_numbers roundTime guessTime isDrawer).
Proof.
  unfold calculateScore, calculateScore_of_numbers, Binary64.le, Binary64.lt, Qltb.
  destruct (Qle_bool roundTime 0 || negb (Qle_bool 0 guessTime)
            || negb (Qle_bool guessTime roundTime)); reflexivity.
Qed.

(** *** The elapsed seconds *)


Lemma elapsed_exact (n : Z) :
  (Z.abs n < 2 ^ 53)%Z ->
  round64 (round64 (inject_Z n) / 1000) == round64 (inject_Z n / 1000).
Proof. intros H. rewrite (round64_Z n H). reflexivity. Qed.

Lemma seconds_in_window (D start stop : Z) :
  (0 < D <= 2 ^ 32)%Z -> (0 <= stop - start <= 1000 * D)%Z ->
  0 <= seconds_between start stop <= inject_Z D.
Proof.
  intros HD Hn. unfold seconds_between.
  rewrite elapsed_exact by lia. split.
  - apply round64_nonneg. apply Qle_shift_div_l; [reflexivity|].
    rewrite Qmult_0_l. change 0 with (inject_Z 0). rewrite <- Zle_Qle. lia.
  - rewrite <- (round64_Z D) by lia. apply round64_monotone.
    apply Qle_shift_div_r; [reflexivity|].
    change 1000 with (inject_Z 1000). rewrite <- inject_Z_mult, <- Zle_Qle. lia.
Qed.





(** *** The score inside the window

    Five roundings separate the score from the exact value
    [200 - 100 * elapsed / roundTime]: together they move it by less than
    [1 / (10 * roundTime)], the distance of an exact value that is no
    integer from the nearest integers. *)

Lemma rounding_steps (q : Q) :
  0 <= q <= 1 ->
  let sc := round64 (BASE_SCORE
                     + round64 (MAX_TIME_BONUS * round64 (1 - round64 q))) in
  100 <= sc <= 200
  /\ 200 - 100 * q - (1 # 1000000000000) <= sc
     <= 200 - 100 * q + (1 # 1000000000000).
Proof.
  intros [Hq0 Hq1]. cbn zeta. unfold BASE_SCORE, MAX_TIME_BONUS.
  assert (round64 0 == 0) as R0 by (apply round64_0; reflexivity).
  assert (round64 1 == 1) as R1 by (apply (round64_Z 1); vm_compute; reflexivity).
  assert (round64 100 == 100) as R100 by (apply (round64_Z 100); vm_compute; reflexivity).
  assert (round64 200 == 200) as R200 by (apply (round64_Z 200); vm_compute; reflexivity).
  assert (pow2 (0 - 53) <= 1 # 1000000000000000) as C53 by (vm_compute; discriminate).
  assert (pow2 (7 - 53) <= 2 # 100000000000000) as C46 by (vm_compute; discriminate).
  assert (pow2 (8 - 53) <= 3 # 100000000000000) as C45 by (vm_compute; discriminate).
  assert (100 <= pow2 7) as P7 by (vm_compute; discriminate).
  assert (200 <= pow2 8) as P8 by (vm_compute; discriminate).
  change (pow2 0) with 1 in *.
  (* the ratio *)
  set (r := round64 q).
  assert (0 <= r <= 1) as [Hr0 Hr1].
  { split; [apply round64_nonneg; exact Hq0|].
    rewrite <- R1. apply round64_monotone. exact Hq1. }
  destruct (round64_error q 0 Hq0 Hq1 ltac:(lia)) as [Er1 Er2]. fold r in Er1, Er2.
  (* one minus the ratio *)
  set (u := round64 (1 - r)).
  assert (0 <= u <= 1) as [Hu0 Hu1].
  { split; [apply round64_nonneg; lra|].
    rewrite <- R1. apply round64_monotone. lra. }
  destruct (round64_error (1 - r) 0 ltac:(lra) ltac:(change (pow2 0) with 1; lra)
              ltac:(lia)) as [Eu1 Eu2].
  fold u in Eu1, Eu2.
  (* the bonus *)
  set (b := round64 (100 * u)).
  assert (0 <= b <= 100) as [Hb0 Hb1].
  { split; [apply round64_nonneg; lra|].
    rewrite <- R100. apply round64_monotone. lra. }
  destruct (round64_error (100 * u) 7 ltac:(lra) ltac:(lra) ltac:(lia)) as [Eb1 Eb2].
  fold b in Eb1, Eb2.
  (* the score *)
  set (sc := round64 (100 + b)).
  assert (100 <= sc <= 200) as [Hs0 Hs1].
  { split.
    - rewrite <- R100. apply round64_monotone. lra.
    - rewrite <- R200. apply round64_monotone. lra. }
  destruct (round64_error (100 + b) 8 ltac:(lra) ltac:(lra) ltac:(lia)) as [Es1 Es2].
  fold sc in Es1, Es2.
  split; [split; assumption|]. split; lra.
Qed.


(** *** The rounding against the Standard Library's IEEE 754 operations

    On five hundred guess times spread over an 80-second round and over a
    173-second round, among them 70.4 s and 78.4 s of 80, [round64] and the
    binary64 operations of [SpecFloat] compute the same number. *)

Lemma unfloored_score_is_floored (D n : Z) :
  (0 < D <= 2 ^ 32)%Z -> (0 <= n <= 1000 * D)%Z ->
  calculateScore_of_numbers (inject_Z D) (seconds_between 0 n) false
  = Z.max MIN_SCORE (Qfloor (unfloored_score D n)).
Proof.
  intros HD Hn.
  destruct (seconds_in_window D 0 n HD) as [H0 H1];
    [rewrite Z.sub_0_r; exact Hn|].
  assert (0 < inject_Z D) as HDq.
  { change 0 with (inject_Z 0). rewrite <- Zlt_Qlt. lia. }
  unfold calculateScore_of_numbers.
  rewrite (Qle_bool_false (inject_Z D) 0 HDq).
  rewrite (Qltb_false _ 0 H0), (Qltb_false (inject_Z D) _ H1). cbn [orb].
  unfold unfloored_score, seconds_between. rewrite Z.sub_0_r. reflexivity.
Qed.

Lemma round64_agrees_with_SpecFloat :
  forallb (fun k => scores_agree 80 (160 * Z.of_nat k)) (seq 0 (Z.to_nat 501))
  && forallb (fun k => scores_agree 173 (346 * Z.of_nat k)) (seq 0 (Z.to_nat 501))
  = true.
Proof. vm_compute. reflexivity. Qed.

(** *** The formula of the specification *)




End Scoring.




(** ** Trimming and lower-casing *)

Section Strings.

Import JS.

Lemma lower_char_whitespace (c : ascii) :
  is_whitespace (lower_char c) = is_whitespace c.
Proof. destruct c as [[] [] [] [] [] [] [] []]; reflexivity. Qed.

Lemma lower_char_not_upper (c : ascii) : is_upper (lower_char c) = false.
Proof. destruct c as [[] [] [] [] [] [] [] []]; reflexivity. Qed.

Lemma lower_char_idempotent (c : ascii) : lower_char (lower_char c) = lower_char c.
Proof. destruct c as [[] [] [] [] [] [] [] []]; reflexivity. Qed.

Lemma map_chars_length (f : ascii -> ascii) (s : string) :
  String.length (map_chars f s) = String.length s.
Proof. induction s as [|c s IH]; cbn; congruence. Qed.

Lemma toLowerCase_idempotent (s : string) :
  toLowerCase (toLowerCase s) = toLowerCase s.
Proof.
  unfold toLowerCase. induction s as [|c s IH]; cbn; [reflexivity|].
  rewrite lower_char_idempotent, IH. reflexivity.
Qed.

Lemma toLowerCase_no_upper (s : string) (i : nat) (c : ascii) :
  String.get i (toLowerCase s) = Some c -> is_upper c = false.
Proof.
  unfold toLowerCase. revert i. induction s as [|a s IH]; intros i; cbn; [discriminate|].
  destruct i as [|i].
  - intros [= <-]. apply lower_char_not_upper.
  - apply IH.
Qed.

Section MapChars.

Variable f : ascii -> ascii.
Hypothesis f_whitespace : forall c, is_whitespace (f c) = is_whitespace c.

Lemma trimStart_map_chars (s : string) :
  trimStart (map_chars f s) = map_chars f (trimStart s).
Proof.
  induction s as [|c s IH]; cbn; [reflexivity|].
  rewrite f_whitespace. destruct (is_whitespace c); [exact IH|reflexivity].
Qed.

Lemma trimEnd_map_chars (s : string) :
  trimEnd (map_chars f s) = map_chars f (trimEnd s).
Proof.
  induction s as [|c s IH]; cbn; [reflexivity|].
  rewrite IH, f_whitespace.
  destruct (trimEnd s); cbn; [destruct (is_whitespace c)|]; reflexivity.
Qed.

Lemma trim_map_chars (s : string) : trim (map_chars f s) = map_chars f (trim s).
Proof. unfold trim. rewrite trimStart_map_chars. apply trimEnd_map_chars. Qed.

End MapChars.

Lemma trimStart_starts_clean (s : string) : starts_clean (trimStart s).
Proof.
  induction s as [|c s IH]; cbn; [intros ? [=]|].
  destruct (is_whitespace c) eqn:E; [exact IH|].
  intros d [= <-]. exact E.
Qed.

Lemma trimStart_of_clean (s : string) : starts_clean s -> trimStart s = s.
Proof.
  destruct s as [|c s]; cbn; [reflexivity|].
  intros H. rewrite (H c eq_refl). reflexivity.
Qed.

Lemma trimEnd_first_char (s : string) (c : ascii) :
  first_char (trimEnd s) = Some c -> first_char s = Some c.
Proof.
  destruct s as [|a s]; cbn; [discriminate|].
  destruct (trimEnd s); [destruct (is_whitespace a)|]; cbn; congruence.
Qed.

Lemma trimEnd_starts_clean (s : string) : starts_clean s -> starts_clean (trimEnd s).
Proof. intros H c Hc. apply H. apply trimEnd_first_char. exact Hc. Qed.

Lemma trimEnd_cons (c : ascii) (s : string) :
  trimEnd (String c s)
  = match trimEnd s with
    | EmptyString => if is_whitespace c then EmptyString else String c EmptyString
    | t => String c t
    end.
Proof. reflexivity. Qed.

Lemma trimEnd_idempotent (s : string) : trimEnd (trimEnd s) = trimEnd s.
Proof.
  induction s as [|c s IH]; [reflexivity|].
  rewrite trimEnd_cons.
  destruct (trimEnd s) as [|d r] eqn:E.
  - destruct (is_whitespace c) eqn:Ec; [reflexivity|].
    rewrite trimEnd_cons. cbn. rewrite Ec. reflexivity.
  - rewrite trimEnd_cons, IH. reflexivity.
Qed.

Lemma trimEnd_last_char (s : string) (c : ascii) :
  last_char (trimEnd s) = Some c -> is_whitespace c = false.
Proof.
  induction s as [|a s IH]; cbn; [discriminate|].
  destruct (trimEnd s) as [|d r] eqn:E.
  - destruct (is_whitespace a) eqn:Ea; cbn; [discriminate|]. intros [= <-]. exact Ea.
  - cbn [last_char]. exact IH.
Qed.

Lemma trim_idempotent (s : string) : trim (trim s) = trim s.
Proof.
  unfold trim.
  rewrite (trimStart_of_clean (trimEnd (trimStart s))).
  - apply trimEnd_idempotent.
  - apply trimEnd_starts_clean, trimStart_starts_clean.
Qed.

Lemma trim_first_char (s : string) (c : ascii) :
  first_char (trim s) = Some c -> is_whitespace c = false.
Proof. apply trimEnd_starts_clean, trimStart_starts_clean. Qed.

Lemma trim_last_char (s : string) (c : ascii) :
  last_char (trim s) = Some c -> is_whitespace c = false.
Proof. apply trimEnd_last_char. Qed.

End Strings.

(** ** Validation of the settings *)

Section ValidateSettings.

Import JS Rooms.

Lemma validate_blocks_customWords (raw : Value) (v : Settings) :
  customWords (validate_hints raw v) = customWords v
  /\ customWords (validate_rounds raw v) = customWords v
  /\ customWords (validate_drawTime raw v) = customWords v
  /\ customWords (validate_maxPlayers raw v) = customWords v.
Proof.
  unfold validate_hints, validate_rounds, validate_drawTime, validate_maxPlayers.
  repeat split.
  - destruct (prop raw "hints"); reflexivity.
  - destruct (prop raw "rounds"); reflexivity.
  - destruct (prop raw "drawTime"); reflexivity.
  - destruct (prop raw "maxPlayers"); reflexivity.
Qed.

Lemma validate_blocks_maxPlayers (raw : Value) (v : Settings) :
  maxPlayers (validate_customWords raw v) = maxPlayers v
  /\ maxPlayers (validate_hints raw v) = maxPlayers v
  /\ maxPlayers (validate_rounds raw v) = maxPlayers v
  /\ maxPlayers (validate_drawTime raw v) = maxPlayers v.
Proof.
  unfold validate_customWords, validate_hints, validate_rounds, validate_drawTime.
  repeat split.
  - destruct (prop raw "customWords"); reflexivity.
  - destruct (prop raw "hints"); reflexivity.
  - destruct (prop raw "rounds"); reflexivity.
  - destruct (prop raw "drawTime"); reflexivity.
Qed.

Lemma validateSettings_customWords (raw : Value) :
  customWords (validateSettings raw)
  = match (if is_object raw then prop raw "customWords" else Undefined) with
    | Arr items => sanitize_words items
    | _ => []
    end.
Proof.
  unfold validateSettings. destruct (is_object raw); [|reflexivity].
  cbn [negb]. unfold validate_customWords at 1.
  destruct (prop raw "customWords"); cbn [customWords]; try reflexivity;
    destruct (validate_blocks_customWords raw
                (validate_rounds raw
                   (validate_drawTime raw (validate_maxPlayers raw DEFAULT_SETTINGS))))
      as (-> & _);
    destruct (validate_blocks_customWords raw
                (validate_drawTime raw (validate_maxPlayers raw DEFAULT_SETTINGS)))
      as (_ & -> & _);
    destruct (validate_blocks_customWords raw
                (validate_maxPlayers raw DEFAULT_SETTINGS)) as (_ & _ & -> & _);
    destruct (validate_blocks_customWords raw DEFAULT_SETTINGS) as (_ & _ & _ & ->);
    reflexivity.
Qed.

Lemma validateSettings_maxPlayers (raw : Value) :
  2 <= maxPlayers (validateSettings raw) <= 12.
Proof.
  unfold validateSettings. destruct (is_object raw); cbn [negb]; [|cbn; lia].
  destruct (validate_blocks_maxPlayers raw
              (validate_hints raw
                 (validate_rounds raw
                    (validate_drawTime raw (validate_maxPlayers raw DEFAULT_SETTINGS)))))
    as (-> & _).
  destruct (validate_blocks_maxPlayers raw
              (validate_rounds raw
                 (validate_drawTime raw (validate_maxPlayers raw DEFAULT_SETTINGS))))
    as (_ & -> & _).
  destruct (validate_blocks_maxPlayers raw
              (validate_drawTime raw (validate_maxPlayers raw DEFAULT_SETTINGS)))
    as (_ & _ & -> & _).
  destruct (validate_blocks_maxPlayers raw (validate_maxPlayers raw DEFAULT_SETTINGS))
    as (_ & _ & _ & ->).
  unfold validate_maxPlayers.
  destruct (prop raw "maxPlayers"); cbn; lia.
Qed.

Lemma sanitize_words_length (items : list Value) :
  (length (sanitize_words items) <= 50)%nat.
Proof. unfold sanitize_words. rewrite length_take. apply Nat.le_min_l. Qed.

Lemma sanitize_words_elem (items : list Value) (w : string) :
  w ∈ sanitize_words items ->
  exists s, Str s ∈ items /\ w = toLowerCase (trim s)
            /\ (0 < String.length (trim s))%nat /\ (String.length w <= 50)%nat.
Proof.
  unfold sanitize_words. intros H.
  apply (subseteq_take _ _) in H.
  apply list_elem_of_In, filter_In in H. destruct H as [H Hlen].
  apply Nat.leb_le in Hlen.
  apply in_map_iff in H. destruct H as (s & <- & H).
  apply list_elem_of_In, list_elem_of_omap in H. destruct H as (v & Hv & Hs).
  exists s. destruct v as [| | | |s0| |]; unfold nonblank_string in Hs; try discriminate.
  destruct (0 <? String.length (trim s0))%nat eqn:E; [|discriminate].
  injection Hs as ->. apply Nat.ltb_lt in E. auto.
Qed.

End ValidateSettings.

(** C9, as stated: two inputs that normalize to the same word are both kept,
    so the validated list can hold duplicates. *)
Lemma validated_customWords_keep_duplicates :
  ~ NoDup (customWords
             (Rooms.validateSettings
                (JS.Obj [("customWords", JS.Arr [JS.Str "cat"; JS.Str " Cat "])]))).
Proof.
  change (~ NoDup ["cat"; "cat"]). intros H.
  apply NoDup_cons_1_1 in H. apply H. left.
Qed.

(** C9, amended: for every raw settings input the validated [customWords]
    has at most 50 entries, each of them non-empty, at most 50 code units
    long, trimmed (a fixed point of [trim], with no white space at either
    end) and lower case (a fixed point of [toLowerCase], with no upper-case
    unit). Duplicates are not removed: ["cat"] and [" Cat "] yield
    ["cat"; "cat"]. *)
Theorem validated_customWords_normalized (raw : JS.Value) :
  let words := customWords (Rooms.validateSettings raw) in
  (length words <= 50)%nat
  /\ (forall w, w ∈ words ->
        w <> ""
        /\ (String.length w <= 50)%nat
        /\ JS.trim w = w
        /\ JS.toLowerCase w = w
        /\ (forall c, JS.first_char w = Some c -> JS.is_whitespace c = false)
        /\ (forall c, JS.last_char w = Some c -> JS.is_whitespace c = false)
        /\ (forall i c, String.get i w = Some c -> JS.is_upper c = false))
  /\ customWords
       (Rooms.validateSettings
          (JS.Obj [("customWords", JS.Arr [JS.Str "cat"; JS.Str " Cat "])]))
     = ["cat"; "cat"].
Proof.
  intros words. unfold words. rewrite validateSettings_customWords.
  split; [|split; [|reflexivity]].
  - destruct (if JS.is_object raw then JS.prop raw "customWords" else JS.Undefined);
      try (cbn; lia). apply sanitize_words_length.
  - intros w Hw.
    assert (exists items, w ∈ Rooms.sanitize_words items) as [items Hitems].
    { destruct (if JS.is_object raw then JS.prop raw "customWords" else JS.Undefined);
        try (apply elem_of_nil in Hw; contradiction). eauto. }
    apply sanitize_words_elem in Hitems.
    destruct Hitems as (s & _ & -> & Hpos & Hlen).
    assert (JS.trim (JS.toLowerCase (JS.trim s)) = JS.toLowerCase (JS.trim s)) as Htrim.
    { unfold JS.toLowerCase. rewrite (trim_map_chars _ lower_char_whitespace).
      rewrite trim_idempotent. reflexivity. }
    repeat split.
    + intros E. apply (f_equal String.length) in E.
      unfold JS.toLowerCase in E. rewrite map_chars_length in E. cbn in E. lia.
    + exact Hlen.
    + exact Htrim.
    + apply toLowerCase_idempotent.
    + intros c Hc. rewrite <- Htrim in Hc. exact (trim_first_char _ _ Hc).
    + intros c Hc. rewrite <- Htrim in Hc. exact (trim_last_char _ _ Hc).
    + intros i c. apply toLowerCase_no_upper.
Qed.

Lemma validated_customWords_normalized_witness :
  JS.trim "ice cream" = "ice cream" /\ JS.toLowerCase "ice cream" = "ice cream".
Proof.
  destruct (validated_customWords_normalized
              (JS.Obj [("customWords",
                        JS.Arr [JS.Num 3; JS.Str "  "; JS.Str " Ice Cream "])]))
    as (_ & H & _).
  destruct (H "ice cream") as (_ & _ & Ht & Hl & _).
  - vm_compute. left.
  - split; assumption.
Defined.

(** ** Drawer rotation *)

(** C5: on a room with an active game, [progressToNextDrawer] moves the
    drawer index one further; when the new index reaches the number of
    players it is reset to 0, the round counter is incremented and
    [roundIncremented] (and [roundChanged]) is reported true; the drawer id
    becomes the member at the new index; [startRound] then empties
    [guessedPlayers] and sets the phase to word selection. Nothing else in
    the room changes. *)
Theorem progressToNextDrawer_rotates (room : Room) (g : Game) :
  game room = Some g ->
  status room = IN_GAME ->
  let wrapped := (length (players room) <=? drawerIndex g + 1)%nat in
  let next := if wrapped then 0%nat else (drawerIndex g + 1)%nat in
  exists room' g',
    GameEngine.progressToNextDrawer room
    = (room',
       Normal (ok (Some (GameEngine.mkDrawerInfo (players room !! next) next wrapped),
                   wrapped)))
    /\ game room' = Some g'
    /\ drawerIndex g' = next
    /\ drawerId g' = players room !! next
    /\ currentRound g' = (if wrapped then currentRound g + 1 else currentRound g)
    /\ guessedPlayers g' = []
    /\ phase g' = WORD_SELECT
    /\ totalRounds g' = totalRounds g
    /\ roundStartTime g' = roundStartTime g
    /\ selectedWord g' = selectedWord g
    /\ maskedWord g' = maskedWord g
    /\ players room' = players room
    /\ status room' = IN_GAME
    /\ settings room' = settings room
    /\ ownerId room' = ownerId room
    /\ id room' = id room.
Proof.
  intros Hg Hs wrapped next.
  unfold GameEngine.progressToNextDrawer.
  rewrite (hasActiveGame_true room g Hg Hs). cbn [negb fst].
  unfold GameEngine.getNextDrawer. rewrite Hg.
  unfold GameEngine.startRound.
  erewrite hasActiveGame_true by (cbn; eauto).
  cbn [negb fst game set_game].
  subst next wrapped.
  destruct (length (players room) <=? drawerIndex g + 1)%nat;
    eexists _, _; (split; [reflexivity|]); cbn; repeat split;
    (reflexivity || exact Hs).
Qed.

Lemma progressToNextDrawer_rotates_witness :
  exists room',
    GameEngine.progressToNextDrawer Fixtures.drawing_room
    = (room', Normal (ok (Some (GameEngine.mkDrawerInfo (Some "p2") 1 false), false))).
Proof.
  destruct (progressToNextDrawer_rotates Fixtures.drawing_room
              (mkGame DRAWING 1 3 0 (Some "p1") [] (Some 1000) (Some "cat")
                 (Some "_ _ _")) eq_refl eq_refl)
    as (room' & g' & H & _).
  exists room'. exact H.
Defined.

(** ** The score reset of [start_game] and [play_again] *)

Lemma playerManager_lacks_score_functions :
  ("resetPlayerScores" ∉ Players.exports)
  /\ ("updatePlayerScore" ∉ Players.exports)
  /\ Players.pm_resetPlayerScores Players.playerManager = None
  /\ Players.pm_updatePlayerScore Players.playerManager = None.
Proof.
  split; [|split; [|split; reflexivity]];
    intros H; apply list_elem_of_In in H; cbn in H;
    repeat (destruct H as [H|H]; [discriminate|]); exact H.
Qed.

(** C1, what the code does: with the player manager that players.js
    exports, a [start_game] whose [startGame] succeeds, and a [play_again]
    on a finished room by its owner, both end in a TypeError at
    [playerManager.resetPlayerScores]: the room has been changed, the player
    registry, and with it every score, is as it was. *)
Theorem score_reset_throws (now : Z) (srv : Index.Server) (socket : string)
    (player : Player) (key : string) (room : Room) :
  Index.resolve Players.playerManager srv socket = inl (player, key, room) ->
  (fst (GameEngine.canStartGame room (p_id player)) = true ->
   Index.start_game Players.playerManager now srv socket
   = (Index.put_room srv key
        (set_status IN_GAME
           (set_game (Some (GameEngine.initializeGameState room)) room)),
      Throw "TypeError: playerManager.resetPlayerScores is not a function"))
  /\ (ownerId room = p_id player -> status room = FINISHED ->
      Index.play_again Players.playerManager srv socket
      = (Index.put_room srv key (set_status WAITING (set_game None room)),
         Throw "TypeError: playerManager.resetPlayerScores is not a function")).
Proof.
  intros Hres. split.
  - intros Hcan. unfold Index.start_game. rewrite Hres.
    unfold GameEngine.startGame. rewrite Hcan. reflexivity.
  - intros Hown Hfin. unfold Index.play_again. rewrite Hres.
    rewrite Hown, String.eqb_refl, Hfin. reflexivity.
Qed.

Lemma score_reset_throws_witness :
  snd (Index.start_game Players.playerManager 5000
         (Fixtures.server_of Fixtures.lobby) "s1")
  = Throw "TypeError: playerManager.resetPlayerScores is not a function"
  /\ snd (Index.play_again Players.playerManager
            (Fixtures.server_of Fixtures.finished_room) "s1")
     = Throw "TypeError: playerManager.resetPlayerScores is not a function"
  /\ score <$> Players.getPlayerById
                 (ScoreEngine.registry
                    (Index.store
                       (fst (Index.start_game Players.playerManager 5000
                               (Fixtures.server_of Fixtures.lobby) "s1")))) "p2"
     = Some None.
Proof.
  pose proof (score_reset_throws 5000 (Fixtures.server_of Fixtures.lobby) "s1"
                Fixtures.alice "ABC123" Fixtures.lobby eq_refl) as [H1 _].
  pose proof (score_reset_throws 5000 (Fixtures.server_of Fixtures.finished_room)
                "s1" Fixtures.alice "ABC123" Fixtures.finished_room eq_refl)
    as [_ H2].
  rewrite (H1 eq_refl), (H2 eq_refl eq_refl).
  split; [reflexivity|split; reflexivity].
Defined.

(** ** Word options *)

Section WordOptions.

Import WordEngine.

Lemma telescopes_first_permutation (l : list string) :
  Permutation (Fixtures.telescopes_first l) l.
Proof.
  unfold Fixtures.telescopes_first.
  induction l as [|w l IH]; [apply perm_nil|].
  cbn [List.filter].
  destruct (String.eqb "telescope" w); cbn [negb app].
  - apply perm_skip. exact IH.
  - rewrite <- Permutation_middle. apply perm_skip. exact IH.
Qed.


End WordOptions.

(** C8, what the code does: the built-in list holds "telescope" (and
    "microscope") twice, so the pool of a room without custom words is not
    duplicate-free, and when the shuffle brings both copies to the front the
    three options of the drawer are not pairwise distinct. *)
Theorem generated_options_can_repeat :
  ~ NoDup (WordEngine.getWordPool (customWords (settings Fixtures.word_select_room)))
  /\ (forall l, Permutation (Fixtures.telescopes_first l) l)
  /\ WordEngine.generateOptionsForDrawer Fixtures.telescopes_first
       Fixtures.word_select_room
     = ok (Some ["telescope"; "telescope"; "cat"])
  /\ ~ NoDup ["telescope"; "telescope"; "cat"].
Proof.
  split; [|split; [exact telescopes_first_permutation|split; [reflexivity|]]].
  - intros H. apply NoDup_ListNoDup in H.
    apply (NoDup_count_occ string_dec) with (x := "telescope") in H.
    vm_compute in H. lia.
  - intros H. apply NoDup_cons_1_1 in H. apply H. left.
Qed.

(** ** Serialization *)

Section Serialization.

Import JS Rooms.

Lemma has_key_strings (k : string) (l : list string) :
  existsb (has_key k) (map Str l) = false.
Proof. induction l as [|s l IH]; cbn; [reflexivity|exact IH]. Qed.

Lemma has_key_entries (room : Room) (l : list Player) :
  existsb (has_key "selectedWord") (map (serializePlayer room) l) = false.
Proof. induction l as [|p l IH]; cbn; [reflexivity|exact IH]. Qed.

Lemma serializeRoom_no_selectedWord (room : Room) (getPlayer : string -> option Player) :
  has_key "selectedWord" (serializeRoom room getPlayer) = false.
Proof.
  unfold serializeRoom. cbn.
  rewrite has_key_entries, has_key_strings. reflexivity.
Qed.

Lemma serializeGameState_no_selectedWord (room : Room) :
  has_key "selectedWord" (Index.serializeGameState room) = false.
Proof.
  unfold Index.serializeGameState. destruct (game room) as [g|]; [|reflexivity].
  cbn. rewrite has_key_strings.
  destruct (drawerId g), (WordEngine.truthy_string (maskedWord g)); reflexivity.
Qed.

Lemma omap_all_resolved (getPlayer : string -> option Player) (l : list string) :
  (forall playerId, playerId ∈ l ->
     exists p, getPlayer playerId = Some p /\ p_id p = playerId) ->
  map p_id (omap getPlayer l) = l.
Proof.
  induction l as [|x l IH]; intros H; [reflexivity|].
  destruct (H x) as (p & Hp & Hid); [left|].
  cbn. rewrite Hp. cbn. rewrite Hid. f_equal.
  apply IH. intros y Hy. apply H. right. exact Hy.
Qed.

End Serialization.

(** C2, as stated: the serialized room has no [code] key (the code is under
    [id]) and its player entries have no [score]. *)
Lemma serializeRoom_has_no_code_nor_score :
  let v := Rooms.serializeRoom Fixtures.lobby
             (Players.getPlayerById Fixtures.registry) in
  JS.keys v <> ["code"; "ownerId"; "players"; "settings"; "status"]
  /\ JS.prop v "code" = JS.Undefined
  /\ exists alice bob,
       JS.prop v "players" = JS.Arr [alice; bob]
       /\ JS.keys alice = ["id"; "name"; "isOwner"]
       /\ JS.prop alice "score" = JS.Undefined
       /\ JS.prop bob "score" = JS.Undefined.
Proof.
  cbv zeta. split; [vm_compute; discriminate|]. split; [reflexivity|].
  eexists _, _. split; [vm_compute; reflexivity|].
  repeat split; reflexivity.
Qed.

(** C2, amended: the serialized room is an object with exactly the fields
    [id], [ownerId], [players], [settings] and [status], holding the room's
    code, owner, settings and status; [players] has one entry for each member
    that [getPlayer] resolves, in membership order, and each entry carries
    the player's [id] and [name] and [isOwner], true exactly for the owner;
    when every member resolves to the player of that id there is one entry
    per member, in membership order. [selectedWord] is not a field, at any
    depth, of the serialized room or of the serialized game state. *)
Theorem serializeRoom_shape (room : Room) (getPlayer : string -> option Player) :
  let v := Rooms.serializeRoom room getPlayer in
  JS.keys v = ["id"; "ownerId"; "players"; "settings"; "status"]
  /\ JS.prop v "id" = JS.Str (id room)
  /\ JS.prop v "ownerId" = JS.Str (ownerId room)
  /\ JS.prop v "settings" = Rooms.settings_value (settings room)
  /\ JS.prop v "status" = JS.Str (status_name (status room))
  /\ (exists entries,
        JS.prop v "players" = JS.Arr entries
        /\ Forall2
             (fun p e =>
                JS.prop e "id" = JS.Str (p_id p)
                /\ JS.prop e "name" = JS.Str (name p)
                /\ JS.prop e "isOwner" = JS.Bool (bool_decide (p_id p = ownerId room)))
             (omap getPlayer (players room)) entries
        /\ ((forall playerId, playerId ∈ players room ->
               exists p, getPlayer playerId = Some p /\ p_id p = playerId) ->
            map (fun e => JS.prop e "id") entries = map JS.Str (players room)))
  /\ JS.has_key "selectedWord" v = false
  /\ JS.has_key "selectedWord" (Index.serializeGameState room) = false.
Proof.
  cbv zeta. repeat (split; [reflexivity|]).
  split; [|split; [apply serializeRoom_no_selectedWord
                  |apply serializeGameState_no_selectedWord]].
  exists (map (Rooms.serializePlayer room) (omap getPlayer (players room))).
  split; [reflexivity|]. split.
  - induction (omap getPlayer (players room)) as [|p l IH]; constructor; [|exact IH].
    cbn. repeat split. f_equal.
    destruct (String.eqb_spec (p_id p) (ownerId room)) as [E|E].
    + symmetry. apply bool_decide_eq_true_2. exact E.
    + symmetry. apply bool_decide_eq_false_2. exact E.
  - intros Hall. rewrite <- (omap_all_resolved getPlayer (players room) Hall) at 2.
    rewrite !map_map. reflexivity.
Qed.

Lemma serializeRoom_shape_witness :
  exists entries,
    JS.prop (Rooms.serializeRoom Fixtures.lobby
               (Players.getPlayerById Fixtures.registry)) "players"
    = JS.Arr entries
    /\ map (fun e => JS.prop e "id") entries = [JS.Str "p1"; JS.Str "p2"].
Proof.
  destruct (serializeRoom_shape Fixtures.lobby
              (Players.getPlayerById Fixtures.registry))
    as (_ & _ & _ & _ & _ & (entries & Hentries & _ & Hids) & _).
  exists entries. split; [exact Hentries|].
  apply Hids. intros playerId Hin.
  apply list_elem_of_In in Hin. cbn in Hin.
  destruct Hin as [<-|[<-|[]]]; eexists; split; reflexivity.
Defined.

(** ** Steps of the rooms Map *)

Section Steps.

Import Lifecycle.

Lemma createRoom_fresh (draw : nat -> nat) (rooms : gmap string Room)
    (roomId : string) :
  Rooms.generateRoomId draw rooms = Normal roomId -> rooms !! roomId = None.
Proof.
  unfold Rooms.generateRoomId. generalize 0%nat at 1. generalize 100%nat at 1.
  intros fuel. induction fuel as [|fuel IH]; intros attempts;
    cbn [Rooms.generateRoomId_loop]; [discriminate|].
  destruct (100 <=? S attempts)%nat; [discriminate|].
  destruct (bool_decide _) eqn:E; [apply IH|].
  intros [= <-]. apply bool_decide_eq_false in E.
  destruct (rooms !! _) eqn:E'; [|reflexivity]. exfalso. apply E. eauto.
Qed.

(** A room of the Map after a step was there before, or was created by the
    step, or is the changed form of the room the step looked up. *)
Lemma step_lookup (op : Op) (rooms : gmap string Room) (key : string) (r' : Room) :
  step op rooms !! key = Some r' ->
  rooms !! key = Some r'
  \/ (exists draw playerId raw,
        op = CreateRoom draw playerId raw
        /\ r' = mkRoom key playerId [playerId] (Rooms.validateSettings raw) WAITING None)
  \/ (exists r, target op = Some key /\ rooms !! key = Some r /\ room_change op r r').
Proof.
  destruct op as [draw playerId raw|playerId roomId|playerId roomId
                 |playerId roomId raw|k op]; cbn [step target room_change].
  - unfold Rooms.createRoom.
    destruct (Rooms.generateRoomId draw rooms) as [roomId|e] eqn:E; cbn; [|auto].
    destruct (decide (roomId = key)) as [->|Hne].
    + rewrite lookup_insert_eq. intros [= <-]. right. left. eauto.
    + rewrite lookup_insert_ne by exact Hne. auto.
  - unfold Rooms.joinRoom.
    destruct (rooms !! Rooms.normalizeRoomId roomId) as [r|] eqn:E; cbn; [|auto].
    destruct (bool_decide (status r = WAITING)) eqn:Es; cbn; [|auto].
    destruct (bool_decide (playerId ∈ players r)) eqn:Ep; cbn; [auto|].
    destruct (maxPlayers (settings r) <=? Z.of_nat (length (players r))) eqn:Ef;
      cbn; [auto|].
    destruct (decide (Rooms.normalizeRoomId roomId = key)) as [<-|Hne].
    + rewrite lookup_insert_eq. intros [= <-]. right. right. exists r.
      apply bool_decide_eq_true in Es. apply bool_decide_eq_false in Ep.
      apply Z.leb_gt in Ef. repeat split; assumption.
    + rewrite lookup_insert_ne by exact Hne. auto.
  - unfold Rooms.leaveRoom.
    destruct (rooms !! Rooms.normalizeRoomId roomId) as [r|] eqn:E; cbn; [|auto].
    destruct (Rooms.indexOf playerId (players r)) as [i|] eqn:Ei; cbn; [|auto].
    destruct (delete i (players r)) as [|first rest] eqn:Ed; cbn.
    + destruct (decide (Rooms.normalizeRoomId roomId = key)) as [<-|Hne].
      * rewrite lookup_delete_eq. discriminate.
      * rewrite lookup_delete_ne by exact Hne. auto.
    + destruct (decide (Rooms.normalizeRoomId roomId = key)) as [<-|Hne].
      * rewrite lookup_insert_eq. intros [= <-]. right. right. exists r.
        split; [reflexivity|]. split; [exact E|].
        exists i, first, rest. split; [exact Ei|]. split; [exact Ed|].
        destruct (String.eqb (ownerId r) playerId); reflexivity.
      * rewrite lookup_insert_ne by exact Hne. auto.
  - unfold Rooms.updateRoomSettings.
    destruct (rooms !! Rooms.normalizeRoomId roomId) as [r|] eqn:E; cbn; [|auto].
    destruct (String.eqb (ownerId r) playerId); cbn; [|auto].
    destruct (bool_decide (status r = WAITING)) eqn:Es; cbn; [|auto].
    destruct (maxPlayers (Rooms.validateSettings raw) <? Z.of_nat (length (players r)))
      eqn:Ef; cbn; [auto|].
    destruct (decide (Rooms.normalizeRoomId roomId = key)) as [<-|Hne].
    + rewrite lookup_insert_eq. intros [= <-]. right. right. exists r.
      apply bool_decide_eq_true in Es. apply Z.ltb_ge in Ef.
      repeat split; assumption.
    + rewrite lookup_insert_ne by exact Hne. auto.
  - destruct (decide (k = key)) as [->|Hne].
    + rewrite lookup_alter_eq. destruct (rooms !! key) as [r|] eqn:E; cbn; [|discriminate].
      intros [= <-]. right. right. eauto.
    + rewrite lookup_alter_ne by exact Hne. auto.
Qed.

End Steps.

(** ** What the engine calls do to a room *)

Section EngineCalls.

Import Lifecycle.

Ltac with_active_game r Hact :=
  destruct (GameEngine.hasActiveGame r) as [[] ?] eqn:Hact; cbn [negb fst snd];
  [apply (f_equal fst) in Hact; cbn [fst] in Hact;
   apply hasActiveGame_inv in Hact; destruct Hact as (? & ? & Hact);
   rewrite ?Hact
  |try apply change_none].

Ltac same_drawer := left; repeat split; auto.

Lemma startGame_change (r : Room) (playerId : string) :
  game_change r (fst (GameEngine.startGame r playerId)).
Proof.
  unfold GameEngine.startGame, GameEngine.canStartGame.
  destruct (String.eqb (ownerId r) playerId); cbn [negb fst snd]; [|apply change_none].
  destruct (bool_decide (status r = WAITING)) eqn:E; cbn [negb fst snd]; [|apply change_none].
  destruct (length (players r) <? 2)%nat; cbn [negb fst snd]; [apply change_none|].
  cbn [set_game set_status id ownerId players settings status game].
  apply change_start. apply bool_decide_eq_true in E. exact E.
Qed.

Lemma startRound_change (r : Room) :
  game_change r (fst (GameEngine.startRound r)).
Proof.
  unfold GameEngine.startRound. with_active_game r Hact.
  eapply change_round; eauto. same_drawer.
Qed.

Lemma endRound_change (r : Room) :
  game_change r (fst (GameEngine.endRound r)).
Proof.
  unfold GameEngine.endRound. with_active_game r Hact.
  assert (game_change r (set_game (Some (set_phase ROUND_END x)) r)) as H'.
  { eapply change_round; eauto. same_drawer. }
  cbn. destruct (_ && _); exact H'.
Qed.

Lemma set_game_set_game (a b : option Game) (r : Room) :
  set_game a (set_game b r) = set_game a r.
Proof. reflexivity. Qed.

Lemma progressToNextDrawer_change (r : Room) :
  game_change r (fst (GameEngine.progressToNextDrawer r)).
Proof.
  unfold GameEngine.progressToNextDrawer. with_active_game r Hact.
  unfold GameEngine.getNextDrawer. rewrite Hact.
  unfold GameEngine.startRound.
  erewrite hasActiveGame_true by (cbn; eauto).
  cbn. rewrite set_game_set_game.
  eapply change_round; eauto. right. cbn. auto.
Qed.

Lemma endGame_change (r : Room) :
  game_change r (fst (GameEngine.endGame r)).
Proof.
  unfold GameEngine.endGame. with_active_game r Hact.
  cbn. eapply change_end; eauto.
Qed.

Lemma transitionPhase_change (r : Room) (newPhase : string) :
  game_change r (fst (GameEngine.transitionPhase r newPhase)).
Proof.
  unfold GameEngine.transitionPhase. with_active_game r Hact.
  destruct (GameEngine.phase_of_name newPhase); cbn [negb fst snd]; [|apply change_none].
  eapply change_round; eauto. same_drawer.
Qed.

Lemma store_and_draw_change (r : Room) (g : Game) (w : string) :
  game r = Some g -> status r = IN_GAME ->
  game_change r (fst (WordEngine.store_and_draw r g w)).
Proof.
  intros Hg Hs. unfold WordEngine.store_and_draw, GameEngine.transitionPhase.
  erewrite hasActiveGame_true by (cbn; eauto). cbn.
  rewrite set_game_set_game.
  eapply change_round; eauto. same_drawer.
Qed.

Lemma selectWord_change (r : Room) (playerId : string) (word : JS.Value) :
  game_change r (fst (WordEngine.selectWord r playerId word)).
Proof.
  unfold WordEngine.selectWord. with_active_game r Hact.
  destruct (GameEngine.isCurrentDrawer r playerId); cbn [negb fst snd]; [|apply change_none].
  destruct (bool_decide (phase x = WORD_SELECT)); cbn [negb fst snd]; [|apply change_none].
  destruct (String.length _ =? 0)%nat; cbn [negb fst snd]; [apply change_none|].
  apply store_and_draw_change; assumption.
Qed.

Lemma autoSelectWord_change (shuffle : list string -> list string) (r : Room) :
  game_change r (fst (WordEngine.autoSelectWord shuffle r)).
Proof.
  unfold WordEngine.autoSelectWord. with_active_game r Hact.
  destruct (bool_decide (phase x = WORD_SELECT)); cbn [negb fst snd]; [|apply change_none].
  destruct (WordEngine.generateWordOptions _ _ _); cbn [negb fst snd]; [apply change_none|].
  apply store_and_draw_change; assumption.
Qed.

Lemma clearWordSelection_change (r : Room) :
  game_change r (WordEngine.clearWordSelection r).
Proof.
  unfold WordEngine.clearWordSelection.
  destruct (game r) as [g|] eqn:Hg; [|apply change_none].
  eapply change_detail; eauto.
Qed.

Lemma initializeRoundStartTime_change (r : Room) (t : Z) :
  game_change r (ScoreEngine.initializeRoundStartTime r t).
Proof.
  unfold ScoreEngine.initializeRoundStartTime.
  destruct (game r) as [g|] eqn:Hg; [|apply change_none].
  eapply change_detail; eauto.
Qed.

Lemma validateGuess_change (r : Room) (playerId guess : string) :
  game_change r (fst (GuessEngine.validateGuess r playerId guess)).
Proof.
  unfold GuessEngine.validateGuess. with_active_game r Hact.
  destruct (bool_decide (phase x = DRAWING)); cbn [negb fst snd]; [|apply change_none].
  destruct (GameEngine.isCurrentDrawer r playerId) eqn:Hd; cbn [negb fst snd]; [apply change_none|].
  destruct (bool_decide (playerId ∈ guessedPlayers x)); cbn [negb fst snd]; [apply change_none|].
  destruct (GuessEngine.validateGuessFormat guess) as [[[] normalized] e]; cbn;
    [|apply change_none].
  destruct (WordEngine.getSelectedWord r); cbn [negb fst snd]; [|apply change_none].
  destruct (String.eqb _ _); cbn [negb fst snd]; [|apply change_none].
  eapply change_round; eauto. left. repeat split; auto.
  right. right. exists playerId. split; [|reflexivity].
  unfold GameEngine.isCurrentDrawer in Hd. rewrite Hact in Hd.
  apply bool_decide_eq_false in Hd. exact Hd.
Qed.

Lemma apply_game_op_change (op : GameOp) (r : Room) :
  game_change r (apply_game_op op r).
Proof.
  destruct op; cbn [apply_game_op].
  - apply startGame_change.
  - apply startRound_change.
  - apply endRound_change.
  - apply progressToNextDrawer_change.
  - apply endGame_change.
  - destruct r; apply change_reset.
  - apply transitionPhase_change.
  - apply selectWord_change.
  - apply autoSelectWord_change.
  - apply clearWordSelection_change.
  - apply validateGuess_change.
  - apply initializeRoundStartTime_change.
Qed.

End EngineCalls.

(** ** Invariants of the rooms Map *)

Section Invariants.

Import Lifecycle.

(** A property of rooms that holds of a created room and survives every
    allowed change holds throughout every allowed run. *)
Lemma run_preserves (I : Room -> Prop) (allowed : gmap string Room -> Op -> bool) :
  (forall key playerId raw,
     I (mkRoom key playerId [playerId] (Rooms.validateSettings raw) WAITING None)) ->
  (forall rooms op key r r',
     allowed rooms op = true -> target op = Some key -> rooms !! key = Some r ->
     I r -> room_change op r r' -> I r') ->
  forall ops rooms,
    map_Forall (fun _ r => I r) rooms ->
    respects allowed rooms ops = true ->
    map_Forall (fun _ r => I r) (run_from rooms ops).
Proof.
  intros Hnew Hchange ops.
  induction ops as [|op ops IH]; intros rooms Hinv Hok; [exact Hinv|].
  cbn in Hok. apply andb_true_iff in Hok. destruct Hok as [Hop Hrest].
  unfold run_from. cbn [foldl]. apply IH; [|exact Hrest].
  intros key r' Hr'.
  apply step_lookup in Hr'.
  destruct Hr' as [Hold|[(draw & playerId & raw & _ & ->)|(r & Ht & Hr & Hc)]].
  - exact (Hinv key r' Hold).
  - apply Hnew.
  - exact (Hchange rooms op key r r' Hop Ht Hr (Hinv key r Hr) Hc).
Qed.

Lemma respects_all (rooms : gmap string Room) (ops : list Op) :
  respects (fun _ _ => true) rooms ops = true.
Proof. revert rooms. induction ops as [|op ops IH]; intros rooms; cbn; auto. Qed.

Lemma game_change_members (r r' : Room) :
  game_change r r' -> players r' = players r /\ settings r' = settings r.
Proof. intros H. destruct H; auto. Qed.

Lemma length_delete_le (i : nat) (l : list string) :
  (length (delete i l) <= length l)%nat.
Proof.
  revert i. induction l as [|x l IH]; intros [|i];
    try (cbn; lia).
  change (S (length (delete i l)) <= S (length l))%nat.
  specialize (IH i). lia.
Qed.

Lemma room_change_capacity (op : Op) (r r' : Room) :
  within_capacity r -> room_change op r r' -> within_capacity r'.
Proof.
  unfold within_capacity.
  destruct op as [| playerId roomId | playerId roomId | playerId roomId raw | key gop];
    cbn [room_change]; intros Hcap.
  - intros [].
  - intros (_ & _ & Hlt & ->). cbn. rewrite length_app. cbn. lia.
  - intros (i & first & rest & _ & Hd & ->).
    pose proof (length_delete_le i (players r)) as Hle. rewrite Hd in Hle.
    destruct (String.eqb (ownerId r) playerId);
      cbn [players settings set_ownerId set_players]; lia.
  - intros (_ & Hle & ->). exact Hle.
  - intros ->.
    destruct (game_change_members r _ (apply_game_op_change gop r)) as [-> ->].
    exact Hcap.
Qed.

Lemma game_change_status (r r' : Room) :
  status_matches_game r -> game_change r r' -> status_matches_game r'.
Proof.
  unfold status_matches_game. intros Hinv H.
  destruct H as [|Hs| |g Hg Hs|g g' Hg Hs Hround|g g' Hg Hi Hd Hgp Hph]; cbn.
  - exact Hinv.
  - auto.
  - discriminate.
  - intros ? [= <-]. auto.
  - auto.
  - intros ? [= <-]. destruct (Hinv g Hg) as [|[? ?]]; [auto|]. right. split; congruence.
Qed.

Lemma leave_keeps_game (playerId : string) (first : string) (rest : list string)
    (r : Room) :
  game ((if String.eqb (ownerId r) playerId then set_ownerId first else fun x => x)
          (set_players (first :: rest) r)) = game r
  /\ status ((if String.eqb (ownerId r) playerId then set_ownerId first else fun x => x)
               (set_players (first :: rest) r)) = status r.
Proof. destruct (String.eqb (ownerId r) playerId); split; reflexivity. Qed.

Lemma room_change_status (op : Op) (r r' : Room) :
  status_matches_game r -> room_change op r r' -> status_matches_game r'.
Proof.
  destruct op as [| playerId roomId | playerId roomId | playerId roomId raw | key gop];
    cbn [room_change]; intros Hinv.
  - intros [].
  - intros (_ & _ & _ & ->). exact Hinv.
  - intros (i & first & rest & _ & _ & ->). unfold status_matches_game.
    destruct (leave_keeps_game playerId first rest r) as [-> ->]. exact Hinv.
  - intros (_ & _ & ->). exact Hinv.
  - intros ->. apply (game_change_status r); [exact Hinv|apply apply_game_op_change].
Qed.

Lemma game_change_drawer_never_guessed (r r' : Room) :
  drawer_never_guessed r -> game_change r r' -> drawer_never_guessed r'.
Proof.
  unfold drawer_never_guessed. intros Hinv H.
  destruct H as [|Hs| |g Hg Hs|g g' Hg Hs Hround|g g' Hg Hi Hd Hgp Hph]; cbn.
  - exact Hinv.
  - intros ? p [= <-] _. cbn. apply not_elem_of_nil.
  - discriminate.
  - intros ? p [= <-]. cbn. apply Hinv. exact Hg.
  - intros ? p [= <-] Hp.
    destruct Hround as [(_ & Hd & Hgp)|[_ Hgp]].
    + rewrite Hd in Hp.
      destruct Hgp as [-> | [-> | (q & Hq & ->)]].
      * exact (Hinv g p Hg Hp).
      * apply not_elem_of_nil.
      * rewrite elem_of_app, list_elem_of_singleton.
        intros [Hin | ->]; [exact (Hinv g p Hg Hp Hin)|exact (Hq Hp)].
    + rewrite Hgp. apply not_elem_of_nil.
  - intros ? p [= <-] Hp. rewrite Hgp. apply (Hinv g p Hg). congruence.
Qed.

Lemma room_change_drawer_never_guessed (op : Op) (r r' : Room) :
  drawer_never_guessed r -> room_change op r r' -> drawer_never_guessed r'.
Proof.
  destruct op as [| playerId roomId | playerId roomId | playerId roomId raw | key gop];
    cbn [room_change]; intros Hinv.
  - intros [].
  - intros (_ & _ & _ & ->). exact Hinv.
  - intros (i & first & rest & _ & _ & ->). unfold drawer_never_guessed.
    destruct (leave_keeps_game playerId first rest r) as [-> _]. exact Hinv.
  - intros (_ & _ & ->). exact Hinv.
  - intros ->. apply (game_change_drawer_never_guessed r);
      [exact Hinv|apply apply_game_op_change].
Qed.

Lemma game_change_drawer_in_place (r r' : Room) :
  drawer_in_place r -> game_change r r' -> drawer_in_place r'.
Proof.
  unfold drawer_in_place. intros Hinv H.
  destruct H as [|Hs| |g Hg Hs|g g' Hg Hs Hround|g g' Hg Hi Hd Hgp Hph]; cbn.
  - exact Hinv.
  - intros ? [= <-]. reflexivity.
  - discriminate.
  - intros ? [= <-]. cbn. exact (Hinv g Hg).
  - intros ? [= <-].
    destruct Hround as [(Hi & Hd & _)|[Hd _]]; [|exact Hd].
    rewrite Hi, Hd. exact (Hinv g Hg).
  - intros ? [= <-]. rewrite Hi, Hd. exact (Hinv g Hg).
Qed.

(** Of the room-level steps, only a leave can disturb the drawer: a join
    needs a waiting room, which has no game. *)
Lemma room_change_drawer_in_place (op : Op) (r r' : Room) :
  (forall playerId roomId, op = LeaveRoom playerId roomId -> game r = None) ->
  status_matches_game r -> drawer_in_place r ->
  room_change op r r' -> drawer_in_place r'.
Proof.
  destruct op as [| playerId roomId | playerId roomId | playerId roomId raw | key gop];
    cbn [room_change]; intros Hleave Hst Hinv.
  - intros [].
  - intros (Hw & _ & _ & ->). intros g Hg. cbn in Hg.
    destruct (Hst g Hg) as [E|[E _]]; congruence.
  - intros (i & first & rest & _ & _ & ->). intros g Hg.
    destruct (leave_keeps_game playerId first rest r) as [E _].
    rewrite E, (Hleave playerId roomId eq_refl) in Hg. discriminate.
  - intros (_ & _ & ->). exact Hinv.
  - intros ->. apply (game_change_drawer_in_place r);
      [exact Hinv|apply apply_game_op_change].
Qed.

End Invariants.

(** ** Reachable rooms *)

Section Reachable.

Import Lifecycle.

Lemma created_room_within_capacity (key playerId : string) (raw : JS.Value) :
  within_capacity
    (mkRoom key playerId [playerId] (Rooms.validateSettings raw) WAITING None).
Proof.
  unfold within_capacity. cbn.
  pose proof (validateSettings_maxPlayers raw). lia.
Qed.

Lemma run_within_capacity (ops : list Op) (key : string) (r : Room) :
  run ops !! key = Some r -> within_capacity r.
Proof.
  intros Hr.
  refine (run_preserves within_capacity (fun _ _ => true) _ _ ops ∅ _ _ key r Hr).
  - apply created_room_within_capacity.
  - intros rooms op k r0 r' _ _ _. apply room_change_capacity.
  - apply map_Forall_empty.
  - apply respects_all.
Qed.

Lemma run_sound (ops : list Op) (key : string) (r : Room) :
  run ops !! key = Some r -> sound r.
Proof.
  intros Hr.
  refine (run_preserves sound (fun _ _ => true) _ _ ops ∅ _ _ key r Hr).
  - intros k p raw. split; intros g; cbn; discriminate.
  - intros rooms op k r0 r' _ _ _ [H1 H2] Hc. split.
    + exact (room_change_status op r0 r' H1 Hc).
    + exact (room_change_drawer_never_guessed op r0 r' H2 Hc).
  - apply map_Forall_empty.
  - apply respects_all.
Qed.

Lemma guarded_run_drawer_in_place (ops : list Op) (key : string) (r : Room) :
  respects leaves_lobby_only ∅ ops = true ->
  run ops !! key = Some r -> drawer_in_place r.
Proof.
  intros Hok Hr.
  refine (proj2 (run_preserves (fun r => status_matches_game r /\ drawer_in_place r)
                   leaves_lobby_only _ _ ops ∅ _ Hok key r Hr)).
  - intros k p raw. split; intros g; cbn; discriminate.
  - intros rooms op k r0 r' Hallowed Ht Hr0 [H1 H2] Hc. split.
    + exact (room_change_status op r0 r' H1 Hc).
    + apply (room_change_drawer_in_place op r0 r'); try assumption.
      intros playerId roomId ->. cbn in Hallowed, Ht.
      injection Ht as <-. unfold Rooms.getRoom in Hallowed.
      rewrite Hr0 in Hallowed. apply bool_decide_eq_true in Hallowed.
      exact Hallowed.
  - apply map_Forall_empty.
Qed.

Lemma joinRoom_full (rooms : gmap string Room) (playerId : string)
    (roomId : JS.Value) (r : Room) :
  Rooms.getRoom rooms roomId = Some r ->
  status r = WAITING -> playerId ∉ players r ->
  maxPlayers (settings r) <= Z.of_nat (length (players r)) ->
  Rooms.joinRoom rooms playerId roomId = (rooms, fail None "Room is full").
Proof.
  unfold Rooms.getRoom, Rooms.joinRoom. intros -> Hs Hp Hfull.
  rewrite (bool_decide_eq_true_2 _ Hs), (bool_decide_eq_false_2 _ Hp). cbn [negb].
  apply Z.leb_le in Hfull. rewrite Hfull. reflexivity.
Qed.

Lemma joinRoom_never_overfills (rooms : gmap string Room) (playerId : string)
    (roomId : JS.Value) (r : Room) :
  Rooms.getRoom rooms roomId = Some r ->
  maxPlayers (settings r) <= Z.of_nat (length (players r)) ->
  fst (Rooms.joinRoom rooms playerId roomId) = rooms
  /\ success (snd (Rooms.joinRoom rooms playerId roomId)) = false.
Proof.
  unfold Rooms.getRoom, Rooms.joinRoom. intros -> Hfull.
  apply Z.leb_le in Hfull. rewrite Hfull.
  destruct (bool_decide (status r = WAITING)); cbn [negb]; [|auto].
  destruct (bool_decide (playerId ∈ players r)); auto.
Qed.

Lemma updateRoomSettings_too_small (rooms : gmap string Room) (playerId : string)
    (roomId newSettings : JS.Value) (r : Room) :
  Rooms.getRoom rooms roomId = Some r ->
  maxPlayers (Rooms.validateSettings newSettings) < Z.of_nat (length (players r)) ->
  fst (Rooms.updateRoomSettings rooms playerId roomId newSettings) = rooms
  /\ success (snd (Rooms.updateRoomSettings rooms playerId roomId newSettings)) = false
  /\ (ownerId r = playerId -> status r = WAITING ->
      error (snd (Rooms.updateRoomSettings rooms playerId roomId newSettings))
      = Some ("Cannot set max players below current player count ("
              +:+ pretty (length (players r)) +:+ ")")).
Proof.
  unfold Rooms.getRoom, Rooms.updateRoomSettings. intros -> Hsmall.
  apply Z.ltb_lt in Hsmall. rewrite Hsmall.
  destruct (String.eqb_spec (ownerId r) playerId) as [Ho|Ho]; cbn [negb].
  - destruct (bool_decide (status r = WAITING)) eqn:Es; cbn [negb].
    + auto.
    + repeat split. intros _ Hs. apply bool_decide_eq_false in Es. contradiction.
  - repeat split. intros Ho'. contradiction.
Qed.

Lemma leaveRoom_shrinks (rooms : gmap string Room) (playerId : string)
    (roomId : JS.Value) (key : string) (r' : Room) :
  fst (Rooms.leaveRoom rooms playerId roomId) !! key = Some r' ->
  exists r, rooms !! key = Some r
            /\ (length (players r') <= length (players r))%nat
            /\ settings r' = settings r.
Proof.
  intros H. apply (step_lookup (LeaveRoom playerId roomId)) in H.
  destruct H as [H|[(? & ? & ? & [=] & _)|(r & _ & Hr & i & first & rest & _ & Hd & ->)]].
  - exists r'. auto.
  - exists r. split; [exact Hr|].
    pose proof (length_delete_le i (players r)) as Hle. rewrite Hd in Hle.
    destruct (String.eqb (ownerId r) playerId); cbn; auto.
Qed.

End Reachable.

Example run_lobby_ops :
  Lifecycle.run Fixtures.lobby_ops
  = {[ "ABC123" := mkRoom "ABC123" "p1" ["p1"; "p2"; "p3"] Rooms.DEFAULT_SETTINGS
                     WAITING None ]}.
Proof. vm_compute. reflexivity. Qed.

Example run_guessed_ops :
  Lifecycle.run Fixtures.guessed_ops !! "ABC123" = Some Fixtures.guessed_room.
Proof. vm_compute. reflexivity. Qed.

(** ** Capacity of a room *)

(** C10: in every Map of rooms that the operations can build, no room has
    more members than its [maxPlayers]. [createRoom] starts a room with one
    member and [maxPlayers] between 2 and 12; [joinRoom] changes nothing once
    the members have reached [maxPlayers], and answers "Room is full" when
    the room is waiting and the player is not yet a member;
    [updateRoomSettings] changes nothing when the new [maxPlayers] is below
    the number of members; [leaveRoom] leaves no room with more members, or
    other settings, than it had. *)
Theorem members_never_exceed_maxPlayers :
  (forall ops key r,
     Lifecycle.run ops !! key = Some r ->
     Z.of_nat (length (players r)) <= maxPlayers (settings r))
  /\ (forall draw rooms playerId raw room,
        data (snd (Rooms.createRoom draw rooms playerId raw)) = Some room ->
        players room = [playerId] /\ 2 <= maxPlayers (settings room) <= 12)
  /\ (forall rooms playerId roomId r,
        Rooms.getRoom rooms roomId = Some r ->
        maxPlayers (settings r) <= Z.of_nat (length (players r)) ->
        fst (Rooms.joinRoom rooms playerId roomId) = rooms
        /\ success (snd (Rooms.joinRoom rooms playerId roomId)) = false
        /\ (status r = WAITING -> playerId ∉ players r ->
            error (snd (Rooms.joinRoom rooms playerId roomId)) = Some "Room is full"))
  /\ (forall rooms playerId roomId newSettings r,
        Rooms.getRoom rooms roomId = Some r ->
        maxPlayers (Rooms.validateSettings newSettings) < Z.of_nat (length (players r)) ->
        fst (Rooms.updateRoomSettings rooms playerId roomId newSettings) = rooms
        /\ success (snd (Rooms.updateRoomSettings rooms playerId roomId newSettings))
           = false)
  /\ (forall rooms playerId roomId key r',
        fst (Rooms.leaveRoom rooms playerId roomId) !! key = Some r' ->
        exists r, rooms !! key = Some r
                  /\ (length (players r') <= length (players r))%nat
                  /\ settings r' = settings r).
Proof.
  split; [exact run_within_capacity|].
  split.
  { intros draw rooms playerId raw room. unfold Rooms.createRoom.
    destruct (Rooms.generateRoomId draw rooms); cbn; [|discriminate].
    intros [= <-]. cbn. split; [reflexivity|apply validateSettings_maxPlayers]. }
  split.
  { intros rooms playerId roomId r Hr Hfull.
    destruct (joinRoom_never_overfills rooms playerId roomId r Hr Hfull) as [H1 H2].
    repeat split; try assumption.
    intros Hs Hp. rewrite (joinRoom_full rooms playerId roomId r Hr Hs Hp Hfull).
    reflexivity. }
  split.
  { intros rooms playerId roomId newSettings r Hr Hsmall.
    destruct (updateRoomSettings_too_small rooms playerId roomId newSettings r Hr Hsmall)
      as (H1 & H2 & _). auto. }
  exact leaveRoom_shrinks.
Qed.

Lemma members_never_exceed_maxPlayers_witness :
  Z.of_nat (length ["p1"; "p2"; "p3"]) <= maxPlayers Rooms.DEFAULT_SETTINGS.
Proof.
  apply (proj1 members_never_exceed_maxPlayers Fixtures.lobby_ops "ABC123"
           (mkRoom "ABC123" "p1" ["p1"; "p2"; "p3"] Rooms.DEFAULT_SETTINGS
              WAITING None)).
  vm_compute. reflexivity.
Defined.

(** ** The drawer and the members *)

(** C4, as stated: "p1" creates a room, "p2" and "p3" join, "p1" starts the
    game and then leaves. The room keeps its game, with drawer index 0 and
    drawer id "p1", while the member at index 0 is now "p2". *)
Lemma leave_displaces_drawer :
  exists r g,
    Lifecycle.run Fixtures.midgame_leave_ops !! "ABC123" = Some r
    /\ game r = Some g
    /\ drawerId g = Some "p1"
    /\ players r !! drawerIndex g = Some "p2"
    /\ drawerId g <> players r !! drawerIndex g.
Proof. eexists _, _. vm_compute. repeat split. discriminate. Qed.

(** A rotation puts the drawer back in place, whatever happened before. *)
Lemma progressToNextDrawer_restores (r : Room) (g : Game) :
  game r = Some g -> status r = IN_GAME ->
  Lifecycle.drawer_in_place (fst (GameEngine.progressToNextDrawer r)).
Proof.
  intros Hg Hs. unfold GameEngine.progressToNextDrawer.
  rewrite (hasActiveGame_true r g Hg Hs). cbn [negb fst].
  unfold GameEngine.getNextDrawer. rewrite Hg.
  unfold GameEngine.startRound.
  erewrite hasActiveGame_true by (cbn; eauto).
  cbn. intros g' [= <-]. reflexivity.
Qed.

(** C4, amended: in every state reached by operations among which no
    [leaveRoom] is applied to a room that has a game, a room with a game has
    [drawerId] equal to the member at [drawerIndex]. Every engine call
    preserves this. (A [leaveRoom] on a room with a game removes the member
    and leaves [drawerIndex] and [drawerId] as they were.) *)
Theorem drawer_in_place_without_midgame_leave :
  (forall ops key r g,
     Lifecycle.respects Lifecycle.leaves_lobby_only ∅ ops = true ->
     Lifecycle.run ops !! key = Some r ->
     game r = Some g ->
     drawerId g = players r !! drawerIndex g)
  /\ (forall op r,
        Lifecycle.drawer_in_place r ->
        Lifecycle.drawer_in_place (Lifecycle.apply_game_op op r)).
Proof.
  split.
  - intros ops key r g Hok Hr. exact (guarded_run_drawer_in_place ops key r Hok Hr g).
  - intros op r Hinv.
    exact (game_change_drawer_in_place r _ Hinv (apply_game_op_change op r)).
Qed.

Lemma drawer_in_place_without_midgame_leave_witness :
  Some "p1" = ["p1"; "p2"; "p3"] !! 0%nat.
Proof.
  apply (proj1 drawer_in_place_without_midgame_leave Fixtures.guessed_ops "ABC123"
           Fixtures.guessed_room
           (mkGame DRAWING 1 3 0 (Some "p1") ["p2"] None (Some "cat") (Some "_ _ _"))).
  - vm_compute. reflexivity.
  - vm_compute. reflexivity.
  - reflexivity.
Defined.

(** ** A second guess in the same round *)

Lemma resolve_room (pm : Players.PlayerManager) (srv : Index.Server)
    (socket : string) (player : Player) (key : string) (r : Room) :
  Index.resolve pm srv socket = inl (player, key, r) ->
  Index.rooms srv !! key = Some r.
Proof.
  unfold Index.resolve, Rooms.getRoom.
  destruct (Players.pm_getPlayer pm _ socket) as [p|]; [|discriminate].
  destruct (WordEngine.truthy_string (roomId p)) as [rid|]; [|discriminate].
  destruct (Index.rooms srv !! _) as [room|] eqn:E; [|discriminate].
  intros [= <- <- <-]. exact E.
Qed.

Lemma put_room_same (srv : Index.Server) (key : string) (r : Room) :
  Index.rooms srv !! key = Some r -> Index.put_room srv key r = srv.
Proof.
  intros H. unfold Index.put_room. rewrite (insert_id _ _ _ H).
  destruct srv; reflexivity.
Qed.

(** C6, as stated: once the round has ended and before the next one
    starts, "p2" is still on the list of those who guessed in round 1, and a
    second guess is answered with the error of the phase check, which comes
    first, not with the already-guessed error. *)
Lemma repeated_guess_after_round_end_gets_phase_error :
  exists r g,
    Lifecycle.run
      (Fixtures.guessed_ops ++ [Lifecycle.OnRoom "ABC123" Lifecycle.EndRound])
    !! "ABC123" = Some r
    /\ game r = Some g /\ currentRound g = 1 /\ "p2" ∈ guessedPlayers g
    /\ GuessEngine.validateGuess r "p2" "cat"
       = (r, fail false "Guessing is only allowed during drawing phase")
    /\ error (snd (GuessEngine.validateGuess r "p2" "cat"))
       <> Some "You have already guessed correctly".
Proof.
  eexists. eexists. split; [vm_compute; reflexivity|].
  split; [reflexivity|]. split; [reflexivity|]. split; [left|].
  split; [vm_compute; reflexivity|vm_compute; discriminate].
Qed.

(** C6, amended: in every room that the operations can build, a guess
    submitted by a player who is already in [guessedPlayers] fails and
    leaves the room as it was, and the [guess] handler then returns with
    every part of the server state (rooms, players and their scores,
    recorded guess times) unchanged. The error is "You have already guessed
    correctly" while the round is being drawn; in any other phase of the
    game it is "Guessing is only allowed during drawing phase", and "Game is
    not active" once the game is over, because these checks come first. *)
Theorem repeated_guess_rejected (ops : list Lifecycle.Op) (key : string)
    (r : Room) (g : Game) (playerId guess : string) :
  Lifecycle.run ops !! key = Some r ->
  game r = Some g ->
  playerId ∈ guessedPlayers g ->
  let e :=
    if bool_decide (status r = IN_GAME)
    then if bool_decide (phase g = DRAWING)
         then "You have already guessed correctly"
         else "Guessing is only allowed during drawing phase"
    else "Game is not active" in
  GuessEngine.validateGuess r playerId guess = (r, fail false e)
  /\ (phase g = DRAWING -> e = "You have already guessed correctly")
  /\ forall pm srv socket player guessTimestamp now payload,
       Index.resolve pm srv socket = inl (player, key, r) ->
       p_id player = playerId ->
       JS.is_object payload = true ->
       JS.prop payload "guess" = JS.Str guess ->
       Index.guess pm guessTimestamp now srv socket payload
       = (srv, Normal (Index.Rejected e)).
Proof.
  intros Hr Hg Hin e.
  destruct (run_sound ops key r Hr) as [Hst Hdr].
  assert (GuessEngine.validateGuess r playerId guess = (r, fail false e)) as Hfail.
  { unfold GuessEngine.validateGuess, GameEngine.hasActiveGame, e. rewrite Hg.
    destruct (bool_decide (status r = IN_GAME)); cbn [negb fst snd]; [|reflexivity].
    destruct (bool_decide (phase g = DRAWING)); cbn [negb]; [|reflexivity].
    assert (GameEngine.isCurrentDrawer r playerId = false) as ->.
    { unfold GameEngine.isCurrentDrawer. rewrite Hg. apply bool_decide_eq_false.
      intros Hd. exact (Hdr g playerId Hg Hd Hin). }
    rewrite (bool_decide_eq_true_2 _ Hin). reflexivity. }
  split; [exact Hfail|]. split.
  - intros Hph. unfold e. rewrite (bool_decide_eq_true_2 _ Hph).
    destruct (Hst g Hg) as [Hs|[Hs Hph']].
    + rewrite (bool_decide_eq_true_2 _ Hs). reflexivity.
    + rewrite Hph' in Hph. discriminate.
  - intros pm srv socket player guessTimestamp now payload Hres Hid Hobj Hprop.
    unfold Index.guess. rewrite Hres, Hobj, Hprop, Hid, Hfail.
    cbn. rewrite (put_room_same srv key r (resolve_room _ _ _ _ _ _ Hres)).
    reflexivity.
Qed.

Lemma repeated_guess_rejected_witness :
  Index.guess Players.playerManager 9000 9001
    (Index.mkServer Fixtures.store (Lifecycle.run Fixtures.guessed_ops)) "s2"
    (JS.Obj [("guess", JS.Str "CAT")])
  = (Index.mkServer Fixtures.store (Lifecycle.run Fixtures.guessed_ops),
     Normal (Index.Rejected "You have already guessed correctly")).
Proof.
  destruct (repeated_guess_rejected Fixtures.guessed_ops "ABC123"
              Fixtures.guessed_room
              (mkGame DRAWING 1 3 0 (Some "p1") ["p2"] None (Some "cat") (Some "_ _ _"))
              "p2" "CAT") as (_ & _ & Hhandler).
  - vm_compute. reflexivity.
  - reflexivity.
  - vm_compute. left.
  - apply (Hhandler Players.playerManager _ "s2" Fixtures.bob).
    + vm_compute. reflexivity.
    + reflexivity.
    + reflexivity.
    + reflexivity.
Defined.

(** ** Player names *)

Section PlayerNames.

Import Players.

Lemma validateName_accepts (s : string) :
  (1 <= String.length (JS.trim s) <= 20)%nat ->
  validateName (JS.Str s) = (true, JS.trim s, None).
Proof.
  intros [Hlo Hhi]. unfold validateName, MIN_NAME_LENGTH, MAX_NAME_LENGTH.
  destruct (Nat.ltb_spec (String.length (JS.trim s)) 1); [lia|].
  destruct (Nat.ltb_spec 20 (String.length (JS.trim s))); [lia|]. reflexivity.
Qed.

Lemma validateName_rejects (v : JS.Value) :
  (forall s, v = JS.Str s -> ~ (1 <= String.length (JS.trim s) <= 20)%nat) ->
  fst (fst (validateName v)) = false.
Proof.
  intros Hbad. destruct v as [| |b|q|s|items|fields]; try reflexivity.
  specialize (Hbad s eq_refl).
  unfold validateName, MIN_NAME_LENGTH, MAX_NAME_LENGTH.
  destruct (Nat.ltb_spec (String.length (JS.trim s)) 1); [reflexivity|].
  destruct (Nat.ltb_spec 20 (String.length (JS.trim s))); [reflexivity|]. lia.
Qed.

Lemma getPlayer_inv (reg : Registry) (socket : string) (player : Player) :
  getPlayer reg socket = Some player ->
  exists key, players_by_socket reg !! socket = Some key
              /\ playerById reg !! key = Some player.
Proof.
  unfold getPlayer, getPlayerById.
  destruct (players_by_socket reg !! socket) as [key|]; [|discriminate].
  cbn. eauto.
Qed.

End PlayerNames.

(** X1: [updatePlayerName] accepts exactly the strings whose trimmed form
    has between 1 and 20 code units. An accepted name is stored trimmed on
    the player of the socket, whose other fields stay; a rejected name
    leaves the registry as it was and yields no player. *)
Theorem updatePlayerName_stores_trimmed_name (reg : Players.Registry)
    (socket : string) (newName : JS.Value) (player : Player) :
  Players.getPlayer reg socket = Some player ->
  (forall s, newName = JS.Str s ->
     (1 <= String.length (JS.trim s) <= 20)%nat ->
     let renamed :=
       mkPlayer (p_id player) (socketId player) (JS.trim s) (roomId player)
         (score player) in
     snd (Players.updatePlayerName reg socket newName) = ok (Some renamed)
     /\ Players.getPlayer (fst (Players.updatePlayerName reg socket newName)) socket
        = Some renamed)
  /\ ((forall s, newName = JS.Str s ->
         ~ (1 <= String.length (JS.trim s) <= 20)%nat) ->
      fst (Players.updatePlayerName reg socket newName) = reg
      /\ success (snd (Players.updatePlayerName reg socket newName)) = false
      /\ data (snd (Players.updatePlayerName reg socket newName)) = None).
Proof.
  intros Hp. apply getPlayer_inv in Hp. destruct Hp as (key & Hs & Hk).
  unfold Players.updatePlayerName. rewrite Hs, Hk. split.
  - intros s -> Hlen. rewrite (validateName_accepts s Hlen). cbn [negb fst snd].
    split; [reflexivity|].
    unfold Players.getPlayer, Players.getPlayerById. cbn. rewrite Hs. cbn.
    apply lookup_insert_eq.
  - intros Hbad. pose proof (validateName_rejects newName Hbad) as Hv.
    destruct (Players.validateName newName) as [[valid sanitized] e].
    cbn in Hv. subst valid. cbn. auto.
Qed.

Lemma updatePlayerName_stores_trimmed_name_witness :
  Players.getPlayer Fixtures.registry "s1" = Some Fixtures.alice
  /\ snd (Players.updatePlayerName Fixtures.registry "s1" (JS.Str "  Ann "))
     = ok (Some (mkPlayer "p1" "s1" "Ann" (Some "ABC123") None))
  /\ fst (Players.updatePlayerName Fixtures.registry "s1" (JS.Str "   "))
     = Fixtures.registry.
Proof.
  split; [reflexivity|].
  pose proof (updatePlayerName_stores_trimmed_name Fixtures.registry "s1"
                (JS.Str "  Ann ") Fixtures.alice eq_refl) as [Hok _].
  pose proof (updatePlayerName_stores_trimmed_name Fixtures.registry "s1"
                (JS.Str "   ") Fixtures.alice eq_refl) as [_ Hbad].
  split.
  - apply (Hok "  Ann " eq_refl). vm_compute. split; lia.
  - apply Hbad. intros s [= <-]. vm_compute. lia.
Defined.

(** ** The player registry *)

(** X2: a connection followed by the disconnection of the same socket
    leaves the registry as it was. In between, the new player is found
    under its socket and under its id, is in no room, and the players that
    were there are found as before. The socket id and the player id are new
    to the registry. *)
Theorem createPlayer_removePlayer_round_trip (reg : Players.Registry)
    (socket playerId suffix : string) :
  Players.players_by_socket reg !! socket = None ->
  Players.playerById reg !! playerId = None ->
  let reg' := fst (Players.createPlayer reg socket playerId suffix) in
  let player := snd (Players.createPlayer reg socket playerId suffix) in
  Players.getPlayer reg' socket = Some player
  /\ Players.getPlayerById reg' playerId = Some player
  /\ roomId player = None
  /\ (forall other p, Players.getPlayer reg other = Some p ->
        Players.getPlayer reg' other = Some p)
  /\ Players.removePlayer reg' socket = (reg, true).
Proof.
  intros Hs Hp. cbn zeta. unfold Players.createPlayer. cbn [fst snd].
  assert (Players.getPlayer
            (Players.mkRegistry (<[socket := playerId]> (Players.players_by_socket reg))
               (<[playerId := mkPlayer playerId socket
                                (Players.DEFAULT_NAME_PREFIX +:+ suffix) None None]>
                  (Players.playerById reg))) socket
          = Some (mkPlayer playerId socket (Players.DEFAULT_NAME_PREFIX +:+ suffix)
                    None None)) as Hget.
  { unfold Players.getPlayer, Players.getPlayerById. cbn.
    rewrite lookup_insert_eq. cbn. apply lookup_insert_eq. }
  split; [exact Hget|].
  split; [apply lookup_insert_eq|].
  split; [reflexivity|].
  split.
  - intros other p. unfold Players.getPlayer, Players.getPlayerById. cbn.
    destruct (decide (other = socket)) as [->|Hne]; [rewrite Hs; discriminate|].
    rewrite lookup_insert_ne by congruence.
    destruct (Players.players_by_socket reg !! other) as [key|]; [|discriminate].
    cbn. intros Hk. rewrite lookup_insert_ne; [exact Hk|]. congruence.
  - unfold Players.removePlayer. rewrite Hget. cbn.
    rewrite !delete_insert_id by assumption. destruct reg; reflexivity.
Qed.

Lemma createPlayer_removePlayer_round_trip_witness :
  Players.removePlayer
    (fst (Players.createPlayer Fixtures.registry "s9" "p9" "042")) "s9"
  = (Fixtures.registry, true).
Proof.
  apply (createPlayer_removePlayer_round_trip Fixtures.registry "s9" "p9" "042");
    reflexivity.
Defined.

(** ** Room codes *)

Section RoomCodes.

Import JS Rooms.

Lemma code_unit_cases (c : ascii) :
  code_unit c ->
  is_whitespace c = false /\ upper_char c = c /\ upper_char (lower_char c) = c.
Proof.
  intros [i Hi].
  do 36 (destruct i as [|i]; [injection Hi as <-; vm_compute; auto|]).
  discriminate.
Qed.

Lemma random_char_unit (draw : nat -> nat) (k : nat) :
  exists c, random_char draw k = String c EmptyString /\ code_unit c.
Proof.
  unfold random_char.
  assert (draw k mod String.length ROOM_ID_CHARS < 36)%nat as Hlt.
  { apply Nat.mod_upper_bound. discriminate. }
  destruct (String.get _ ROOM_ID_CHARS) as [c|] eqn:E.
  - exists c. split; [reflexivity|]. eexists. exact E.
  - exfalso. revert E Hlt. generalize (draw k mod String.length ROOM_ID_CHARS)%nat.
    intros i. do 36 (destruct i as [|i]; [discriminate|]). lia.
Qed.

Lemma random_chars_units (draw : nat -> nat) (n k : nat) :
  String.length (random_chars draw k n) = n
  /\ all_units code_unit (random_chars draw k n).
Proof.
  revert k. induction n as [|n IH]; intros k; [split; [reflexivity|exact I]|].
  cbn [random_chars]. destruct (random_char_unit draw k) as (c & -> & Hc).
  destruct (IH (S k)) as [Hlen Hall].
  change (String c EmptyString +:+ ?x) with (String c x).
  cbn [String.length all_units]. rewrite Hlen. auto.
Qed.

Lemma generateRoomId_loop_units (draw : nat -> nat) (has : string -> bool)
    (fuel attempts : nat) (roomId : string) :
  generateRoomId_loop draw has attempts fuel = Normal roomId ->
  String.length roomId = 6%nat /\ all_units code_unit roomId.
Proof.
  revert attempts. induction fuel as [|fuel IH]; intros attempts;
    cbn [generateRoomId_loop]; [discriminate|].
  destruct (100 <=? S attempts)%nat; [discriminate|].
  destruct (has _); [apply IH|].
  intros E. injection E as E. rewrite <- E.
  exact (random_chars_units draw 6 (attempts * ROOM_ID_LENGTH)).
Qed.

Lemma generateRoomId_units (draw : nat -> nat) (rooms : gmap string Room)
    (roomId : string) :
  generateRoomId draw rooms = Normal roomId ->
  String.length roomId = 6%nat /\ all_units code_unit roomId.
Proof. apply generateRoomId_loop_units. Qed.

Lemma trimStart_units (s : string) :
  all_units (fun c => is_whitespace c = false) s -> trimStart s = s.
Proof. destruct s as [|c s]; [reflexivity|]. cbn. intros [-> _]. reflexivity. Qed.

Lemma trimEnd_units (s : string) :
  all_units (fun c => is_whitespace c = false) s -> trimEnd s = s.
Proof.
  induction s as [|c s IH]; [reflexivity|]. cbn [all_units trimEnd].
  intros [Hc Hs]. rewrite (IH Hs), Hc. destruct s; reflexivity.
Qed.

Lemma all_units_impl (P Q : ascii -> Prop) (s : string) :
  (forall c, P c -> Q c) -> all_units P s -> all_units Q s.
Proof. intros H. induction s as [|c s IH]; cbn; [auto|]. intros [? ?]. auto. Qed.

Lemma map_chars_units (f : ascii -> ascii) (s : string) :
  all_units (fun c => f c = c) s -> map_chars f s = s.
Proof.
  induction s as [|c s IH]; [reflexivity|]. cbn. intros [-> Hs].
  rewrite (IH Hs). reflexivity.
Qed.

Lemma map_chars_compose (f g : ascii -> ascii) (s : string) :
  map_chars f (map_chars g s) = map_chars (fun c => f (g c)) s.
Proof. induction s as [|c s IH]; [reflexivity|]. cbn. rewrite IH. reflexivity. Qed.

Lemma all_units_map_chars (P : ascii -> Prop) (f : ascii -> ascii) (s : string) :
  all_units (fun c => P (f c)) s -> all_units P (map_chars f s).
Proof. induction s as [|c s IH]; cbn; [auto|]. intros [? ?]. auto. Qed.

Lemma normalizeRoomId_code (s : string) :
  all_units code_unit s -> normalizeRoomId (Str s) = s.
Proof.
  intros Hs. unfold normalizeRoomId, trim.
  rewrite trimStart_units, trimEnd_units;
    try (eapply all_units_impl; [|exact Hs]; intros c Hc;
         apply (code_unit_cases c Hc)).
  apply map_chars_units. eapply all_units_impl; [|exact Hs].
  intros c Hc. apply (code_unit_cases c Hc).
Qed.

Lemma normalizeRoomId_lower_code (s : string) :
  all_units code_unit s -> normalizeRoomId (Str (toLowerCase s)) = s.
Proof.
  intros Hs. unfold normalizeRoomId, trim, toLowerCase.
  rewrite trimStart_units, trimEnd_units;
    try (apply all_units_map_chars; eapply all_units_impl; [|exact Hs];
         intros c Hc; cbn beta; rewrite lower_char_whitespace;
         apply (code_unit_cases c Hc)).
  unfold toUpperCase. rewrite map_chars_compose.
  apply map_chars_units. eapply all_units_impl; [|exact Hs].
  intros c Hc. apply (code_unit_cases c Hc).
Qed.

Lemma trimEnd_app_space (s : string) : trimEnd (s +:+ " ") = trimEnd s.
Proof.
  induction s as [|c s IH]; [reflexivity|].
  change (String c s +:+ " ") with (String c (s +:+ " ")).
  cbn [trimEnd]. rewrite IH. reflexivity.
Qed.

Lemma normalizeRoomId_padded (s : string) :
  normalizeRoomId (Str (" " +:+ s +:+ " ")) = normalizeRoomId (Str s).
Proof.
  unfold normalizeRoomId, trim. f_equal.
  change (" " +:+ s +:+ " ") with (String " " (s +:+ " ")).
  cbn [trimStart]. change (is_whitespace " ") with true. cbn match.
  revert s. induction s as [|c s IH]; [reflexivity|].
  change (String c s +:+ " ") with (String c (s +:+ " ")).
  cbn [trimStart]. destruct (is_whitespace c); [exact IH|].
  apply (trimEnd_app_space (String c s)).
Qed.

End RoomCodes.

(** X3: the code of a created room has six code units, all of them capital
    letters or digits of [ROOM_ID_CHARS], and was not in use. [getRoom] then
    finds the room under the code as it is, in lower case, and in lower case
    with a space on either side; the other rooms stay where they were. *)
Theorem createRoom_code_is_case_insensitive (draw : nat -> nat)
    (rooms : gmap string Room) (playerId : string) (raw : JS.Value) (room : Room) :
  data (snd (Rooms.createRoom draw rooms playerId raw)) = Some room ->
  let after := fst (Rooms.createRoom draw rooms playerId raw) in
  String.length (id room) = 6%nat
  /\ JS.all_units Rooms.code_unit (id room)
  /\ rooms !! id room = None
  /\ Rooms.getRoom after (JS.Str (id room)) = Some room
  /\ Rooms.getRoom after (JS.Str (JS.toLowerCase (id room))) = Some room
  /\ Rooms.getRoom after (JS.Str (" " +:+ JS.toLowerCase (id room) +:+ " "))
     = Some room
  /\ (forall key, key <> id room -> after !! key = rooms !! key).
Proof.
  unfold Rooms.createRoom.
  destruct (Rooms.generateRoomId draw rooms) as [roomId|e] eqn:E; [|discriminate].
  cbn [fst snd data ok]. intros [= <-]. cbn [id].
  destruct (generateRoomId_units draw rooms roomId E) as [Hlen Hall].
  unfold Rooms.getRoom.
  rewrite normalizeRoomId_padded, normalizeRoomId_lower_code,
    normalizeRoomId_code by exact Hall.
  rewrite lookup_insert_eq.
  repeat split; try assumption.
  - exact (createRoom_fresh draw rooms roomId E).
  - intros key Hne. apply lookup_insert_ne. congruence.
Qed.

Lemma createRoom_code_is_case_insensitive_witness :
  Rooms.getRoom (fst (Rooms.createRoom Fixtures.draw_ABC123 ∅ "p1" JS.Undefined))
    (JS.Str " abc123 ")
  = Some (mkRoom "ABC123" "p1" ["p1"] Rooms.DEFAULT_SETTINGS WAITING None).
Proof.
  apply (createRoom_code_is_case_insensitive Fixtures.draw_ABC123 ∅ "p1" JS.Undefined
           (mkRoom "ABC123" "p1" ["p1"] Rooms.DEFAULT_SETTINGS WAITING None)).
  reflexivity.
Defined.

(** ** Calls that report a failure *)

Section FailedCalls.

Lemma store_and_draw_succeeds (r : Room) (g : Game) (w : string) :
  status r = IN_GAME ->
  success (snd (WordEngine.store_and_draw r g w)) = true.
Proof.
  intros Hs. unfold WordEngine.store_and_draw, GameEngine.transitionPhase.
  erewrite hasActiveGame_true by (cbn; eauto). reflexivity.
Qed.

Ltac unless_active r :=
  let Hact := fresh "Hact" in
  destruct (GameEngine.hasActiveGame r) as [[] ?] eqn:Hact; cbn [negb fst snd];
  [apply (f_equal fst) in Hact; cbn [fst] in Hact;
   apply hasActiveGame_inv in Hact; destruct Hact as (? & ? & Hact);
   rewrite ?Hact
  |reflexivity].

Lemma createRoom_failed (draw : nat -> nat) (rooms : gmap string Room)
    (playerId : string) (raw : JS.Value) :
  success (snd (Rooms.createRoom draw rooms playerId raw)) = false ->
  fst (Rooms.createRoom draw rooms playerId raw) = rooms.
Proof.
  unfold Rooms.createRoom. destruct (Rooms.generateRoomId draw rooms); cbn;
    [discriminate|reflexivity].
Qed.

Lemma joinRoom_failed (rooms : gmap string Room) (playerId : string)
    (roomId : JS.Value) :
  success (snd (Rooms.joinRoom rooms playerId roomId)) = false ->
  fst (Rooms.joinRoom rooms playerId roomId) = rooms.
Proof.
  unfold Rooms.joinRoom.
  destruct (rooms !! _) as [r|]; [|reflexivity].
  destruct (bool_decide (status r = WAITING)); cbn [negb]; [|reflexivity].
  destruct (bool_decide (playerId ∈ players r)); [reflexivity|].
  destruct (_ <=? _); [reflexivity|discriminate].
Qed.

Lemma leaveRoom_failed (rooms : gmap string Room) (playerId : string)
    (roomId : JS.Value) :
  success (snd (Rooms.leaveRoom rooms playerId roomId)) = false ->
  fst (Rooms.leaveRoom rooms playerId roomId) = rooms.
Proof.
  unfold Rooms.leaveRoom.
  destruct (rooms !! _) as [r|]; [|reflexivity].
  destruct (Rooms.indexOf playerId (players r)) as [i|]; [|reflexivity].
  cbn [players set_players]. destruct (delete i (players r)); discriminate.
Qed.

Lemma updateRoomSettings_failed (rooms : gmap string Room) (playerId : string)
    (roomId raw : JS.Value) :
  success (snd (Rooms.updateRoomSettings rooms playerId roomId raw)) = false ->
  fst (Rooms.updateRoomSettings rooms playerId roomId raw) = rooms.
Proof.
  unfold Rooms.updateRoomSettings.
  destruct (rooms !! _) as [r|]; [|reflexivity].
  destruct (String.eqb (ownerId r) playerId); cbn [negb]; [|reflexivity].
  destruct (bool_decide (status r = WAITING)); cbn [negb]; [|reflexivity].
  destruct (_ <? _); [reflexivity|discriminate].
Qed.

Lemma startGame_failed (room : Room) (playerId : string) :
  success (snd (GameEngine.startGame room playerId)) = false ->
  fst (GameEngine.startGame room playerId) = room.
Proof.
  unfold GameEngine.startGame.
  destruct (fst (GameEngine.canStartGame room playerId)); cbn [negb];
    [discriminate|reflexivity].
Qed.

Lemma startRound_failed (room : Room) :
  success (snd (GameEngine.startRound room)) = false ->
  fst (GameEngine.startRound room) = room.
Proof. unfold GameEngine.startRound. unless_active room. discriminate. Qed.

Lemma endRound_failed (room : Room) :
  success (snd (GameEngine.endRound room)) = false ->
  fst (GameEngine.endRound room) = room.
Proof.
  unfold GameEngine.endRound. unless_active room.
  cbn. destruct (_ && _); discriminate.
Qed.

Lemma progressToNextDrawer_failed (room : Room)
    (reply : Reply (option GameEngine.DrawerInfo * bool)) :
  snd (GameEngine.progressToNextDrawer room) = Normal reply ->
  success reply = false ->
  fst (GameEngine.progressToNextDrawer room) = room.
Proof.
  unfold GameEngine.progressToNextDrawer. unless_active room.
  unfold GameEngine.getNextDrawer. rewrite Hact.
  destruct (GameEngine.startRound _). cbn. intros [= <-]. discriminate.
Qed.

Lemma endGame_failed (room : Room) :
  success (snd (GameEngine.endGame room)) = false ->
  fst (GameEngine.endGame room) = room.
Proof. unfold GameEngine.endGame. unless_active room. discriminate. Qed.

Lemma transitionPhase_failed (room : Room) (newPhase : string) :
  success (snd (GameEngine.transitionPhase room newPhase)) = false ->
  fst (GameEngine.transitionPhase room newPhase) = room.
Proof.
  unfold GameEngine.transitionPhase. unless_active room.
  destruct (GameEngine.phase_of_name newPhase); [discriminate|reflexivity].
Qed.

Lemma selectWord_failed (room : Room) (playerId : string) (word : JS.Value) :
  success (snd (WordEngine.selectWord room playerId word)) = false ->
  fst (WordEngine.selectWord room playerId word) = room.
Proof.
  unfold WordEngine.selectWord. unless_active room.
  destruct (GameEngine.isCurrentDrawer room playerId); cbn [negb]; [|reflexivity].
  destruct (bool_decide (phase _ = WORD_SELECT)); cbn [negb]; [|reflexivity].
  destruct (_ =? _)%nat; [reflexivity|].
  rewrite store_and_draw_succeeds by assumption. discriminate.
Qed.

Lemma autoSelectWord_failed (shuffle : list string -> list string) (room : Room) :
  success (snd (WordEngine.autoSelectWord shuffle room)) = false ->
  fst (WordEngine.autoSelectWord shuffle room) = room.
Proof.
  unfold WordEngine.autoSelectWord. unless_active room.
  destruct (bool_decide (phase _ = WORD_SELECT)); cbn [negb]; [|reflexivity].
  destruct (WordEngine.generateWordOptions _ _ _); [reflexivity|].
  rewrite store_and_draw_succeeds by assumption. discriminate.
Qed.

Lemma validateGuess_failed (room : Room) (playerId guess : string) :
  success (snd (GuessEngine.validateGuess room playerId guess)) = false ->
  fst (GuessEngine.validateGuess room playerId guess) = room.
Proof.
  unfold GuessEngine.validateGuess. unless_active room.
  destruct (bool_decide (phase _ = DRAWING)); cbn [negb]; [|reflexivity].
  destruct (GameEngine.isCurrentDrawer room playerId); [reflexivity|].
  destruct (bool_decide (playerId ∈ _)); [reflexivity|].
  destruct (GuessEngine.validateGuessFormat guess) as [[[] normalized] e];
    cbn [negb]; [|reflexivity].
  destruct (WordEngine.getSelectedWord room); [|reflexivity].
  destruct (String.eqb _ _); [discriminate|reflexivity].
Qed.

End FailedCalls.

(** X4: a call of the room manager or of the game, word or guess engine
    that answers [success: false] has changed nothing: the Map of rooms,
    or the room it was given, is as before the call. *)
Theorem failed_call_changes_nothing :
  (forall draw rooms playerId raw,
     success (snd (Rooms.createRoom draw rooms playerId raw)) = false ->
     fst (Rooms.createRoom draw rooms playerId raw) = rooms)
  /\ (forall rooms playerId roomId,
        success (snd (Rooms.joinRoom rooms playerId roomId)) = false ->
        fst (Rooms.joinRoom rooms playerId roomId) = rooms)
  /\ (forall rooms playerId roomId,
        success (snd (Rooms.leaveRoom rooms playerId roomId)) = false ->
        fst (Rooms.leaveRoom rooms playerId roomId) = rooms)
  /\ (forall rooms playerId roomId raw,
        success (snd (Rooms.updateRoomSettings rooms playerId roomId raw)) = false ->
        fst (Rooms.updateRoomSettings rooms playerId roomId raw) = rooms)
  /\ (forall room playerId,
        success (snd (GameEngine.startGame room playerId)) = false ->
        fst (GameEngine.startGame room playerId) = room)
  /\ (forall room,
        success (snd (GameEngine.startRound room)) = false ->
        fst (GameEngine.startRound room) = room)
  /\ (forall room,
        success (snd (GameEngine.endRound room)) = false ->
        fst (GameEngine.endRound room) = room)
  /\ (forall room reply,
        snd (GameEngine.progressToNextDrawer room) = Normal reply ->
        success reply = false ->
        fst (GameEngine.progressToNextDrawer room) = room)
  /\ (forall room,
        success (snd (GameEngine.endGame room)) = false ->
        fst (GameEngine.endGame room) = room)
  /\ (forall room newPhase,
        success (snd (GameEngine.transitionPhase room newPhase)) = false ->
        fst (GameEngine.transitionPhase room newPhase) = room)
  /\ (forall room playerId word,
        success (snd (WordEngine.selectWord room playerId word)) = false ->
        fst (WordEngine.selectWord room playerId word) = room)
  /\ (forall shuffle room,
        success (snd (WordEngine.autoSelectWord shuffle room)) = false ->
        fst (WordEngine.autoSelectWord shuffle room) = room)
  /\ (forall room playerId guess,
        success (snd (GuessEngine.validateGuess room playerId guess)) = false ->
        fst (GuessEngine.validateGuess room playerId guess) = room).
Proof.
  split; [exact createRoom_failed|]. split; [exact joinRoom_failed|].
  split; [exact leaveRoom_failed|]. split; [exact updateRoomSettings_failed|].
  split; [exact startGame_failed|]. split; [exact startRound_failed|].
  split; [exact endRound_failed|]. split; [exact progressToNextDrawer_failed|].
  split; [exact endGame_failed|]. split; [exact transitionPhase_failed|].
  split; [exact selectWord_failed|]. split; [exact autoSelectWord_failed|].
  exact validateGuess_failed.
Qed.

Lemma failed_call_changes_nothing_witness :
  success (snd (Rooms.joinRoom {[ "ABC123" := Fixtures.drawing_room ]} "p3"
                  (JS.Str "abc123"))) = false
  /\ fst (Rooms.joinRoom {[ "ABC123" := Fixtures.drawing_room ]} "p3"
            (JS.Str "abc123"))
     = {[ "ABC123" := Fixtures.drawing_room ]}
  /\ fst (WordEngine.selectWord Fixtures.word_select_room "p2" (JS.Str "cat"))
     = Fixtures.word_select_room.
Proof.
  destruct failed_call_changes_nothing
    as (_ & Hjoin & _ & _ & _ & _ & _ & _ & _ & _ & Hselect & _).
  split; [reflexivity|]. split.
  - apply Hjoin. reflexivity.
  - apply Hselect. reflexivity.
Defined.

(** ** Validated settings *)

Section ValidatedSettings.

Import JS Rooms.

Lemma validate_maxPlayers_fields (raw : Value) (v : Settings) :
  validate_maxPlayers raw v
  = mkSettings
      (match prop raw "maxPlayers" with
       | Num q => Z.max 2 (Z.min 12 (Qfloor q))
       | _ => maxPlayers v
       end)
      (drawTime v) (rounds v) (hints v) (customWords v).
Proof.
  unfold validate_maxPlayers. destruct (prop raw "maxPlayers"), v; reflexivity.
Qed.

Lemma validate_drawTime_fields (raw : Value) (v : Settings) :
  validate_drawTime raw v
  = mkSettings (maxPlayers v)
      (match prop raw "drawTime" with
       | Num q => Z.max 30 (Z.min 120 (Qfloor q))
       | _ => drawTime v
       end)
      (rounds v) (hints v) (customWords v).
Proof.
  unfold validate_drawTime. destruct (prop raw "drawTime"), v; reflexivity.
Qed.

Lemma validate_rounds_fields (raw : Value) (v : Settings) :
  validate_rounds raw v
  = mkSettings (maxPlayers v) (drawTime v)
      (match prop raw "rounds" with
       | Num q => Z.max 1 (Z.min 10 (Qfloor q))
       | _ => rounds v
       end)
      (hints v) (customWords v).
Proof.
  unfold validate_rounds. destruct (prop raw "rounds"), v; reflexivity.
Qed.

Lemma validate_hints_fields (raw : Value) (v : Settings) :
  validate_hints raw v
  = mkSettings (maxPlayers v) (drawTime v) (rounds v)
      (match prop raw "hints" with Bool b => b | _ => hints v end)
      (customWords v).
Proof.
  unfold validate_hints. destruct (prop raw "hints"), v; reflexivity.
Qed.

Lemma validate_customWords_fields (raw : Value) (v : Settings) :
  validate_customWords raw v
  = mkSettings (maxPlayers v) (drawTime v) (rounds v) (hints v)
      (match prop raw "customWords" with
       | Arr items => sanitize_words items
       | _ => customWords v
       end).
Proof.
  unfold validate_customWords. destruct (prop raw "customWords"), v; reflexivity.
Qed.

(** The settings that [validateSettings] builds from an object, field by
    field. *)
Lemma validateSettings_fields (raw : Value) :
  is_object raw = true ->
  validateSettings raw
  = mkSettings
      (match prop raw "maxPlayers" with
       | Num q => Z.max 2 (Z.min 12 (Qfloor q))
       | _ => 8
       end)
      (match prop raw "drawTime" with
       | Num q => Z.max 30 (Z.min 120 (Qfloor q))
       | _ => 80
       end)
      (match prop raw "rounds" with
       | Num q => Z.max 1 (Z.min 10 (Qfloor q))
       | _ => 3
       end)
      (match prop raw "hints" with Bool b => b | _ => true end)
      (match prop raw "customWords" with
       | Arr items => sanitize_words items
       | _ => []
       end).
Proof.
  intros Hobj. unfold validateSettings. rewrite Hobj. cbn [negb].
  rewrite validate_customWords_fields, validate_hints_fields,
    validate_rounds_fields, validate_drawTime_fields, validate_maxPlayers_fields.
  reflexivity.
Qed.

Lemma sanitize_words_clean (items : list Value) :
  Forall clean_word (sanitize_words items).
Proof.
  apply Forall_forall. intros w Hw.
  apply sanitize_words_elem in Hw. destruct Hw as (s & _ & -> & Hpos & Hlen).
  unfold clean_word, toLowerCase in *.
  rewrite trim_map_chars by exact lower_char_whitespace.
  rewrite trim_idempotent. fold (toLowerCase (trim s)).
  rewrite toLowerCase_idempotent. unfold toLowerCase.
  rewrite map_chars_length in *. auto.
Qed.

Lemma sanitize_clean_words (ws : list string) :
  Forall clean_word ws -> (length ws <= 50)%nat ->
  sanitize_words (map Str ws) = ws.
Proof.
  intros Hall Hlen. unfold sanitize_words.
  rewrite take_ge; [|].
  - induction Hall as [|w ws (Ht & Hl & Hpos & Hmax) _ IH]; [reflexivity|].
    cbn [map omap list_omap nonblank_string]. cbn in Hlen.
    rewrite Ht. destruct (Nat.ltb_spec 0 (String.length w)); [|lia].
    cbn [map List.filter]. rewrite Ht, Hl.
    destruct (Nat.leb_spec (String.length w) LIMITS_customWords_maxLength);
      [|unfold LIMITS_customWords_maxLength in *; lia].
    f_equal. apply IH. lia.
  - etransitivity; [|exact Hlen].
    clear Hlen. induction Hall as [|w ws (Ht & Hl & Hpos & Hmax) _ IH]; [cbn; lia|].
    cbn [map omap list_omap nonblank_string].
    rewrite Ht. destruct (Nat.ltb_spec 0 (String.length w)); [|lia].
    cbn [map List.filter]. rewrite Ht, Hl.
    destruct (Nat.leb_spec (String.length w) LIMITS_customWords_maxLength);
      [|unfold LIMITS_customWords_maxLength in *; lia].
    cbn [length]. unfold LIMITS_customWords_maxCount. lia.
Qed.

Lemma validateSettings_customWords_clean (raw : Value) :
  Forall clean_word (customWords (validateSettings raw))
  /\ (length (customWords (validateSettings raw)) <= 50)%nat.
Proof.
  rewrite validateSettings_customWords.
  destruct (if is_object raw then prop raw "customWords" else Undefined);
    try (split; [constructor|cbn; lia]).
  split; [apply sanitize_words_clean|apply sanitize_words_length].
Qed.

Lemma validateSettings_bounds (raw : Value) :
  2 <= maxPlayers (validateSettings raw) <= 12
  /\ 30 <= drawTime (validateSettings raw) <= 120
  /\ 1 <= rounds (validateSettings raw) <= 10.
Proof.
  destruct (is_object raw) eqn:Hobj.
  - rewrite (validateSettings_fields raw Hobj). cbn [maxPlayers drawTime rounds].
    destruct (prop raw "maxPlayers"), (prop raw "drawTime"), (prop raw "rounds");
      lia.
  - unfold validateSettings. rewrite Hobj. cbn. lia.
Qed.

Lemma validateSettings_of_valid (s : Settings) :
  2 <= maxPlayers s <= 12 -> 30 <= drawTime s <= 120 -> 1 <= rounds s <= 10 ->
  Forall clean_word (customWords s) -> (length (customWords s) <= 50)%nat ->
  validateSettings (settings_value s) = s.
Proof.
  intros Hm Hd Hr Hw Hl.
  rewrite (validateSettings_fields (settings_value s) eq_refl).
  change (prop (settings_value s) "maxPlayers") with (Num (inject_Z (maxPlayers s))).
  change (prop (settings_value s) "drawTime") with (Num (inject_Z (drawTime s))).
  change (prop (settings_value s) "rounds") with (Num (inject_Z (rounds s))).
  change (prop (settings_value s) "hints") with (Bool (hints s)).
  change (prop (settings_value s) "customWords")
    with (Arr (map Str (customWords s))).
  cbv iota. rewrite !Qfloor_Z, (sanitize_clean_words _ Hw Hl).
  destruct s as [mp dt rd h cw]. cbn in *. f_equal; lia.
Qed.

End ValidatedSettings.

(** X5: whatever the client sends as settings, the validated settings have
    [maxPlayers] in 2..12, [drawTime] in 30..120, [rounds] in 1..10 and at
    most 50 custom words, each trimmed, in lower case and of 1 to 50 code
    units; and validating the validated settings again gives them back. *)
Theorem validateSettings_bounded_and_idempotent (raw : JS.Value) :
  let s := Rooms.validateSettings raw in
  2 <= maxPlayers s <= 12
  /\ 30 <= drawTime s <= 120
  /\ 1 <= rounds s <= 10
  /\ (length (customWords s) <= 50)%nat
  /\ Forall Rooms.clean_word (customWords s)
  /\ Rooms.validateSettings (Rooms.settings_value s) = s.
Proof.
  cbn zeta.
  destruct (validateSettings_bounds raw) as (Hm & Hd & Hr).
  destruct (validateSettings_customWords_clean raw) as [Hw Hl].
  repeat (split; [assumption|]).
  apply validateSettings_of_valid; assumption.
Qed.

(** ** Shape of the rooms that the operations build *)

Section WellFormed.

Import Lifecycle.

Lemma indexOf_Some (p : string) (l : list string) (i : nat) :
  Rooms.indexOf p l = Some i ->
  l !! i = Some p /\ forall j, (j < i)%nat -> l !! j <> Some p.
Proof.
  unfold Rooms.indexOf. destruct (list_find _ l) as [[j x]|] eqn:E; [|discriminate].
  cbn. intros [= ->]. apply list_find_Some in E. destruct E as (Hi & -> & Hmin).
  split; [exact Hi|]. intros j Hj Hl. exact (Hmin j p Hl Hj eq_refl).
Qed.

Lemma indexOf_snoc (p : string) (l : list string) :
  p ∉ l -> Rooms.indexOf p (l ++ [p]) = Some (length l).
Proof.
  intros Hp. unfold Rooms.indexOf.
  assert (list_find (fun q => q = p) (l ++ [p]) = Some (length l, p)) as ->;
    [|reflexivity].
  apply list_find_Some. split; [|split; [reflexivity|]].
  - rewrite lookup_app_r by lia. rewrite Nat.sub_diag. reflexivity.
  - intros j y Hy Hj ->. apply Hp.
    rewrite lookup_app_l in Hy by exact Hj.
    eapply list_elem_of_lookup_2. exact Hy.
Qed.

Lemma delete_snoc (p : string) (l : list string) : delete (length l) (l ++ [p]) = l.
Proof.
  induction l as [|x l IH]; [reflexivity|].
  cbn [length app]. change (x :: delete (length l) (l ++ [p]) = x :: l).
  rewrite IH. reflexivity.
Qed.

Lemma elem_of_delete_other (x p : string) (l : list string) (i : nat) :
  l !! i = Some p -> x ∈ l -> x <> p -> x ∈ delete i l.
Proof.
  revert i. induction l as [|y l IH]; intros i Hi Hx Hne; [inversion Hx|].
  destruct i as [|i].
  - cbn in Hi. injection Hi as ->. cbn.
    apply elem_of_cons in Hx. destruct Hx as [->|Hx]; [contradiction|exact Hx].
  - change (x ∈ y :: delete i l). apply elem_of_cons.
    apply elem_of_cons in Hx. destruct Hx as [->|Hx]; [auto|].
    right. apply IH; assumption.
Qed.

Lemma NoDup_delete (l : list string) (i : nat) : NoDup l -> NoDup (delete i l).
Proof.
  intros H. eapply sublist_NoDup; [exact H|apply sublist_delete].
Qed.

Lemma not_elem_of_delete_NoDup (p : string) (l : list string) (i : nat) :
  NoDup l -> l !! i = Some p -> p ∉ delete i l.
Proof.
  revert i. induction l as [|y l IH]; intros i Hnd Hi; [discriminate|].
  apply NoDup_cons in Hnd. destruct Hnd as [Hy Hnd].
  destruct i as [|i].
  - cbn in Hi. injection Hi as ->. exact Hy.
  - change (p ∉ y :: delete i l). cbn in Hi.
    apply not_elem_of_cons. split.
    + intros ->. apply Hy. eapply list_elem_of_lookup_2. exact Hi.
    + apply IH; assumption.
Qed.

Lemma game_change_identity (r r' : Room) :
  game_change r r' -> id r' = id r /\ ownerId r' = ownerId r.
Proof. intros H. destruct H; auto. Qed.

Lemma room_change_well_formed (op : Op) (r r' : Room) :
  well_formed r -> room_change op r r' -> well_formed r' /\ id r' = id r.
Proof.
  unfold well_formed.
  destruct op as [| playerId roomId | playerId roomId | playerId roomId raw | key gop];
    cbn [room_change]; intros (Ho & Hnd).
  - intros [].
  - intros (_ & Hp & _ & ->). cbn. split; [|reflexivity]. split.
    + apply elem_of_app. auto.
    + apply NoDup_app. split; [exact Hnd|]. split; [|apply NoDup_singleton].
      intros x Hx Hx'. apply list_elem_of_singleton in Hx'. congruence.
  - intros (i & first & rest & Hi & Hd & ->).
    apply indexOf_Some in Hi. destruct Hi as [Hi _].
    pose proof (NoDup_delete (players r) i Hnd) as Hnd'. rewrite Hd in Hnd'.
    destruct (String.eqb_spec (ownerId r) playerId) as [He|Hne]; cbn.
    + split; [|reflexivity]. split; [apply elem_of_cons; auto|exact Hnd'].
    + split; [|reflexivity]. split; [|exact Hnd'].
      rewrite <- Hd. eapply elem_of_delete_other; eauto.
  - intros (_ & _ & ->). cbn. auto.
  - intros ->.
    destruct (game_change_members r _ (apply_game_op_change gop r)) as [-> _].
    destruct (game_change_identity r _ (apply_game_op_change gop r)) as [-> ->].
    auto.
Qed.

(** A room of a run is stored under its own id and is well formed. *)
Lemma run_from_well_formed (ops : list Op) (rooms : gmap string Room) :
  map_Forall (fun key r => id r = key /\ well_formed r) rooms ->
  map_Forall (fun key r => id r = key /\ well_formed r) (run_from rooms ops).
Proof.
  revert rooms. induction ops as [|op ops IH]; intros rooms Hinv; [exact Hinv|].
  unfold run_from. cbn [foldl]. apply IH.
  intros key r' Hr'. apply step_lookup in Hr'.
  destruct Hr' as [Hold|[(draw & playerId & raw & _ & ->)|(r & Ht & Hr & Hc)]].
  - exact (Hinv key r' Hold).
  - cbn. split; [reflexivity|]. split; [apply list_elem_of_singleton; reflexivity|].
    apply NoDup_singleton.
  - destruct (Hinv key r Hr) as [Hid Hwf].
    destruct (room_change_well_formed op r r' Hwf Hc) as [Hwf' Hid'].
    split; [congruence|exact Hwf'].
Qed.

Lemma run_well_formed (ops : list Op) (key : string) (r : Room) :
  run ops !! key = Some r -> id r = key /\ well_formed r.
Proof.
  intros Hr.
  exact (run_from_well_formed ops ∅ (map_Forall_empty _) key r Hr).
Qed.

End WellFormed.

(** X6: every room that the room and engine operations can build is stored
    under its own id, has its owner among its members, lists no member
    twice, and has at least one member. *)
Theorem reachable_room_is_well_formed (ops : list Lifecycle.Op) (key : string)
    (r : Room) :
  Lifecycle.run ops !! key = Some r ->
  id r = key
  /\ ownerId r ∈ players r
  /\ NoDup (players r)
  /\ players r <> [].
Proof.
  intros Hr. destruct (run_well_formed ops key r Hr) as (Hid & Ho & Hnd).
  repeat split; try assumption.
  intros E. rewrite E in Ho. inversion Ho.
Qed.

Lemma reachable_room_is_well_formed_witness :
  ownerId Fixtures.guessed_room ∈ players Fixtures.guessed_room
  /\ NoDup (players Fixtures.guessed_room).
Proof.
  pose proof (reachable_room_is_well_formed Fixtures.guessed_ops "ABC123"
                Fixtures.guessed_room run_guessed_ops) as (_ & Ho & Hnd & _).
  auto.
Defined.

(** X7: in a Map of rooms that the operations built, a player who joins a
    room and then leaves it leaves the Map exactly as it was before the
    join: same members in the same order, same owner. *)
Theorem join_then_leave_restores (ops : list Lifecycle.Op) (playerId : string)
    (roomId : JS.Value) :
  let rooms := Lifecycle.run ops in
  success (snd (Rooms.joinRoom rooms playerId roomId)) = true ->
  Rooms.leaveRoom (fst (Rooms.joinRoom rooms playerId roomId)) playerId roomId
  = (rooms,
     ok (Rooms.getRoom rooms roomId, false)).
Proof.
  cbn zeta. unfold Rooms.joinRoom, Rooms.getRoom.
  destruct (Lifecycle.run ops !! Rooms.normalizeRoomId roomId) as [r|] eqn:Hr;
    [|discriminate].
  destruct (run_well_formed ops _ r Hr) as (_ & Ho & Hnd).
  destruct (bool_decide (status r = WAITING)); cbn [negb]; [|discriminate].
  destruct (bool_decide (playerId ∈ players r)) eqn:Hp; [discriminate|].
  apply bool_decide_eq_false in Hp.
  destruct (_ <=? _); [discriminate|]. intros _. cbn [fst].
  unfold Rooms.leaveRoom. rewrite lookup_insert_eq. cbn [players set_players].
  rewrite (indexOf_snoc playerId (players r) Hp), delete_snoc.
  destruct (players r) as [|first rest] eqn:Hl; [inversion Ho|].
  cbn [ownerId set_players].
  destruct (String.eqb_spec (ownerId r) playerId) as [He|Hne].
  - exfalso. apply Hp. rewrite <- He. exact Ho.
  - rewrite insert_insert_eq.
    replace (set_players (first :: rest)
               (set_players ((first :: rest) ++ [playerId]) r))
      with r by (destruct r; unfold set_players; cbn in *; subst; reflexivity).
    rewrite insert_id by exact Hr. reflexivity.
Qed.

Lemma join_then_leave_restores_witness :
  Rooms.leaveRoom
    (fst (Rooms.joinRoom (Lifecycle.run Fixtures.lobby_ops) "p4" (JS.Str "abc123")))
    "p4" (JS.Str "abc123")
  = (Lifecycle.run Fixtures.lobby_ops,
     ok (Rooms.getRoom (Lifecycle.run Fixtures.lobby_ops) (JS.Str "abc123"), false)).
Proof.
  apply (join_then_leave_restores Fixtures.lobby_ops "p4" (JS.Str "abc123")).
  reflexivity.
Defined.

(** ** The schedule of a game *)

Section Schedule.

Import Lifecycle.

Lemma succ_div_mod (k n : nat) :
  (0 < n)%nat ->
  (S k mod n = if (n <=? k mod n + 1) then 0 else k mod n + 1)%nat
  /\ (S k / n = k / n + if (n <=? k mod n + 1) then 1 else 0)%nat.
Proof.
  intros Hn.
  pose proof (Nat.div_mod_eq k n) as Hk.
  pose proof (Nat.mod_upper_bound k n ltac:(lia)) as Hlt.
  destruct (Nat.leb_spec n (k mod n + 1)) as [Hw|Hw].
  - split.
    + symmetry. apply (Nat.mod_unique (S k) n (k / n + 1)); lia.
    + symmetry. apply (Nat.div_unique (S k) n (k / n + 1) 0); lia.
  - split.
    + symmetry. apply (Nat.mod_unique (S k) n (k / n)); lia.
    + symmetry. apply (Nat.div_unique (S k) n (k / n + 0) (k mod n + 1)); lia.
Qed.

Lemma endRound_room (r : Room) (g : Game) :
  game r = Some g -> status r = IN_GAME ->
  fst (GameEngine.endRound r) = set_game (Some (set_phase ROUND_END g)) r.
Proof.
  intros Hg Hs. unfold GameEngine.endRound.
  rewrite (hasActiveGame_true r g Hg Hs), Hg. cbn [negb fst].
  destruct (_ && _); reflexivity.
Qed.

Lemma progressToNextDrawer_room (r : Room) (g : Game) :
  game r = Some g -> status r = IN_GAME ->
  let next := (drawerIndex g + 1)%nat in
  let wrapped := (length (players r) <=? next)%nat in
  let index := if wrapped then 0%nat else next in
  fst (GameEngine.progressToNextDrawer r)
  = set_game
      (Some (set_phase WORD_SELECT
               (set_guessedPlayers []
                  (set_drawer index (players r !! index)
                     (if wrapped then set_currentRound (currentRound g + 1) g
                      else g)))))
      r.
Proof.
  intros Hg Hs. cbn zeta. unfold GameEngine.progressToNextDrawer.
  rewrite (hasActiveGame_true r g Hg Hs). cbn [negb fst].
  unfold GameEngine.getNextDrawer. rewrite Hg.
  unfold GameEngine.startRound.
  erewrite hasActiveGame_true by (cbn; eauto). reflexivity.
Qed.

Lemma next_turn_scheduled (r : Room) (k : nat) :
  (0 < length (players r))%nat ->
  next_turn (scheduled r k) = scheduled r (S k).
Proof.
  intros Hn. unfold next_turn.
  erewrite (endRound_room (scheduled r k)) by reflexivity.
  erewrite progressToNextDrawer_room by reflexivity.
  destruct (succ_div_mod k (length (players r)) Hn) as [Hmod Hdiv].
  unfold scheduled. rewrite Hmod, Hdiv.
  cbn [players set_game set_status drawerIndex set_phase currentRound].
  destruct (length (players r) <=? k mod length (players r) + 1)%nat;
    unfold set_status, set_game, set_phase, set_guessedPlayers, set_drawer,
      set_currentRound; cbn.
  - replace (1 + Z.of_nat (k / length (players r)) + 1)
      with (1 + Z.of_nat (k / length (players r) + 1)) by lia.
    reflexivity.
  - rewrite Nat.add_0_r. reflexivity.
Qed.

Lemma startGame_scheduled (r : Room) (playerId : string) :
  success (snd (GameEngine.startGame r playerId)) = true ->
  fst (GameEngine.startGame r playerId) = scheduled r 0
  /\ (2 <= length (players r))%nat /\ ownerId r = playerId /\ status r = WAITING.
Proof.
  unfold GameEngine.startGame, GameEngine.canStartGame.
  destruct (String.eqb_spec (ownerId r) playerId) as [Ho|Ho]; cbn [negb fst snd];
    [|discriminate].
  destruct (bool_decide (status r = WAITING)) eqn:Es; cbn [negb fst snd];
    [|discriminate].
  destruct (Nat.ltb_spec (length (players r)) 2); cbn [negb fst snd]; [discriminate|].
  intros _. apply bool_decide_eq_true in Es.
  split; [|auto].
  unfold scheduled, GameEngine.initializeGameState.
  rewrite Nat.Div0.div_0_l, Nat.Div0.mod_0_l. reflexivity.
Qed.

Lemma after_turns_scheduled (r : Room) (playerId : string) (k : nat) :
  success (snd (GameEngine.startGame r playerId)) = true ->
  after_turns k r playerId = scheduled r k.
Proof.
  intros Hok. destruct (startGame_scheduled r playerId Hok) as (H0 & Hn & _).
  unfold after_turns. rewrite H0.
  induction k as [|k IH]; [reflexivity|].
  change (next_turn (Nat.iter k next_turn (scheduled r 0)) = scheduled r (S k)).
  rewrite IH. apply next_turn_scheduled. lia.
Qed.

Lemma endRound_scheduled (r : Room) (k : nat) :
  snd (data (snd (GameEngine.endRound (scheduled r k))))
  = (Z.of_nat (k mod length (players r)) =? Z.of_nat (length (players r)) - 1)
    && (rounds (settings r) <=? 1 + Z.of_nat (k / length (players r))).
Proof.
  unfold GameEngine.endRound.
  erewrite hasActiveGame_true by (cbn; eauto).
  cbn [negb fst snd scheduled game set_status set_game].
  cbn [set_phase drawerIndex players totalRounds currentRound].
  destruct (_ && _); reflexivity.
Qed.

End Schedule.

(** X8: a game started in a room of [n] members with [R] rounds runs for
    exactly [n * R] turns. After [k] turns the drawer is the member at
    position [k mod n] of the list, the round is [1 + k / n], nobody has
    guessed, and the phase is word selection; ending the round of that turn
    reports the end of the game for [k = n * R - 1] and for no earlier
    turn. *)
Theorem game_lasts_players_times_rounds (r : Room) (playerId : string) (k : nat) :
  success (snd (GameEngine.startGame r playerId)) = true ->
  let n := length (players r) in
  let R := rounds (settings r) in
  let room := Lifecycle.after_turns k r playerId in
  (exists g,
     game room = Some g /\ status room = IN_GAME /\ players room = players r
     /\ phase g = WORD_SELECT /\ guessedPlayers g = []
     /\ drawerIndex g = (k mod n)%nat
     /\ drawerId g = players r !! (k mod n)%nat
     /\ currentRound g = 1 + Z.of_nat (k / n)
     /\ totalRounds g = R)
  /\ (1 <= R ->
      (Z.of_nat k < Z.of_nat n * R - 1 ->
       snd (data (snd (GameEngine.endRound room))) = false)
      /\ (Z.of_nat k = Z.of_nat n * R - 1 ->
          snd (data (snd (GameEngine.endRound room))) = true)).
Proof.
  intros Hok. cbn zeta. rewrite (after_turns_scheduled r playerId k Hok).
  destruct (startGame_scheduled r playerId Hok) as (_ & Hn & _).
  split.
  - eexists. split; [reflexivity|]. repeat split.
  - intros HR. rewrite endRound_scheduled.
    pose proof (Nat.div_mod_eq k (length (players r))) as Hk.
    pose proof (Nat.mod_upper_bound k (length (players r)) ltac:(lia)) as Hlt.
    set (n := length (players r)) in *. set (q := (k / n)%nat) in *.
    set (m := (k mod n)%nat) in *. set (R := rounds (settings r)) in *.
    split; intros Hlast.
    + apply andb_false_iff.
      destruct (Z.eqb_spec (Z.of_nat m) (Z.of_nat n - 1)) as [Em|Em]; [|auto].
      right. apply Z.leb_gt. nia.
    + assert (Z.of_nat n * (R - Z.of_nat q) = Z.of_nat m + 1) as Hprod by lia.
      assert (R - Z.of_nat q = 1) as Hone.
      { destruct (Z.lt_trichotomy (R - Z.of_nat q) 1) as [Hlo|[Heq|Hhi]];
          [|exact Heq|]; exfalso; nia. }
      apply andb_true_iff. split; [apply Z.eqb_eq|apply Z.leb_le]; nia.
Qed.

Lemma game_lasts_players_times_rounds_witness :
  (exists g,
     game (Lifecycle.after_turns 5 Fixtures.lobby "p1") = Some g
     /\ drawerId g = Some "p2" /\ currentRound g = 3)
  /\ snd (data (snd (GameEngine.endRound
                       (Lifecycle.after_turns 4 Fixtures.lobby "p1")))) = false
  /\ snd (data (snd (GameEngine.endRound
                       (Lifecycle.after_turns 5 Fixtures.lobby "p1")))) = true.
Proof.
  destruct (game_lasts_players_times_rounds Fixtures.lobby "p1" 5 eq_refl)
    as ((g & Hg & _ & _ & _ & _ & _ & Hd & Hr & _) & Hend).
  destruct (game_lasts_players_times_rounds Fixtures.lobby "p1" 4 eq_refl)
    as (_ & Hnot).
  split; [exists g; auto|]. split.
  - apply Hnot; vm_compute; [discriminate|reflexivity].
  - apply Hend; vm_compute; [discriminate|reflexivity].
Defined.

(** ** Who has guessed *)

Section Guessed.

Import Lifecycle.

(** An engine call leaves the list of those who guessed as it was, empties
    it, or appends a player who was not on it. *)
Lemma apply_game_op_guessed (op : GameOp) (r : Room) (g' : Game) :
  game (apply_game_op op r) = Some g' ->
  guessedPlayers g' = []
  \/ exists g, game r = Some g
       /\ (guessedPlayers g' = guessedPlayers g
           \/ exists p, (p ∉ guessedPlayers g)
                /\ guessedPlayers g' = guessedPlayers g ++ [p]).
Proof.
  destruct op; cbn [apply_game_op];
    unfold GameEngine.startGame, GameEngine.startRound, GameEngine.endRound,
      GameEngine.progressToNextDrawer, GameEngine.getNextDrawer, GameEngine.endGame,
      GameEngine.resetGame, GameEngine.transitionPhase, WordEngine.selectWord,
      WordEngine.autoSelectWord, WordEngine.store_and_draw,
      GameEngine.transitionPhase, WordEngine.clearWordSelection,
      GuessEngine.validateGuess, ScoreEngine.initializeRoundStartTime,
      GameEngine.startRound;
    repeat case_match; simplify_eq/=; intros; simplify_eq/=; eauto 8.
  right. eexists. split; [reflexivity|]. right. exists playerId.
  split; [|reflexivity].
  match goal with H : bool_decide _ = false |- _ => apply bool_decide_eq_false in H; exact H end.
Qed.

Lemma room_change_guessed_once (op : Op) (r r' : Room) :
  guessed_once r -> room_change op r r' -> guessed_once r'.
Proof.
  unfold guessed_once.
  destruct op as [| playerId roomId | playerId roomId | playerId roomId raw | key gop];
    cbn [room_change]; intros Hinv.
  - intros [].
  - intros (_ & _ & _ & ->). exact Hinv.
  - intros (i & first & rest & _ & _ & ->).
    destruct (leave_keeps_game playerId first rest r) as [-> _]. exact Hinv.
  - intros (_ & _ & ->). exact Hinv.
  - intros -> g' Hg'. apply apply_game_op_guessed in Hg'.
    destruct Hg' as [->|(g & Hg & [->|(p & Hp & ->)])].
    + apply NoDup_nil_2.
    + exact (Hinv g Hg).
    + apply NoDup_app. split; [exact (Hinv g Hg)|]. split; [|apply NoDup_singleton].
      intros x Hx Hx'. apply list_elem_of_singleton in Hx'. congruence.
Qed.

Lemma run_guessed_once (ops : list Op) (key : string) (r : Room) :
  run ops !! key = Some r -> guessed_once r.
Proof.
  intros Hr.
  refine (run_preserves guessed_once (fun _ _ => true) _ _ ops ∅ _ _ key r Hr).
  - intros k p raw g. cbn. discriminate.
  - intros rooms op k r0 r' _ _ _. apply room_change_guessed_once.
  - apply map_Forall_empty.
  - apply respects_all.
Qed.

End Guessed.

(** X9: in every room that the operations can build, the list of players
    who guessed the word of the current round names no player twice and
    never names the drawer. *)
Theorem guessed_players_counted_once (ops : list Lifecycle.Op) (key : string)
    (r : Room) (g : Game) :
  Lifecycle.run ops !! key = Some r -> game r = Some g ->
  NoDup (guessedPlayers g)
  /\ (forall p, drawerId g = Some p -> p ∉ guessedPlayers g).
Proof.
  intros Hr Hg. split.
  - exact (run_guessed_once ops key r Hr g Hg).
  - intros p Hp. exact (proj2 (run_sound ops key r Hr) g p Hg Hp).
Qed.

Lemma guessed_players_counted_once_witness :
  NoDup ["p2"] /\ "p1" ∉ ["p2"].
Proof.
  destruct (guessed_players_counted_once Fixtures.guessed_ops "ABC123"
              Fixtures.guessed_room _ run_guessed_ops eq_refl) as [Hnd Hdr].
  split; [exact Hnd|exact (Hdr "p1" eq_refl)].
Defined.

(** ** A guess against the selected word *)

Section GuessAgainstWord.

Lemma length_nonempty (s : string) : (1 <= String.length s)%nat -> s <> "".
Proof. destruct s; cbn; [lia|discriminate]. Qed.

Lemma eqb_nonempty (s : string) : (1 <= String.length s)%nat -> String.eqb s "" = false.
Proof. destruct s; cbn; [lia|reflexivity]. Qed.

Lemma trim_empty : JS.trim "" = "".
Proof. reflexivity. Qed.

Lemma trim_nonempty_arg (s : string) :
  (1 <= String.length (JS.trim s))%nat -> String.eqb s "" = false.
Proof. destruct s; cbn; [lia|reflexivity]. Qed.

Lemma normalized_fixed (s : string) :
  JS.toLowerCase (JS.trim (JS.toLowerCase (JS.trim s))) = JS.toLowerCase (JS.trim s).
Proof.
  unfold JS.toLowerCase at 2.
  rewrite trim_map_chars by exact lower_char_whitespace.
  rewrite trim_idempotent. apply toLowerCase_idempotent.
Qed.

Lemma toLowerCase_length (s : string) :
  String.length (JS.toLowerCase s) = String.length s.
Proof. apply map_chars_length. Qed.

Lemma selectWord_accepts (room : Room) (g : Game) (drawer word : string) :
  game room = Some g -> status room = IN_GAME -> phase g = WORD_SELECT ->
  drawerId g = Some drawer ->
  (1 <= String.length (JS.trim word))%nat ->
  let w := JS.toLowerCase (JS.trim word) in
  WordEngine.selectWord room drawer (JS.Str word)
  = (set_game
       (Some (set_phase DRAWING
                (set_words (Some w) (Some (WordEngine.maskWord w)) g)))
       room,
     ok (Some (WordEngine.maskWord w))).
Proof.
  intros Hg Hs Hph Hd Hlen. cbn zeta. unfold WordEngine.selectWord.
  rewrite (hasActiveGame_true room g Hg Hs), Hg. cbn [negb fst snd].
  unfold GameEngine.isCurrentDrawer. rewrite Hg, Hd.
  rewrite bool_decide_eq_true_2 by reflexivity.
  rewrite (bool_decide_eq_true_2 _ Hph). cbn [negb].
  unfold WordEngine.normalizeWord. rewrite (trim_nonempty_arg word Hlen).
  rewrite toLowerCase_length.
  destruct (Nat.eqb_spec (String.length (JS.trim word)) 0); [lia|].
  unfold WordEngine.store_and_draw, GameEngine.transitionPhase.
  erewrite hasActiveGame_true by (cbn; eauto). reflexivity.
Qed.

Lemma validateGuessFormat_accepts (guess : string) :
  (1 <= String.length (JS.trim guess) <= 50)%nat ->
  GuessEngine.validateGuessFormat guess
  = (true, JS.toLowerCase (JS.trim guess), None).
Proof.
  intros [Hlo Hhi]. unfold GuessEngine.validateGuessFormat, GuessEngine.normalizeGuess.
  rewrite (trim_nonempty_arg guess Hlo), toLowerCase_length.
  unfold GuessEngine.MIN_GUESS_LENGTH, GuessEngine.MAX_GUESS_LENGTH.
  destruct (Nat.ltb_spec (String.length (JS.trim guess)) 1); [lia|].
  destruct (Nat.ltb_spec 50 (String.length (JS.trim guess))); [lia|]. reflexivity.
Qed.

End GuessAgainstWord.

(** X10: once the drawer has selected a word, a guess of 1 to 50 code units
    by a player who is not the drawer and has not guessed yet is accepted,
    and it is judged correct exactly when it equals the selected word up to
    letter case and surrounding white space. A correct guess puts the
    player last on the list of those who guessed; a wrong one changes
    nothing. *)
Theorem guess_correct_iff_word_up_to_case_and_space (room : Room) (g : Game)
    (drawer guesser word guess : string) :
  game room = Some g -> status room = IN_GAME -> phase g = WORD_SELECT ->
  drawerId g = Some drawer -> guesser <> drawer -> guesser ∉ guessedPlayers g ->
  (1 <= String.length (JS.trim word))%nat ->
  (1 <= String.length (JS.trim guess) <= 50)%nat ->
  let selected := fst (WordEngine.selectWord room drawer (JS.Str word)) in
  let judged := GuessEngine.validateGuess selected guesser guess in
  success (snd judged) = true
  /\ (data (snd judged) = true
      <-> JS.toLowerCase (JS.trim guess) = JS.toLowerCase (JS.trim word))
  /\ (data (snd judged) = true ->
      GuessEngine.getGuessedPlayers (fst judged) = guessedPlayers g ++ [guesser])
  /\ (data (snd judged) = false -> fst judged = selected).
Proof.
  intros Hg Hs Hph Hd Hne Hnew Hword Hguess. cbn zeta.
  rewrite (selectWord_accepts room g drawer word Hg Hs Hph Hd Hword). cbn [fst].
  unfold GuessEngine.validateGuess.
  erewrite hasActiveGame_true by (cbn; eauto).
  cbn [negb fst snd game set_game].
  rewrite bool_decide_eq_true_2 by reflexivity. cbn [negb].
  unfold GameEngine.isCurrentDrawer. cbn [game set_game set_phase set_words drawerId].
  rewrite Hd. rewrite bool_decide_eq_false_2 by congruence.
  cbn [guessedPlayers]. rewrite (bool_decide_eq_false_2 _ Hnew).
  rewrite (validateGuessFormat_accepts guess Hguess). cbn [negb].
  unfold WordEngine.getSelectedWord, WordEngine.truthy_string.
  cbn [game set_game selectedWord set_phase set_words].
  rewrite eqb_nonempty by (rewrite toLowerCase_length; exact Hword).
  unfold WordEngine.normalizeWord.
  rewrite eqb_nonempty by (rewrite toLowerCase_length; exact Hword).
  rewrite normalized_fixed.
  destruct (String.eqb_spec (JS.toLowerCase (JS.trim guess))
              (JS.toLowerCase (JS.trim word))) as [E|E]; cbn.
  - unfold GuessEngine.getGuessedPlayers. cbn. repeat split; auto; discriminate.
  - repeat split; auto; try discriminate.
Qed.

Lemma guess_correct_iff_word_up_to_case_and_space_witness :
  data (snd (GuessEngine.validateGuess
               (fst (WordEngine.selectWord Fixtures.word_select_room "p1"
                       (JS.Str " Ice Cream")))
               "p2" "ICE CREAM  ")) = true.
Proof.
  destruct (guess_correct_iff_word_up_to_case_and_space Fixtures.word_select_room
              _ "p1" "p2" " Ice Cream" "ICE CREAM  " eq_refl eq_refl eq_refl eq_refl)
    as (_ & Hiff & _).
  - discriminate.
  - apply not_elem_of_nil.
  - vm_compute. lia.
  - vm_compute. lia.
  - apply Hiff. reflexivity.
Defined.

(** ** The range of the score *)

Section ScoreRange.

Import Binary64 ScoreEngine.
Local Open Scope Q_scope.

Lemma Qle_bool_false_inv (a b : Q) : Qle_bool a b = false -> b < a.
Proof.
  intros E. apply Qnot_le_lt. intros H. apply Qle_bool_iff in H. congruence.
Qed.

Lemma Qltb_false_inv (a b : Q) : Qltb a b = false -> b <= a.
Proof.
  unfold Qltb. intros E. apply negb_false_iff in E. apply Qle_bool_iff. exact E.
Qed.

(** The guard of [calculateScore] lets through exactly the guess times of
    the window. *)
Lemma score_guard (roundTime guessTime : Q) :
  Qle_bool roundTime 0 || Qltb guessTime 0 || Qltb roundTime guessTime = false
  <-> 0 < roundTime /\ 0 <= guessTime /\ guessTime <= roundTime.
Proof.
  rewrite !orb_false_iff. split.
  - intros [[H1 H2] H3]. split; [apply Qle_bool_false_inv; exact H1|].
    split; apply Qltb_false_inv; assumption.
  - intros (H1 & H2 & H3). split; [split|].
    + apply Qle_bool_false. exact H1.
    + apply Qltb_false. exact H2.
    + apply Qltb_false. exact H3.
Qed.

Lemma ratio_bounds (roundTime guessTime : Q) :
  0 < roundTime -> 0 <= guessTime -> guessTime <= roundTime ->
  0 <= guessTime / roundTime <= 1.
Proof.
  intros Hr H0 H1. split.
  - apply Qle_shift_div_l; [exact Hr|]. lra.
  - apply Qle_shift_div_r; [exact Hr|]. lra.
Qed.

Lemma finish_monotone (s1 s2 : Q) (isDrawer : bool) :
  s1 <= s2 -> (finish s1 isDrawer <= finish s2 isDrawer)%Z.
Proof.
  intros H. unfold finish, DRAWER_SCORE_MULTIPLIER.
  apply Z.max_le_compat_l. destruct isDrawer.
  - rewrite !Qfloor_Z. apply Qfloor_resp_le. apply round64_monotone. lra.
  - apply Qfloor_resp_le. exact H.
Qed.

Lemma finish_100 (isDrawer : bool) :
  finish 100 isDrawer = (if isDrawer then 50 else 100)%Z.
Proof. destruct isDrawer; vm_compute; reflexivity. Qed.

Lemma finish_200 (isDrawer : bool) :
  finish 200 isDrawer = (if isDrawer then 100 else 200)%Z.
Proof. destruct isDrawer; vm_compute; reflexivity. Qed.

Lemma rounding_steps_antitone (q1 q2 : Q) :
  q1 <= q2 ->
  round64 (BASE_SCORE + round64 (MAX_TIME_BONUS * round64 (1 - round64 q2)))
  <= round64 (BASE_SCORE + round64 (MAX_TIME_BONUS * round64 (1 - round64 q1))).
Proof.
  intros H. unfold BASE_SCORE, MAX_TIME_BONUS.
  pose proof (round64_monotone _ _ H) as H1.
  assert (round64 (1 - round64 q2) <= round64 (1 - round64 q1)) as H2.
  { apply round64_monotone. lra. }
  assert (round64 (100 * round64 (1 - round64 q2))
          <= round64 (100 * round64 (1 - round64 q1))) as H3.
  { apply round64_monotone. lra. }
  apply round64_monotone. lra.
Qed.

Lemma calculateScore_cases (roundTime guessTime : Q) (isDrawer : bool) :
  (0 < roundTime /\ 0 <= guessTime /\ guessTime <= roundTime
   /\ calculateScore_of_numbers roundTime guessTime isDrawer
      = finish (round64 (BASE_SCORE
                         + round64 (MAX_TIME_BONUS
                                    * round64 (1 - round64 (guessTime / roundTime)))))
          isDrawer)
  \/ (~ (0 < roundTime /\ 0 <= guessTime /\ guessTime <= roundTime)
      /\ calculateScore_of_numbers roundTime guessTime isDrawer = MIN_SCORE).
Proof.
  unfold calculateScore_of_numbers.
  destruct (Qle_bool roundTime 0 || Qltb guessTime 0 || Qltb roundTime guessTime)
    eqn:E.
  - right. split; [|reflexivity]. intros H. apply score_guard in H. congruence.
  - left. apply score_guard in E. destruct E as (? & ? & ?). auto.
Qed.

Lemma score_in_round (roundTime guessTime : Q) (isDrawer : bool) :
  0 < roundTime -> 0 <= guessTime -> guessTime <= roundTime ->
  ((if isDrawer then 50 else 100)
   <= calculateScore_of_numbers roundTime guessTime isDrawer
   <= (if isDrawer then 100 else 200))%Z.
Proof.
  intros Hr H0 H1.
  destruct (calculateScore_cases roundTime guessTime isDrawer)
    as [(_ & _ & _ & ->)|[Hn _]]; [|exfalso; auto].
  destruct (rounding_steps _ (ratio_bounds _ _ Hr H0 H1)) as [[Hlo Hhi] _].
  rewrite <- finish_100, <- finish_200.
  split; apply finish_monotone; assumption.
Qed.

Lemma score_range (roundTime guessTime : Q) (isDrawer : bool) :
  (10 <= calculateScore_of_numbers roundTime guessTime isDrawer <= 200)%Z.
Proof.
  destruct (calculateScore_cases roundTime guessTime isDrawer)
    as [(Hr & H0 & H1 & _)|[_ ->]]; [|unfold MIN_SCORE; lia].
  pose proof (score_in_round _ _ isDrawer Hr H0 H1). destruct isDrawer; lia.
Qed.

Lemma score_antitone (roundTime earlier later : Q) (isDrawer : bool) :
  0 <= earlier -> earlier <= later -> later <= roundTime ->
  (calculateScore_of_numbers roundTime later isDrawer
   <= calculateScore_of_numbers roundTime earlier isDrawer)%Z.
Proof.
  intros H0 H12 H2.
  destruct (calculateScore_cases roundTime later isDrawer)
    as [(Hr & _ & _ & ->)|[_ ->]].
  - destruct (calculateScore_cases roundTime earlier isDrawer)
      as [(_ & _ & _ & ->)|[Hn _]].
    + apply finish_monotone. apply rounding_steps_antitone.
      apply scaled_le; assumption.
    + exfalso. apply Hn. repeat split; try assumption. lra.
  - pose proof (score_range roundTime earlier isDrawer). unfold MIN_SCORE. lia.
Qed.

End ScoreRange.

(** X11: on numbers [calculateScore] returns an integer between 10 and 200,
    whatever the times. For a guess inside the round (between its start and
    the draw time) a guesser gets at least 100 and the drawer rate gives 50
    to 100, and of two guesses inside the round the later one never scores
    more; the roundings of the double arithmetic do not disturb this. A
    guess time that is NaN gives NaN, unless the round time is not positive,
    and a round time that is NaN gives NaN unless the guess time is
    negative. *)
Theorem calculateScore_bounded_and_antitone :
  (forall (roundTime guessTime : Q) (isDrawer : bool),
     exists awarded,
       ScoreEngine.calculateScore (Some roundTime) (Some guessTime) isDrawer
       = Some awarded
       /\ 10 <= awarded <= 200)
  /\ (forall (roundTime guessTime : Q) (isDrawer : bool),
        (0 < roundTime)%Q -> (0 <= guessTime)%Q -> (guessTime <= roundTime)%Q ->
        exists awarded,
          ScoreEngine.calculateScore (Some roundTime) (Some guessTime) isDrawer
          = Some awarded
          /\ (if isDrawer then 50 else 100) <= awarded
             <= (if isDrawer then 100 else 200))
  /\ (forall (roundTime earlier later : Q) (isDrawer : bool),
        (0 <= earlier)%Q -> (earlier <= later)%Q -> (later <= roundTime)%Q ->
        exists first second,
          ScoreEngine.calculateScore (Some roundTime) (Some earlier) isDrawer
          = Some first
          /\ ScoreEngine.calculateScore (Some roundTime) (Some later) isDrawer
             = Some second
          /\ second <= first)
  /\ (forall (roundTime : Q) (isDrawer : bool),
        ScoreEngine.calculateScore (Some roundTime) None isDrawer
        = if Qle_bool roundTime 0 then Some 10 else None)
  /\ (forall (guessTime : Q) (isDrawer : bool),
        ScoreEngine.calculateScore None (Some guessTime) isDrawer
        = if ScoreEngine.Qltb guessTime 0 then Some 10 else None)
  /\ (forall isDrawer : bool,
        ScoreEngine.calculateScore None None isDrawer = None).
Proof.
  split; [|split; [|split; [|split; [|split]]]].
  - intros r g d. eexists. split; [apply calculateScore_numbers|].
    apply score_range.
  - intros r g d Hr H0 H1. eexists. split; [apply calculateScore_numbers|].
    apply score_in_round; assumption.
  - intros r g1 g2 d H0 H12 H2. eexists. eexists.
    split; [apply calculateScore_numbers|].
    split; [apply calculateScore_numbers|].
    apply score_antitone; assumption.
  - intros r d. unfold ScoreEngine.calculateScore, Binary64.le, Binary64.lt.
    destruct (Qle_bool r 0); reflexivity.
  - intros g d. unfold ScoreEngine.calculateScore, Binary64.le, Binary64.lt,
      ScoreEngine.Qltb.
    destruct (Qle_bool 0 g); reflexivity.
  - intros d. reflexivity.
Qed.

Lemma calculateScore_bounded_and_antitone_witness :
  (exists awarded,
     ScoreEngine.calculateScore (Some 80%Q) (Some 10%Q) false = Some awarded
     /\ 100 <= awarded <= 200)
  /\ (exists first second,
        ScoreEngine.calculateScore (Some 80%Q) (Some 10%Q) false = Some first
        /\ ScoreEngine.calculateScore (Some 80%Q) (Some 40%Q) false = Some second
        /\ second <= first).
Proof.
  destruct calculateScore_bounded_and_antitone as (_ & Hin & Hanti & _).
  split.
  - apply (Hin 80%Q 10%Q false); vm_compute; first [reflexivity|discriminate].
  - apply (Hanti 80%Q 10%Q 40%Q false); vm_compute; discriminate.
Defined.

(** ** Scoring the same guess twice *)

Section AwardOnce.

Import ScoreEngine.

Lemma getGuessTime_recorded (times : GuessTimes) (roomId : string) (round : Z)
    (playerId : string) (t : Z) :
  t <> 0 ->
  getGuessTime (recordGuessTime times roomId round playerId t) roomId round playerId
  = Some t.
Proof.
  intros Ht. unfold getGuessTime, recordGuessTime, GuessTimes in *. cbv zeta.
  rewrite !lookup_insert_eq.
  destruct (Z.eqb_spec t 0); [contradiction|reflexivity].
Qed.

Lemma score_or_0_initialized (reg : Players.Registry) (player : Player) :
  score_or_0 (snd (initialize_score reg player)) = score_or_0 player.
Proof.
  unfold initialize_score, score_or_0.
  destruct player as [? ? ? ? [z|]]; reflexivity.
Qed.

End AwardOnce.

(** X12: a correct guess is scored once per round. After [awardGuessScore]
    has scored a player, a second call for the same player in the same round,
    at whatever time, changes neither the registry nor the recorded times,
    and reports the round score of the first call with the player's total as
    it stands. The round has a start time, and the first guess a non-zero
    timestamp. *)
Theorem awardGuessScore_awards_once (now now' t t' s : Z)
    (getPlayer : Players.Registry -> string -> option Player)
    (update : string -> Z -> Players.Registry -> Players.Registry)
    (st : ScoreEngine.Store) (room : Room) (g : Game) (playerId : string)
    (player player' : Player) :
  game room = Some g -> status room = IN_GAME ->
  roundStartTime g = Some s -> s <> 0 -> t <> 0 ->
  ScoreEngine.getGuessTime (ScoreEngine.roundGuessTimes st) (id room)
    (currentRound g) playerId = None ->
  getPlayer (ScoreEngine.registry st) playerId = Some player ->
  let first :=
    ScoreEngine.awardGuessScore now getPlayer (Some update) st room playerId t in
  getPlayer (ScoreEngine.registry (fst first)) playerId = Some player' ->
  exists roundScore,
    snd first = Normal (ok (Some roundScore, ScoreEngine.score_or_0 player + roundScore))
    /\ ScoreEngine.awardGuessScore now' getPlayer (Some update) (fst first) room
         playerId t'
       = (fst first, Normal (ok (Some roundScore, ScoreEngine.score_or_0 player'))).
Proof.
  intros Hg Hst Hs Hs0 Ht Hfirst Hp. cbn zeta.
  pose proof (score_or_0_initialized (ScoreEngine.registry st) player) as Hinit.
  destruct (ScoreEngine.initialize_score (ScoreEngine.registry st) player)
    as [reg initialized] eqn:Einit.
  cbn [snd] in Hinit.
  set (roundScore :=
         ScoreEngine.calculateScore_of_numbers (inject_Z (drawTime (settings room)))
           (ScoreEngine.seconds_between s t)
           (GameEngine.isCurrentDrawer room playerId)).
  assert (ScoreEngine.awardGuessScore now getPlayer (Some update) st room playerId t
          = (ScoreEngine.mkStore
               (update playerId (ScoreEngine.score_or_0 player + roundScore) reg)
               (ScoreEngine.recordGuessTime (ScoreEngine.roundGuessTimes st)
                  (id room) (currentRound g) playerId t),
             Normal (ok (Some roundScore,
                         ScoreEngine.score_or_0 player + roundScore)))) as ->.
  { unfold ScoreEngine.awardGuessScore.
    rewrite (hasActiveGame_true room g Hg Hst), Hg. cbn [negb fst snd].
    rewrite Hfirst, Hs. cbn [ScoreEngine.registry]. rewrite Hp, Einit.
    assert ((s =? 0) = false) as -> by (apply Z.eqb_neq; exact Hs0).
    rewrite Hinit. reflexivity. }
  cbn [fst snd ScoreEngine.registry]. intros Hp'.
  exists roundScore. split; [reflexivity|].
  unfold ScoreEngine.awardGuessScore.
  rewrite (hasActiveGame_true room g Hg Hst), Hg. cbn [negb fst snd].
  cbn [ScoreEngine.roundGuessTimes ScoreEngine.registry].
  rewrite (getGuessTime_recorded _ _ _ _ t Ht), Hp', Hs.
  rewrite calculateScore_numbers. reflexivity.
Qed.

Lemma awardGuessScore_awards_once_witness :
  let first :=
    ScoreEngine.awardGuessScore 0 Players.getPlayerById (Some Fixtures.store_total)
      Fixtures.store Fixtures.drawing_room "p2" 11000 in
  snd first = Normal (ok (Some 187, 187))
  /\ ScoreEngine.awardGuessScore 0 Players.getPlayerById (Some Fixtures.store_total)
       (fst first) Fixtures.drawing_room "p2" 50000
     = (fst first, Normal (ok (Some 187, 187))).
Proof.
  pose proof (awardGuessScore_awards_once 0 0 11000 50000 1000 Players.getPlayerById
                Fixtures.store_total Fixtures.store Fixtures.drawing_room _ "p2"
                Fixtures.bob (set_score (Some 187) Fixtures.bob)
                eq_refl eq_refl eq_refl) as H.
  cbv zeta in H.
  specialize (H ltac:(discriminate) ltac:(discriminate)).
  specialize (H ltac:(vm_compute; reflexivity)).
  specialize (H ltac:(vm_compute; reflexivity)).
  specialize (H ltac:(vm_compute; reflexivity)).
  destruct H as (roundScore & H1 & H2).
  assert (roundScore = 187) as -> by (vm_compute in H1; congruence).
  split; [vm_compute; reflexivity|exact H2].
Defined.

(** ** The drawer's score *)

(** X13: at the end of a round the drawer is awarded 50 points for each
    player on the list of those who guessed, added to the drawer's total
    through the [updatePlayerScore] callback, and the award is recorded: a
    second call in the same round reports the same amount and changes
    nothing. Called without that callback, which is how index.js calls it
    since players.js exports none, the function throws once it has found the
    drawer. *)
Theorem awardDrawerScore_fifty_per_guesser (now now' : Z)
    (getPlayer : Players.Registry -> string -> option Player)
    (update : string -> Z -> Players.Registry -> Players.Registry)
    (st : ScoreEngine.Store) (room : Room) (g : Game) (drawer : string)
    (player player' : Player) :
  game room = Some g -> status room = IN_GAME -> drawerId g = Some drawer ->
  now <> 0 ->
  ScoreEngine.getGuessTime (ScoreEngine.roundGuessTimes st) (id room)
    (currentRound g) drawer = None ->
  getPlayer (ScoreEngine.registry st) drawer = Some player ->
  let drawerScore := 50 * Z.of_nat (length (guessedPlayers g)) in
  exists st1,
    ScoreEngine.awardDrawerScore now getPlayer (Some update) st room
    = Some (st1, Normal (ok drawerScore))
    /\ ScoreEngine.registry st1
       = update drawer (ScoreEngine.score_or_0 player + drawerScore)
           (fst (ScoreEngine.initialize_score (ScoreEngine.registry st) player))
    /\ (getPlayer (ScoreEngine.registry st1) drawer = Some player' ->
        ScoreEngine.awardDrawerScore now' getPlayer (Some update) st1 room
        = Some (st1, Normal (ok drawerScore)))
    /\ snd <$> ScoreEngine.awardDrawerScore now getPlayer None st room
       = Some (Throw "TypeError: updatePlayerScore is not a function").
Proof.
  intros Hg Hst Hd Hnow Hfirst Hp. cbn zeta.
  pose proof (score_or_0_initialized (ScoreEngine.registry st) player) as Hinit.
  unfold ScoreEngine.awardDrawerScore at 1 3.
  rewrite (hasActiveGame_true room g Hg Hst), Hg, Hd. cbn [negb fst snd].
  rewrite Hfirst. cbn [ScoreEngine.registry]. rewrite Hp.
  destruct (ScoreEngine.initialize_score (ScoreEngine.registry st) player)
    as [reg initialized].
  cbn [fst snd] in *. rewrite Hinit.
  unfold GuessEngine.getGuessedPlayersCount. rewrite Hg.
  replace (Z.of_nat (length (guessedPlayers g)) * ScoreEngine.scorePerGuesser)
    with (50 * Z.of_nat (length (guessedPlayers g)))
    by (change ScoreEngine.scorePerGuesser with 50; lia).
  eexists. split; [reflexivity|]. split; [reflexivity|]. split; [|reflexivity].
  intros Hp'. unfold ScoreEngine.awardDrawerScore.
  rewrite (hasActiveGame_true room g Hg Hst), Hg, Hd. cbn [negb fst snd].
  cbn [ScoreEngine.roundGuessTimes ScoreEngine.registry].
  rewrite (getGuessTime_recorded _ _ _ _ now Hnow).
  cbn [ScoreEngine.registry] in Hp'. rewrite Hp'.
  unfold GuessEngine.getGuessedPlayersCount. rewrite Hg.
  replace (Z.of_nat (length (guessedPlayers g)) * ScoreEngine.scorePerGuesser)
    with (50 * Z.of_nat (length (guessedPlayers g)))
    by (change ScoreEngine.scorePerGuesser with 50; lia).
  reflexivity.
Qed.

Lemma awardDrawerScore_fifty_per_guesser_witness :
  snd <$> ScoreEngine.awardDrawerScore 90000 Players.getPlayerById
            (Some Fixtures.store_total) Fixtures.store Fixtures.guessed_room
  = Some (Normal (ok 50))
  /\ snd <$> ScoreEngine.awardDrawerScore 90000 Players.getPlayerById None
               Fixtures.store Fixtures.guessed_room
     = Some (Throw "TypeError: updatePlayerScore is not a function").
Proof.
  destruct (awardDrawerScore_fifty_per_guesser 90000 90000 Players.getPlayerById
              Fixtures.store_total Fixtures.store Fixtures.guessed_room _ "p1"
              Fixtures.alice Fixtures.alice eq_refl eq_refl eq_refl)
    as (st1 & H1 & _ & _ & Hthrow); try reflexivity; try discriminate.
  split; [reflexivity|exact Hthrow].
Defined.

(** ** The leaderboard *)

Section Leaderboard.

Import ScoreEngine.

Lemma insert_by_score_perm (x : LeaderboardEntry) (l : list LeaderboardEntry) :
  insert_by_score x l ≡ₚ x :: l.
Proof.
  induction l as [|y l IH]; cbn [insert_by_score]; [reflexivity|].
  destruct (le_score x <? le_score y); [|reflexivity].
  rewrite IH. apply Permutation_swap.
Qed.

Lemma sort_by_score_perm (l : list LeaderboardEntry) : sort_by_score l ≡ₚ l.
Proof.
  unfold sort_by_score. induction l as [|x l IH]; cbn [foldr]; [reflexivity|].
  rewrite insert_by_score_perm, IH. reflexivity.
Qed.

Lemma insert_by_score_sorted (x : LeaderboardEntry) (l : list LeaderboardEntry) :
  StronglySorted ranks_before l -> StronglySorted ranks_before (insert_by_score x l).
Proof.
  induction 1 as [|y l Hl IH Hy]; cbn [insert_by_score].
  - repeat constructor.
  - destruct (Z.ltb_spec (le_score x) (le_score y)) as [Hlt|Hge].
    + constructor; [exact IH|].
      rewrite insert_by_score_perm. constructor; [unfold ranks_before; lia|exact Hy].
    + constructor; [constructor; assumption|].
      constructor; [exact Hge|].
      eapply Forall_impl; [exact Hy|]. unfold ranks_before. intros z Hz. lia.
Qed.

Lemma sort_by_score_sorted (l : list LeaderboardEntry) :
  StronglySorted ranks_before (sort_by_score l).
Proof.
  unfold sort_by_score. induction l as [|x l IH]; cbn [foldr]; [constructor|].
  apply insert_by_score_sorted. exact IH.
Qed.

Lemma insert_by_score_stable (z : Z) (x : LeaderboardEntry)
    (l : list LeaderboardEntry) :
  List.filter (fun e => le_score e =? z) (insert_by_score x l)
  = List.filter (fun e => le_score e =? z) (x :: l).
Proof.
  induction l as [|y l IH]; cbn [insert_by_score]; [reflexivity|].
  destruct (Z.ltb_spec (le_score x) (le_score y)) as [Hlt|Hge]; [|reflexivity].
  cbn [List.filter] in *. rewrite IH.
  destruct (Z.eqb_spec (le_score x) z), (Z.eqb_spec (le_score y) z);
    try reflexivity. lia.
Qed.

Lemma sort_by_score_stable (z : Z) (l : list LeaderboardEntry) :
  List.filter (fun e => le_score e =? z) (sort_by_score l)
  = List.filter (fun e => le_score e =? z) l.
Proof.
  unfold sort_by_score. induction l as [|x l IH]; cbn [foldr]; [reflexivity|].
  rewrite insert_by_score_stable. cbn [List.filter]. rewrite IH. reflexivity.
Qed.

End Leaderboard.

(** X14: the leaderboard of a room has one entry for each member that
    [getPlayer] knows, with that player's id, name and score (0 when the
    player has none); every entry scores at least as much as all entries
    after it; and members with the same score are listed in the order of
    the member list. *)
Theorem getLeaderboard_sorted_and_stable (room : Room)
    (getPlayer : string -> option Player) :
  let board := ScoreEngine.getLeaderboard room getPlayer in
  let entries := omap (ScoreEngine.leaderboard_entry getPlayer) (players room) in
  board ≡ₚ entries
  /\ StronglySorted ScoreEngine.ranks_before board
  /\ (forall z,
        List.filter (fun e => ScoreEngine.le_score e =? z) board
        = List.filter (fun e => ScoreEngine.le_score e =? z) entries)
  /\ (forall e, e ∈ board ->
        exists player,
          ScoreEngine.le_playerId e = p_id player /\ ScoreEngine.le_name e = name player
          /\ ScoreEngine.le_score e = default 0 (score player)
          /\ exists playerId, playerId ∈ players room
                              /\ getPlayer playerId = Some player).
Proof.
  cbn zeta. unfold ScoreEngine.getLeaderboard.
  split; [apply sort_by_score_perm|].
  split; [apply sort_by_score_sorted|].
  split; [intros z; apply sort_by_score_stable|].
  intros e He. rewrite sort_by_score_perm in He.
  apply list_elem_of_omap in He. destruct He as (playerId & Hin & He).
  unfold ScoreEngine.leaderboard_entry in He.
  destruct (getPlayer playerId) as [player|] eqn:Hp; [|discriminate].
  injection He as <-. exists player. cbn. eauto 6.
Qed.

Lemma getLeaderboard_sorted_and_stable_witness :
  ScoreEngine.getLeaderboard Fixtures.lobby
    (Players.getPlayerById Fixtures.registry)
  = [ ScoreEngine.mkEntry "p1" "Alice" 0; ScoreEngine.mkEntry "p2" "Bob" 0 ]
  /\ exists player,
       ScoreEngine.le_name (ScoreEngine.mkEntry "p2" "Bob" 0) = name player
       /\ Players.getPlayerById Fixtures.registry "p2" = Some player.
Proof.
  split; [reflexivity|].
  destruct (getLeaderboard_sorted_and_stable Fixtures.lobby
              (Players.getPlayerById Fixtures.registry)) as (_ & _ & _ & Hin).
  destruct (Hin (ScoreEngine.mkEntry "p2" "Bob" 0)) as (player & _ & Hn & _ & q & Hq & Hp).
  - right. left.
  - exists player. split; [exact Hn|].
    apply elem_of_cons in Hq. destruct Hq as [->|Hq].
    + vm_compute in Hp. injection Hp as <-. discriminate Hn.
    + apply list_elem_of_singleton in Hq. subst q. exact Hp.
Defined.

(** ** Progressive hints *)

Section Hints.

Import JS WordEngine.

Lemma remove_whitespace_app (s t : string) :
  remove_whitespace (s +:+ t) = remove_whitespace s +:+ remove_whitespace t.
Proof.
  induction s as [|c s IH]; [reflexivity|].
  change (String c s +:+ t) with (String c (s +:+ t)). cbn [remove_whitespace].
  rewrite IH. destruct (is_whitespace c); reflexivity.
Qed.

(** Without its spaces, the display built by [hint_display] is the
    sequence of the word's letters, each shown or masked. *)
Lemma hint_display_letters (revealed : list nat) (word : string) (charIndex : nat) :
  spaces_only word ->
  remove_whitespace (hint_display revealed word charIndex)
  = reveal revealed (remove_whitespace word) charIndex.
Proof.
  revert charIndex. induction word as [|char rest IH]; intros charIndex Hw;
    [reflexivity|].
  destruct Hw as [Hc Hrest]. cbn [hint_display remove_whitespace].
  destruct (Ascii.eqb_spec char " ") as [->|Hne].
  - change (is_whitespace " ") with true. cbn match.
    rewrite !remove_whitespace_app, (IH _ Hrest). destruct rest; reflexivity.
  - destruct (is_whitespace char) eqn:Ews; [elim Hne; auto|].
    cbn [reveal remove_whitespace].
    assert (is_whitespace
              (if existsb (Nat.eqb charIndex) revealed then char else "_"%char)
            = false) as ->
      by (destruct (existsb _ _); [exact Ews|reflexivity]).
    f_equal. rewrite remove_whitespace_app, (IH _ Hrest).
    destruct rest as [|next rest']; [reflexivity|].
    destruct (Ascii.eqb next " "); reflexivity.
Qed.

Lemma reveal_none (letters : string) (charIndex : nat) :
  reveal [] letters charIndex = map_chars (fun _ => "_"%char) letters.
Proof.
  revert charIndex. induction letters as [|c s IH]; intros i; [reflexivity|].
  cbn. rewrite IH. reflexivity.
Qed.

Lemma reveal_all (revealed : list nat) (letters : string) (charIndex : nat) :
  (forall i, (charIndex <= i < charIndex + String.length letters)%nat ->
             i ∈ revealed) ->
  reveal revealed letters charIndex = letters.
Proof.
  revert charIndex. induction letters as [|c s IH]; intros i Hall; [reflexivity|].
  cbn [reveal String.length] in *.
  assert (existsb (Nat.eqb i) revealed = true) as ->.
  { apply existsb_exists. exists i. split; [|apply Nat.eqb_refl].
    apply list_elem_of_In. apply Hall. lia. }
  f_equal. apply IH. intros j Hj. apply Hall. lia.
Qed.

Lemma reveal_length (revealed : list nat) (letters : string) (charIndex : nat) :
  String.length (reveal revealed letters charIndex) = String.length letters.
Proof.
  revert charIndex. induction letters as [|c s IH]; intros i; [reflexivity|].
  cbn. rewrite IH. reflexivity.
Qed.

(** Splitting a list by the remainder modulo 4 rearranges it. *)
Lemma by_remainder_perm (l : list nat) :
  List.filter (fun i => (i mod 4 =? 2)%nat) l
  ++ List.filter (fun i => (i mod 4 =? 3)%nat) l
  ++ List.filter (fun i => (i mod 4 =? 1)%nat) l
  ++ List.filter (fun i => (i mod 4 =? 0)%nat) l
  ≡ₚ l.
Proof.
  induction l as [|x l IH]; [reflexivity|].
  cbn [List.filter].
  pose proof (Nat.mod_upper_bound x 4 ltac:(lia)) as Hlt.
  set (f2 := List.filter (fun i => (i mod 4 =? 2)%nat) l) in *.
  set (f3 := List.filter (fun i => (i mod 4 =? 3)%nat) l) in *.
  set (f1 := List.filter (fun i => (i mod 4 =? 1)%nat) l) in *.
  set (f0 := List.filter (fun i => (i mod 4 =? 0)%nat) l) in *.
  etransitivity; [|apply Permutation_cons; [reflexivity|exact IH]].
  destruct (x mod 4)%nat as [|[|[|[|r]]]] eqn:E; [| | | |lia]; cbn [Nat.eqb].
  - replace (f2 ++ f3 ++ f1 ++ x :: f0) with ((f2 ++ f3 ++ f1) ++ x :: f0)
      by (rewrite <- !app_assoc; reflexivity).
    rewrite <- Permutation_middle, <- !app_assoc. reflexivity.
  - change ((x :: f1) ++ f0) with (x :: f1 ++ f0).
    replace (f2 ++ f3 ++ x :: f1 ++ f0) with ((f2 ++ f3) ++ x :: f1 ++ f0)
      by (rewrite <- !app_assoc; reflexivity).
    rewrite <- Permutation_middle, <- !app_assoc. reflexivity.
  - reflexivity.
  - change ((x :: f3) ++ f1 ++ f0) with (x :: f3 ++ f1 ++ f0).
    symmetry. apply Permutation_middle.
Qed.

Lemma reveal_order_perm (n : nat) : reveal_order n ≡ₚ seq 0 n.
Proof. unfold reveal_order, every_fourth. apply by_remainder_perm. Qed.

Lemma generateHint_letters (word : string) (hintLevel : nat) :
  spaces_only word ->
  remove_whitespace (generateHint word hintLevel)
  = reveal (take hintLevel (reveal_order (String.length (remove_whitespace word))))
      (remove_whitespace word) 0.
Proof.
  intros Hw. unfold generateHint.
  destruct (Nat.eqb_spec (String.length (remove_whitespace word)) 0) as [E|E].
  - destruct (remove_whitespace word); [reflexivity|discriminate].
  - apply hint_display_letters. exact Hw.
Qed.

End Hints.

(** X15: read without its spaces, a hint shows one code unit for each
    letter of the word, whatever the level. At level 0 they are all
    underscores; the letter positions are revealed in an order that takes
    each position exactly once, one more position per level, and from the
    level that equals the number of letters on the hint shows the word
    itself. The word has no white space other than the space character. *)
Theorem generateHint_reveals_progressively (word : string) :
  WordEngine.spaces_only word ->
  let letters := WordEngine.remove_whitespace word in
  let n := String.length letters in
  (forall level,
     String.length (WordEngine.remove_whitespace (WordEngine.generateHint word level))
     = n)
  /\ WordEngine.remove_whitespace (WordEngine.generateHint word 0)
     = JS.map_chars (fun _ => "_"%char) letters
  /\ WordEngine.reveal_order n ≡ₚ seq 0 n
  /\ (forall level,
        WordEngine.remove_whitespace (WordEngine.generateHint word level)
        = WordEngine.reveal (take level (WordEngine.reveal_order n)) letters 0)
  /\ (forall level, (n <= level)%nat ->
        WordEngine.remove_whitespace (WordEngine.generateHint word level) = letters).
Proof.
  intros Hw. cbn zeta.
  split; [|split; [|split; [|split]]].
  - intros level. rewrite (generateHint_letters word level Hw). apply reveal_length.
  - rewrite (generateHint_letters word 0 Hw). apply reveal_none.
  - apply reveal_order_perm.
  - intros level. apply generateHint_letters. exact Hw.
  - intros level Hlevel. rewrite (generateHint_letters word level Hw).
    apply reveal_all. intros i Hi.
    rewrite take_ge.
    + rewrite reveal_order_perm. apply elem_of_seq. lia.
    + rewrite reveal_order_perm, length_seq. exact Hlevel.
Qed.

Lemma generateHint_reveals_progressively_witness :
  WordEngine.remove_whitespace (WordEngine.generateHint "ice cream" 8) = "icecream"
  /\ WordEngine.remove_whitespace (WordEngine.generateHint "ice cream" 0) = "________".
Proof.
  destruct (generateHint_reveals_progressively "ice cream") as (_ & H0 & _ & _ & Hall).
  - vm_compute. repeat split; discriminate.
  - split; [apply (Hall 8%nat); vm_compute; lia|exact H0].
Defined.

(** ** Drawing events *)

Section Drawing.

Import DrawingEngine.

Lemma validEventTypes_all :
  "draw_start" ∈ validEventTypes /\ "draw_move" ∈ validEventTypes
  /\ "draw_end" ∈ validEventTypes /\ "clear_canvas" ∈ validEventTypes.
Proof. unfold validEventTypes. repeat split; repeat constructor. Qed.

Lemma validateDrawingEvent_inv (room : Room) (playerId eventType : string) :
  fst (validateDrawingEvent room playerId eventType) = true ->
  status room = IN_GAME
  /\ exists g, game room = Some g /\ phase g = DRAWING
               /\ drawerId g = Some playerId.
Proof.
  unfold validateDrawingEvent.
  destruct (GameEngine.hasActiveGame room) as [[] e] eqn:Hact; cbn [negb fst snd];
    [|discriminate].
  apply (f_equal fst) in Hact. cbn [fst] in Hact.
  apply hasActiveGame_inv in Hact. destruct Hact as (Hs & g & Hg). rewrite Hg.
  destruct (bool_decide (phase g = DRAWING)) eqn:Hph; cbn [negb]; [|discriminate].
  unfold GameEngine.isCurrentDrawer. rewrite Hg.
  destruct (bool_decide (drawerId g = Some playerId)) eqn:Hd; cbn [negb];
    [|discriminate].
  intros _. apply bool_decide_eq_true in Hph, Hd. eauto.
Qed.

Lemma validateDrawingEvent_ok (room : Room) (g : Game) (playerId eventType : string) :
  game room = Some g -> status room = IN_GAME -> phase g = DRAWING ->
  drawerId g = Some playerId -> eventType ∈ validEventTypes ->
  validateDrawingEvent room playerId eventType = (true, None).
Proof.
  intros Hg Hs Hph Hd Hev. unfold validateDrawingEvent.
  rewrite (hasActiveGame_true room g Hg Hs), Hg. cbn [negb fst snd].
  rewrite (bool_decide_eq_true_2 _ Hph). cbn [negb].
  unfold GameEngine.isCurrentDrawer. rewrite Hg, (bool_decide_eq_true_2 _ Hd).
  cbn [negb]. rewrite (bool_decide_eq_true_2 _ Hev). reflexivity.
Qed.

(** The verdict does not depend on which of the four event types a handler
    names. *)
Lemma validateDrawingEvent_same (room : Room) (playerId ev ev' : string) :
  ev ∈ validEventTypes -> ev' ∈ validEventTypes ->
  validateDrawingEvent room playerId ev = validateDrawingEvent room playerId ev'.
Proof.
  intros H H'. unfold validateDrawingEvent.
  rewrite (bool_decide_eq_true_2 _ H), (bool_decide_eq_true_2 _ H'). reflexivity.
Qed.

End Drawing.

(** X16: the drawing engine accepts an event only from the current drawer
    of a game that is active and in the drawing phase. From anybody else, or
    in any other phase, each of the four handlers answers [success: false]
    and leaves the buffered moves and the throttle times untouched. *)
Theorem drawing_events_only_from_drawer (now : Z) (st : DrawingEngine.State)
    (room : Room) (playerId : string) (data : JS.Value) :
  let accepted :=
    status room = IN_GAME
    /\ exists g, game room = Some g /\ phase g = DRAWING
                 /\ drawerId g = Some playerId in
  (success (snd (DrawingEngine.handleDrawStart st room playerId data)) = true
   -> accepted)
  /\ (success (snd (DrawingEngine.handleDrawMove now st room playerId data)) = true
      -> accepted)
  /\ (success (snd (DrawingEngine.handleDrawEnd st room playerId data)) = true
      -> accepted)
  /\ (success (snd (DrawingEngine.handleClearCanvas st room playerId)) = true
      -> accepted)
  /\ (~ accepted ->
      fst (DrawingEngine.handleDrawStart st room playerId data) = st
      /\ fst (DrawingEngine.handleDrawMove now st room playerId data) = st
      /\ fst (DrawingEngine.handleDrawEnd st room playerId data) = st
      /\ fst (DrawingEngine.handleClearCanvas st room playerId) = st
      /\ success (snd (DrawingEngine.handleDrawStart st room playerId data)) = false
      /\ success (snd (DrawingEngine.handleDrawMove now st room playerId data)) = false
      /\ success (snd (DrawingEngine.handleDrawEnd st room playerId data)) = false
      /\ success (snd (DrawingEngine.handleClearCanvas st room playerId)) = false).
Proof.
  cbn zeta.
  unfold DrawingEngine.handleDrawStart, DrawingEngine.handleDrawMove,
    DrawingEngine.handleDrawEnd, DrawingEngine.handleClearCanvas.
  rewrite (validateDrawingEvent_same room playerId "draw_move" "draw_start"),
    (validateDrawingEvent_same room playerId "draw_end" "draw_start"),
    (validateDrawingEvent_same room playerId "clear_canvas" "draw_start");
    try apply validEventTypes_all.
  pose proof (validateDrawingEvent_inv room playerId "draw_start") as Hinv.
  destruct (DrawingEngine.validateDrawingEvent room playerId "draw_start")
    as [[] e]; cbn [negb fst snd] in *.
  - specialize (Hinv eq_refl).
    split; [|split; [|split; [|split]]]; try (intros _; exact Hinv).
    intros Hn. contradiction.
  - cbn. split; [|split; [|split; [|split]]]; try discriminate.
    intros _. repeat split.
Qed.

Lemma drawing_events_only_from_drawer_witness :
  fst (DrawingEngine.handleDrawMove 5000 (DrawingEngine.mkState ∅ ∅)
         Fixtures.drawing_room "p2" (JS.Obj [("x", JS.Num 1)]))
  = DrawingEngine.mkState ∅ ∅.
Proof.
  destruct (drawing_events_only_from_drawer 5000 (DrawingEngine.mkState ∅ ∅)
              Fixtures.drawing_room "p2" (JS.Obj [("x", JS.Num 1)]))
    as (_ & _ & _ & _ & Hrej).
  apply Hrej. intros (_ & g & Hg & _ & Hd). injection Hg as <-. discriminate Hd.
Defined.

(** ** Throttled moves *)

Section Throttle.

Import DrawingEngine.

(** The throttle compares whole milliseconds with 1000/30: a move is held
    back up to 33 ms after the last one that was let through. *)
Lemma shouldThrottle_spec (now : Z) (st : State) (roomId : string) :
  let lastTime := default 0 (lastEventTimes st !! roomId) in
  shouldThrottle now st roomId
  = if now - lastTime <=? 33
    then (st, true)
    else (mkState (drawBatches st) (<[roomId := now]> (lastEventTimes st)), false).
Proof.
  cbn zeta. unfold shouldThrottle.
  set (d := now - default 0 (lastEventTimes st !! roomId)).
  assert (Qle_bool minInterval (inject_Z d) = negb (d <=? 33)) as ->; [|
    destruct (d <=? 33); reflexivity].
  destruct (Z.leb_spec d 33) as [H|H]; cbn [negb].
  - destruct (Qle_bool minInterval (inject_Z d)) eqn:E; [|reflexivity].
    apply Qle_bool_iff in E. unfold minInterval, Qle in E. cbn in E. lia.
  - apply Qle_bool_iff. unfold minInterval, Qle. cbn. lia.
Qed.

Lemma handleDrawMove_held (now : Z) (st : State) (room : Room) (g : Game)
    (playerId : string) (data : JS.Value) :
  game room = Some g -> status room = IN_GAME -> phase g = DRAWING ->
  drawerId g = Some playerId ->
  now - default 0 (lastEventTimes st !! id room) <= 33 ->
  handleDrawMove now st room playerId data
  = (mkState
       (<[id room := default [] (drawBatches st !! id room) ++ [data]]>
          (drawBatches st))
       (lastEventTimes st),
     ok (JS.Null, true)).
Proof.
  intros Hg Hs Hph Hd Hnow. unfold handleDrawMove.
  rewrite (validateDrawingEvent_ok room g playerId "draw_move" Hg Hs Hph Hd)
    by apply validEventTypes_all.
  cbn [negb fst]. rewrite shouldThrottle_spec.
  destruct (Z.leb_spec (now - default 0 (lastEventTimes st !! id room)) 33);
    [reflexivity|lia].
Qed.

Lemma handleDrawMove_passed (now : Z) (st : State) (room : Room) (g : Game)
    (playerId : string) (data : JS.Value) :
  game room = Some g -> status room = IN_GAME -> phase g = DRAWING ->
  drawerId g = Some playerId -> JS.is_object data = true ->
  33 < now - default 0 (lastEventTimes st !! id room) ->
  handleDrawMove now st room playerId data
  = match drawBatches st !! id room with
    | Some (first :: rest) =>
        (mkState (<[id room := (first :: rest) ++ [data]]> (drawBatches st))
           (<[id room := now]> (lastEventTimes st)),
         ok (JS.Arr ((first :: rest) ++ [data]), false))
    | _ =>
        (mkState (drawBatches st) (<[id room := now]> (lastEventTimes st)),
         ok (data, false))
    end.
Proof.
  intros Hg Hs Hph Hd Hobj Hnow. unfold handleDrawMove.
  rewrite (validateDrawingEvent_ok room g playerId "draw_move" Hg Hs Hph Hd)
    by apply validEventTypes_all.
  cbn [negb fst]. rewrite shouldThrottle_spec.
  destruct (Z.leb_spec (now - default 0 (lastEventTimes st !! id room)) 33);
    [lia|].
  rewrite Hobj. cbn [negb drawBatches lastEventTimes].
  destruct (drawBatches st !! id room) as [[|first rest]|]; reflexivity.
Qed.

Lemma handleDrawMoves_held (room : Room) (g : Game) (playerId : string)
    (moves : list (Z * JS.Value)) (st : State) :
  game room = Some g -> status room = IN_GAME -> phase g = DRAWING ->
  drawerId g = Some playerId ->
  Forall (fun move =>
            fst move - default 0 (lastEventTimes st !! id room) <= 33) moves ->
  moves <> [] ->
  handleDrawMoves st room playerId moves
  = mkState
      (<[id room := default [] (drawBatches st !! id room) ++ map snd moves]>
         (drawBatches st))
      (lastEventTimes st).
Proof.
  intros Hg Hs Hph Hd Hall. revert st Hall.
  induction moves as [|[t d] moves IH]; intros st Hall Hne; [contradiction|].
  apply Forall_cons in Hall. destruct Hall as [Ht Hall]. cbn [fst snd] in Ht.
  unfold handleDrawMoves. cbn [foldl fst snd].
  rewrite (handleDrawMove_held t st room g playerId d Hg Hs Hph Hd Ht). cbn [fst].
  destruct moves as [|m moves].
  - cbn. reflexivity.
  - fold (handleDrawMoves
            (mkState
               (<[id room := default [] (drawBatches st !! id room) ++ [d]]>
                  (drawBatches st))
               (lastEventTimes st))
            room playerId (m :: moves)).
    rewrite IH; [|exact Hall|discriminate].
    cbn [drawBatches lastEventTimes]. rewrite lookup_insert_eq, insert_insert_eq.
    cbn [default from_option Datatypes.id map]. rewrite <- app_assoc. reflexivity.
Qed.

End Throttle.

(** X17: moves of the drawer that arrive up to 33 ms after the last move
    that was let through are held back: each is answered with
    [shouldBatch: true] and appended to the room's buffer, in the order of
    arrival. [flushBatch] then hands over the buffered moves in that order
    and empties the buffer, so that a second [flushBatch] returns [null]. *)
Theorem held_moves_flushed_in_order (st : DrawingEngine.State) (room : Room)
    (g : Game) (playerId : string) (moves : list (Z * JS.Value)) :
  game room = Some g -> status room = IN_GAME -> phase g = DRAWING ->
  drawerId g = Some playerId ->
  Forall (fun move =>
            fst move
            - default 0 (DrawingEngine.lastEventTimes st !! id room) <= 33) moves ->
  moves <> [] ->
  let pending := default [] (DrawingEngine.drawBatches st !! id room) in
  let held := DrawingEngine.handleDrawMoves st room playerId moves in
  let flushed := DrawingEngine.flushBatch held (id room) in
  snd flushed = Some (pending ++ map snd moves)
  /\ DrawingEngine.drawBatches (fst flushed) !! id room = None
  /\ DrawingEngine.lastEventTimes (fst flushed) = DrawingEngine.lastEventTimes st
  /\ DrawingEngine.flushBatch (fst flushed) (id room) = (fst flushed, None)
  /\ (forall move, move ∈ moves ->
        forall st', DrawingEngine.lastEventTimes st' = DrawingEngine.lastEventTimes st ->
        snd (DrawingEngine.handleDrawMove (fst move) st' room playerId (snd move))
        = ok (JS.Null, true)).
Proof.
  intros Hg Hs Hph Hd Hall Hne. cbn zeta.
  rewrite (handleDrawMoves_held room g playerId moves st Hg Hs Hph Hd Hall Hne).
  destruct (default [] (DrawingEngine.drawBatches st !! id room) ++ map snd moves)
    as [|first rest] eqn:E.
  { destruct moves; [contradiction|]. apply app_eq_nil in E. destruct E; discriminate. }
  assert (DrawingEngine.flushBatch
            (DrawingEngine.mkState
               (<[id room := first :: rest]> (DrawingEngine.drawBatches st))
               (DrawingEngine.lastEventTimes st)) (id room)
          = (DrawingEngine.mkState
               (delete (id room)
                  (<[id room := first :: rest]> (DrawingEngine.drawBatches st)))
               (DrawingEngine.lastEventTimes st),
             Some (first :: rest))) as ->.
  { unfold DrawingEngine.flushBatch. cbn [DrawingEngine.drawBatches].
    rewrite lookup_insert_eq. reflexivity. }
  cbn [fst snd DrawingEngine.drawBatches DrawingEngine.lastEventTimes].
  split; [reflexivity|]. split; [apply lookup_delete_eq|]. split; [reflexivity|].
  split.
  - unfold DrawingEngine.flushBatch. cbn [DrawingEngine.drawBatches].
    rewrite lookup_delete_eq. reflexivity.
  - intros move Hin st' Hst'.
    rewrite (handleDrawMove_held (fst move) st' room g playerId (snd move)
               Hg Hs Hph Hd); [reflexivity|].
    rewrite Hst'. rewrite Forall_forall in Hall. apply Hall. exact Hin.
Qed.

Lemma held_moves_flushed_in_order_witness :
  snd (DrawingEngine.flushBatch
         (DrawingEngine.handleDrawMoves
            (DrawingEngine.mkState ∅ {[ "ABC123" := 5000 ]})
            Fixtures.drawing_room "p1"
            [ (5010, JS.Obj [("x", JS.Num 1)]); (5020, JS.Obj [("x", JS.Num 2)]) ])
         "ABC123")
  = Some [ JS.Obj [("x", JS.Num 1)]; JS.Obj [("x", JS.Num 2)] ].
Proof.
  destruct (held_moves_flushed_in_order
              (DrawingEngine.mkState ∅ {[ "ABC123" := 5000 ]}) Fixtures.drawing_room
              _ "p1"
              [ (5010, JS.Obj [("x", JS.Num 1)]); (5020, JS.Obj [("x", JS.Num 2)]) ]
              eq_refl eq_refl eq_refl eq_refl) as (Hflushed & _).
  - repeat constructor; vm_compute; discriminate.
  - discriminate.
  - exact Hflushed.
Defined.

(** X18: for the drawer in the drawing phase, a move that arrives up to
    33 ms after the last move let through is held back and leaves the
    throttle time alone; a later one with an object as data is let through
    and becomes the new throttle time. When moves are buffered at that
    moment, the move is appended to them, the whole buffer is the data of
    the reply, and the buffer stays in place: the next [flushBatch] hands
    the same moves over again. A later move whose data is not an object is
    refused, yet it too becomes the new throttle time. *)
Theorem draw_move_throttle (now : Z) (st : DrawingEngine.State) (room : Room)
    (g : Game) (playerId : string) (move : JS.Value) :
  game room = Some g -> status room = IN_GAME -> phase g = DRAWING ->
  drawerId g = Some playerId ->
  let last := default 0 (DrawingEngine.lastEventTimes st !! id room) in
  let result := DrawingEngine.handleDrawMove now st room playerId move in
  (now - last <= 33 ->
   snd result = ok (JS.Null, true)
   /\ DrawingEngine.lastEventTimes (fst result) = DrawingEngine.lastEventTimes st)
  /\ (33 < now - last -> JS.is_object move = true ->
      success (snd result) = true
      /\ snd (data (snd result)) = false
      /\ DrawingEngine.lastEventTimes (fst result) !! id room = Some now
      /\ match DrawingEngine.drawBatches st !! id room with
         | Some (first :: rest) =>
             fst (data (snd result)) = JS.Arr ((first :: rest) ++ [move])
             /\ snd (DrawingEngine.flushBatch (fst result) (id room))
                = Some ((first :: rest) ++ [move])
         | _ =>
             fst (data (snd result)) = move
             /\ snd (DrawingEngine.flushBatch (fst result) (id room)) = None
         end)
  /\ (33 < now - last -> JS.is_object move = false ->
      success (snd result) = false
      /\ DrawingEngine.lastEventTimes (fst result) !! id room = Some now).
Proof.
  intros Hg Hs Hph Hd. cbn zeta. split; [|split].
  - intros Hnow.
    rewrite (handleDrawMove_held now st room g playerId move Hg Hs Hph Hd Hnow).
    split; reflexivity.
  - intros Hnow Hobj.
    rewrite (handleDrawMove_passed now st room g playerId move Hg Hs Hph Hd Hobj Hnow).
    unfold DrawingEngine.flushBatch.
    destruct (DrawingEngine.drawBatches st !! id room) as [[|first rest]|] eqn:E;
      cbn [fst snd success data ok DrawingEngine.drawBatches
             DrawingEngine.lastEventTimes];
      rewrite ?lookup_insert_eq, ?E; repeat split; reflexivity.
  - intros Hnow Hobj. unfold DrawingEngine.handleDrawMove.
    rewrite (validateDrawingEvent_ok room g playerId "draw_move" Hg Hs Hph Hd)
      by apply validEventTypes_all.
    cbn [negb fst]. rewrite shouldThrottle_spec.
    destruct (Z.leb_spec (now - default 0 (DrawingEngine.lastEventTimes st !! id room))
                33); [lia|].
    rewrite Hobj. cbn. split; [reflexivity|apply lookup_insert_eq].
Qed.

Lemma draw_move_throttle_witness :
  let st := DrawingEngine.mkState {[ "ABC123" := [JS.Obj [("x", JS.Num 1)]] ]}
              {[ "ABC123" := 5000 ]} in
  let result :=
    DrawingEngine.handleDrawMove 5040 st Fixtures.drawing_room "p1"
      (JS.Obj [("x", JS.Num 2)]) in
  fst (data (snd result))
  = JS.Arr [ JS.Obj [("x", JS.Num 1)]; JS.Obj [("x", JS.Num 2)] ]
  /\ snd (DrawingEngine.flushBatch (fst result) "ABC123")
     = Some [ JS.Obj [("x", JS.Num 1)]; JS.Obj [("x", JS.Num 2)] ].
Proof.
  cbn zeta.
  destruct (draw_move_throttle 5040
              (DrawingEngine.mkState {[ "ABC123" := [JS.Obj [("x", JS.Num 1)]] ]}
                 {[ "ABC123" := 5000 ]})
              Fixtures.drawing_room _ "p1" (JS.Obj [("x", JS.Num 2)])
              eq_refl eq_refl eq_refl eq_refl) as (_ & Hpass & _).
  destruct Hpass as (_ & _ & _ & Hbuf); [vm_compute; reflexivity|reflexivity|].
  exact Hbuf.
Defined.

(** ** Relaying the drawing *)

Section Relay.

Import Index.

Lemma relay_to_guessers_spec (srv : Server) (room : Room) (g : Game)
    (eventName : string) (body : JS.Value) :
  game room = Some g ->
  exists emitted,
    relay_to_guessers srv room eventName body = Normal emitted
    /\ forall e, e ∈ emitted ->
         event e = eventName /\ payload e = body /\ to_guesser_of srv room e.
Proof.
  intros Hg. unfold relay_to_guessers. rewrite Hg. eexists. split; [reflexivity|].
  intros e He. apply list_elem_of_omap in He. destruct He as (q & Hq & He).
  destruct (bool_decide (Some q = drawerId g)) eqn:Hd; [discriminate|].
  apply bool_decide_eq_false in Hd.
  destruct (Players.getPlayerById (registry_of srv) q) as [guesser|] eqn:Hp;
    [|discriminate].
  destruct (String.eqb (socketId guesser) ""); [discriminate|].
  injection He as <-. cbn. repeat split.
  exists g, q, guesser. repeat split; auto.
Qed.

(** A drawing handler that has its room relays after a successful
    validation, which is what makes the relay safe. *)
Lemma relay_after_validation (srv : Server) (socket eventName : string)
    (player : Player) (room : Room) (body : JS.Value) :
  drawing_room_of srv socket = inl (player, room) ->
  fst (DrawingEngine.validateDrawingEvent room (p_id player) eventName) = true ->
  exists emitted,
    relay_to_guessers srv room eventName body = Normal emitted
    /\ forall e, e ∈ emitted -> drawing_emission srv socket eventName e.
Proof.
  intros Hroom Hv. apply validateDrawingEvent_inv in Hv.
  destruct Hv as (_ & g & Hg & Hph & Hd).
  destruct (relay_to_guessers_spec srv room g eventName body Hg)
    as (emitted & -> & Hall).
  exists emitted. split; [reflexivity|]. intros e He.
  destruct (Hall e He) as (Hev & _ & Hto). right. split; [exact Hev|].
  exists player, room, g. auto.
Qed.

End Relay.

(** X19: the handlers of draw_start, draw_move, draw_end and clear_canvas
    never throw, and whatever they emit is either a game_error back to the
    sender or the event itself, sent for the current drawer of a game in
    the drawing phase to the socket of a registered member of the drawer's
    room who is not the drawer. *)
Theorem drawing_is_relayed_to_guessers_only (now : Z) (srv : Index.Server)
    (ds : DrawingEngine.State) (socket : string) (body : JS.Value) :
  (exists emitted,
     snd (Index.draw_start srv ds socket body) = Normal emitted
     /\ forall e, e ∈ emitted -> Index.drawing_emission srv socket "draw_start" e)
  /\ (exists emitted,
        snd (fst (Index.draw_move now srv ds socket body)) = Normal emitted
        /\ forall e, e ∈ emitted -> Index.drawing_emission srv socket "draw_move" e)
  /\ (exists emitted,
        snd (Index.draw_end srv ds socket body) = Normal emitted
        /\ forall e, e ∈ emitted -> Index.drawing_emission srv socket "draw_end" e)
  /\ (exists emitted,
        snd (Index.clear_canvas srv ds socket) = Normal emitted
        /\ forall e, e ∈ emitted ->
             Index.drawing_emission srv socket "clear_canvas" e).
Proof.
  assert (forall e' n e, e ∈ [Index.game_error socket e'] ->
                         Index.drawing_emission srv socket n e) as Herr.
  { intros e' n e He. apply list_elem_of_singleton in He. subst e.
    left. split; reflexivity. }
  unfold Index.draw_start, Index.draw_move, Index.draw_end, Index.clear_canvas.
  destruct (Index.drawing_room_of srv socket) as [[player room]|e0] eqn:Hroom.
  2:{ repeat split; eexists; (split; [reflexivity|]); intros e He;
        try (apply (Herr _ _ e He)); inversion He. }
  unfold DrawingEngine.handleDrawStart, DrawingEngine.handleDrawMove,
    DrawingEngine.handleDrawEnd, DrawingEngine.handleClearCanvas.
  split; [|split; [|split]].
  - pose proof (relay_after_validation srv socket "draw_start" player room body
                  Hroom) as Hrelay.
    destruct (DrawingEngine.validateDrawingEvent room (p_id player) "draw_start")
      as [[] e1]; cbn [negb fst snd] in *.
    + destruct (JS.is_object body); cbn; [exact (Hrelay eq_refl)|].
      eexists. split; [reflexivity|]. intros e He. apply (Herr _ _ e He).
    + eexists. split; [reflexivity|]. intros e He. apply (Herr _ _ e He).
  - assert ((forall b, exists emitted,
                Index.relay_to_guessers srv room "draw_move" b = Normal emitted
                /\ forall e, e ∈ emitted ->
                     Index.drawing_emission srv socket "draw_move" e)
            \/ fst (DrawingEngine.validateDrawingEvent room (p_id player)
                      "draw_move") = false) as Hrelay.
    { destruct (fst (DrawingEngine.validateDrawingEvent room (p_id player)
                       "draw_move")) eqn:Hv; [left|right; reflexivity].
      intros b. exact (relay_after_validation srv socket "draw_move" player room b
                         Hroom Hv). }
    destruct (DrawingEngine.validateDrawingEvent room (p_id player) "draw_move")
      as [[] e1]; cbn [negb fst snd] in *.
    + destruct Hrelay as [Hrelay|]; [|discriminate].
      destruct (DrawingEngine.shouldThrottle now ds (id room)) as [ds1 []];
        cbn [fst snd success data ok].
      * eexists. split; [reflexivity|]. intros e He. inversion He.
      * destruct (JS.is_object body); cbn [negb].
        -- destruct (DrawingEngine.drawBatches ds1 !! id room) as [[|first rest]|];
             cbn [fst snd success data ok]; apply Hrelay.
        -- cbn. eexists. split; [reflexivity|]. intros e He. inversion He.
    + cbn. eexists. split; [reflexivity|]. intros e He. inversion He.
  - pose proof (relay_after_validation srv socket "draw_end" player room body
                  Hroom) as Hrelay.
    destruct (DrawingEngine.validateDrawingEvent room (p_id player) "draw_end")
      as [[] e1]; cbn [negb fst snd] in *.
    + destruct (JS.is_object body); cbn; [exact (Hrelay eq_refl)|].
      eexists. split; [reflexivity|]. intros e He. inversion He.
    + eexists. split; [reflexivity|]. intros e He. inversion He.
  - pose proof (relay_after_validation srv socket "clear_canvas" player room
                  JS.Undefined Hroom) as Hrelay.
    destruct (DrawingEngine.validateDrawingEvent room (p_id player) "clear_canvas")
      as [[] e1]; cbn [negb fst snd] in *.
    + exact (Hrelay eq_refl).
    + eexists. split; [reflexivity|]. intros e He. apply (Herr _ _ e He).
Qed.

Lemma drawing_is_relayed_to_guessers_only_witness :
  snd (Index.draw_start (Fixtures.server_of Fixtures.drawing_room)
         (DrawingEngine.mkState ∅ ∅) "s1" (JS.Obj [("x", JS.Num 1)]))
  = Normal [ Index.mkEmission "s2" "draw_start" (JS.Obj [("x", JS.Num 1)]) ]
  /\ Index.drawing_emission (Fixtures.server_of Fixtures.drawing_room) "s1"
       "draw_start" (Index.mkEmission "s2" "draw_start" (JS.Obj [("x", JS.Num 1)])).
Proof.
  split; [reflexivity|].
  destruct (drawing_is_relayed_to_guessers_only 0
              (Fixtures.server_of Fixtures.drawing_room) (DrawingEngine.mkState ∅ ∅)
              "s1" (JS.Obj [("x", JS.Num 1)])) as ((emitted & Hem & Hall) & _).
  apply Hall. vm_compute in Hem. injection Hem as <-. left.
Defined.

(** ** Consistency of players and rooms *)

Section Consistency.

Import Lobby.

Implicit Types (reg : Players.Registry) (rooms : gmap string Room).

Lemma consistent_initial : consistent (Players.mkRegistry ∅ ∅) ∅.
Proof. split; cbn; intros *; rewrite lookup_empty; discriminate. Qed.

Lemma consistent_one_room reg rooms (c1 c2 : string) (r1 r2 : Room) (key : string) :
  consistent reg rooms ->
  rooms !! c1 = Some r1 -> rooms !! c2 = Some r2 ->
  key ∈ players r1 -> key ∈ players r2 -> c1 = c2.
Proof.
  intros H H1 H2 Hk1 Hk2.
  destruct (room_has_members _ _ H c1 r1 H1) as (_ & _ & _ & _ & Hm1).
  destruct (room_has_members _ _ H c2 r2 H2) as (_ & _ & _ & _ & Hm2).
  destruct (Hm1 key Hk1) as (p1 & Hp1 & Hr1).
  destruct (Hm2 key Hk2) as (p2 & Hp2 & Hr2). congruence.
Qed.

Lemma roomless_no_room reg rooms (key : string) (player : Player) :
  consistent reg rooms -> roomless rooms key ->
  Players.playerById reg !! key = Some player ->
  forall code, roomId player <> Some code.
Proof.
  intros H Hfree Hp code Hr.
  destruct (player_has_room _ _ H key player code Hp Hr) as (room & Hroom & Hin).
  exact (Hfree code room Hroom Hin).
Qed.

(** A change to fields of a player other than its ids and its room. *)
Lemma consistent_player_update reg rooms (key : string) (player player' : Player) :
  consistent reg rooms ->
  Players.playerById reg !! key = Some player ->
  p_id player' = p_id player -> socketId player' = socketId player ->
  roomId player' = roomId player ->
  consistent
    (Players.mkRegistry (Players.players_by_socket reg)
       (<[key := player']> (Players.playerById reg)))
    rooms.
Proof.
  intros H Hp Hid Hsock Hroom. split; cbn.
  - intros socket k Hs.
    destruct (socket_has_player _ _ H socket k Hs) as (q & Hq & Hqs).
    destruct (decide (k = key)) as [->|Hne].
    + rewrite lookup_insert_eq. exists player'. split; [reflexivity|]. congruence.
    + rewrite lookup_insert_ne by congruence. eauto.
  - intros k q. destruct (decide (k = key)) as [->|Hne].
    + rewrite lookup_insert_eq. intros [= <-].
      rewrite Hid, Hsock. exact (player_has_socket _ _ H key player Hp).
    + rewrite lookup_insert_ne by congruence. apply (player_has_socket _ _ H).
  - intros code room Hr.
    destruct (room_has_members _ _ H code room Hr) as (? & ? & ? & ? & Hm).
    repeat split; try assumption.
    intros member Hin. destruct (Hm member Hin) as (q & Hq & Hqr).
    destruct (decide (member = key)) as [->|Hne].
    + rewrite lookup_insert_eq. exists player'. split; [reflexivity|]. congruence.
    + rewrite lookup_insert_ne by congruence. eauto.
  - intros k q code. destruct (decide (k = key)) as [->|Hne].
    + rewrite lookup_insert_eq. intros [= <-]. rewrite Hroom.
      apply (player_has_room _ _ H key player code Hp).
    + rewrite lookup_insert_ne by congruence. apply (player_has_room _ _ H).
Qed.

(** A change to a room that keeps its id and its members. *)
Lemma consistent_room_update reg rooms (code : string) (room room' : Room) :
  consistent reg rooms ->
  rooms !! code = Some room ->
  id room' = id room -> players room' = players room ->
  consistent reg (<[code := room']> rooms).
Proof.
  intros H Hr Hid Hpl. split.
  - apply (socket_has_player _ _ H).
  - apply (player_has_socket _ _ H).
  - intros c r. destruct (decide (c = code)) as [->|Hne].
    + rewrite lookup_insert_eq. intros [= <-]. rewrite Hid, Hpl.
      exact (room_has_members _ _ H code room Hr).
    + rewrite lookup_insert_ne by congruence. apply (room_has_members _ _ H).
  - intros k q c Hq Hqr.
    destruct (player_has_room _ _ H k q c Hq Hqr) as (r & Hr' & Hin).
    destruct (decide (c = code)) as [->|Hne].
    + rewrite lookup_insert_eq. exists room'. split; [reflexivity|].
      rewrite Hpl. congruence.
    + rewrite lookup_insert_ne by congruence. eauto.
Qed.

Lemma consistent_connect reg rooms (socket playerId suffix : string) :
  consistent reg rooms ->
  Players.players_by_socket reg !! socket = None ->
  Players.playerById reg !! playerId = None ->
  consistent (fst (Players.createPlayer reg socket playerId suffix)) rooms.
Proof.
  intros H Hs Hp. unfold Players.createPlayer. split; cbn.
  - intros s k. destruct (decide (s = socket)) as [->|Hne].
    + rewrite lookup_insert_eq. intros [= <-]. rewrite lookup_insert_eq. eauto.
    + rewrite lookup_insert_ne by congruence. intros Hk.
      destruct (socket_has_player _ _ H s k Hk) as (q & Hq & Hqs).
      rewrite lookup_insert_ne by congruence. eauto.
  - intros k q. destruct (decide (k = playerId)) as [->|Hne].
    + rewrite lookup_insert_eq. intros [= <-]. cbn. rewrite lookup_insert_eq. auto.
    + rewrite lookup_insert_ne by congruence. intros Hq.
      destruct (player_has_socket _ _ H k q Hq) as [Hid Hsock].
      split; [exact Hid|]. rewrite lookup_insert_ne; [exact Hsock|]. congruence.
  - intros code room Hr.
    destruct (room_has_members _ _ H code room Hr) as (? & ? & ? & ? & Hm).
    repeat split; try assumption.
    intros member Hin. destruct (Hm member Hin) as (q & Hq & Hqr).
    rewrite lookup_insert_ne by congruence. eauto.
  - intros k q code. destruct (decide (k = playerId)) as [->|Hne].
    + rewrite lookup_insert_eq. intros [= <-]. discriminate.
    + rewrite lookup_insert_ne by congruence. apply (player_has_room _ _ H).
Qed.

(** A player that no room lists enters the room [room'] under [code]: a new
    room of which it is the only member, or the room that was there with the
    player appended. *)
Lemma consistent_enter reg rooms (key code : string) (player : Player) (room' : Room) :
  consistent reg rooms ->
  Players.playerById reg !! key = Some player -> roomless rooms key ->
  id room' = code -> Rooms.normalizeRoomId (JS.Str code) = code -> code <> "" ->
  players room' = default [] (players <$> rooms !! code) ++ [key] ->
  consistent
    (Players.mkRegistry (Players.players_by_socket reg)
       (<[key := mkPlayer (p_id player) (socketId player) (name player) (Some code)
                   (score player)]> (Players.playerById reg)))
    (<[code := room']> rooms).
Proof.
  intros H Hp Hfree Hid Hnorm Hne Hpl. split; cbn.
  - intros socket k Hs.
    destruct (socket_has_player _ _ H socket k Hs) as (q & Hq & Hqs).
    destruct (decide (k = key)) as [->|Hk].
    + rewrite lookup_insert_eq. eexists. split; [reflexivity|]. cbn. congruence.
    + rewrite lookup_insert_ne by congruence. eauto.
  - intros k q. destruct (decide (k = key)) as [->|Hk].
    + rewrite lookup_insert_eq. intros [= <-]. cbn.
      exact (player_has_socket _ _ H key player Hp).
    + rewrite lookup_insert_ne by congruence. apply (player_has_socket _ _ H).
  - intros c r. destruct (decide (c = code)) as [->|Hc].
    + rewrite lookup_insert_eq. intros [= <-].
      split; [exact Hid|]. split; [exact Hnorm|]. split; [exact Hne|].
      rewrite Hpl. destruct (rooms !! code) as [old|] eqn:Hold; cbn.
      * destruct (room_has_members _ _ H code old Hold) as (_ & _ & _ & Hnd & Hm).
        split.
        -- apply NoDup_app. split; [exact Hnd|]. split; [|apply NoDup_singleton].
           intros x Hx Hx'. apply list_elem_of_singleton in Hx'. subst x.
           exact (Hfree code old Hold Hx).
        -- intros member Hin. apply elem_of_app in Hin. destruct Hin as [Hin|Hin].
           ++ destruct (Hm member Hin) as (q & Hq & Hqr).
              assert (member <> key) by (intros ->; exact (Hfree code old Hold Hin)).
              rewrite lookup_insert_ne by congruence. eauto.
           ++ apply list_elem_of_singleton in Hin. subst member.
              rewrite lookup_insert_eq. eauto.
      * split; [apply NoDup_singleton|].
        intros member Hin. apply list_elem_of_singleton in Hin. subst member.
        rewrite lookup_insert_eq. eauto.
    + rewrite lookup_insert_ne by congruence. intros Hr.
      destruct (room_has_members _ _ H c r Hr) as (? & ? & ? & ? & Hm).
      repeat split; try assumption.
      intros member Hin. destruct (Hm member Hin) as (q & Hq & Hqr).
      assert (member <> key) by (intros ->; exact (Hfree c r Hr Hin)).
      rewrite lookup_insert_ne by congruence. eauto.
  - intros k q c. destruct (decide (k = key)) as [->|Hk].
    + rewrite lookup_insert_eq. intros [= <-]. cbn. intros [= <-].
      rewrite lookup_insert_eq. exists room'. split; [reflexivity|].
      rewrite Hpl. apply elem_of_app. right. apply list_elem_of_singleton. reflexivity.
    + rewrite lookup_insert_ne by congruence. intros Hq Hqr.
      destruct (player_has_room _ _ H k q c Hq Hqr) as (r & Hr & Hin).
      destruct (decide (c = code)) as [->|Hc].
      * rewrite lookup_insert_eq. exists room'. split; [reflexivity|].
        rewrite Hpl, Hr. cbn. apply elem_of_app. auto.
      * rewrite lookup_insert_ne by congruence. eauto.
Qed.

End Consistency.

Section Leaving.

Import Lobby.

Implicit Types (reg : Players.Registry) (rooms : gmap string Room).

Lemma indexOf_elem (p : string) (l : list string) :
  p ∈ l -> exists i, Rooms.indexOf p l = Some i.
Proof.
  intros Hp. unfold Rooms.indexOf.
  destruct (list_find (fun q => q = p) l) as [[i x]|] eqn:E; [cbn; eauto|].
  exfalso. apply list_find_None in E. rewrite Forall_forall in E.
  exact (E p Hp eq_refl).
Qed.

Lemma delete_to_nil (p : string) (l : list string) (i : nat) :
  l !! i = Some p -> delete i l = [] -> l = [p].
Proof.
  destruct l as [|x [|y l]]; intros Hi Hd; [discriminate| |].
  - destruct i; cbn in Hi; [congruence|discriminate].
  - destruct i; discriminate.
Qed.

(** What [leaveRoom] does for a member of the room it finds. *)
Lemma leaveRoom_member rooms (key code : string) (room : Room) :
  Rooms.normalizeRoomId (JS.Str code) = code ->
  rooms !! code = Some room -> key ∈ players room ->
  exists i,
    players room !! i = Some key
    /\ success (snd (Rooms.leaveRoom rooms key (JS.Str code))) = true
    /\ ((delete i (players room) = []
         /\ snd (data (snd (Rooms.leaveRoom rooms key (JS.Str code)))) = true
         /\ fst (Rooms.leaveRoom rooms key (JS.Str code)) = delete code rooms)
        \/ exists room',
             snd (data (snd (Rooms.leaveRoom rooms key (JS.Str code)))) = false
             /\ fst (Rooms.leaveRoom rooms key (JS.Str code))
                = <[code := room']> rooms
             /\ id room' = id room
             /\ players room' = delete i (players room)
             /\ players room' <> []).
Proof.
  intros Hnorm Hroom Hin.
  destruct (indexOf_elem key (players room) Hin) as [i Hi].
  exists i. split; [exact (proj1 (indexOf_Some key (players room) i Hi))|].
  unfold Rooms.leaveRoom. rewrite Hnorm, Hroom, Hi. cbn [players set_players].
  destruct (delete i (players room)) as [|first rest] eqn:Hd.
  - split; [reflexivity|]. left. auto.
  - split; [reflexivity|]. right. cbn [ownerId set_players].
    destruct (String.eqb (ownerId room) key);
      (eexists; split; [reflexivity|]; split; [reflexivity|]);
      cbn; (split; [reflexivity|]); (split; [reflexivity|]); discriminate.
Qed.

(** A player leaves the room that its [roomId] names. *)
Lemma consistent_leave reg rooms (key code : string) (player : Player) :
  consistent reg rooms ->
  Players.playerById reg !! key = Some player -> roomId player = Some code ->
  success (snd (Rooms.leaveRoom rooms key (JS.Str code))) = true
  /\ roomless (fst (Rooms.leaveRoom rooms key (JS.Str code))) key
  /\ consistent
       (Players.mkRegistry (Players.players_by_socket reg)
          (<[key := mkPlayer (p_id player) (socketId player) (name player) None
                      (score player)]> (Players.playerById reg)))
       (fst (Rooms.leaveRoom rooms key (JS.Str code))).
Proof.
  intros H Hp Hr.
  destruct (player_has_room _ _ H key player code Hp Hr) as (room & Hroom & Hin).
  destruct (room_has_members _ _ H code room Hroom)
    as (Hid & Hnorm & Hne & Hnd & Hm).
  destruct (leaveRoom_member rooms key code room Hnorm Hroom Hin)
    as (i & Hi & Hok & Hcases).
  split; [exact Hok|].
  assert (forall c r, c <> code -> rooms !! c = Some r -> key ∉ players r) as Hother.
  { intros c r Hc Hcr Hk. apply Hc.
    exact (consistent_one_room reg rooms c code r room key H Hcr Hroom Hk Hin). }
  pose proof (not_elem_of_delete_NoDup key (players room) i Hnd Hi) as Hgone.
  assert (forall rooms',
            (forall c r, rooms' !! c = Some r ->
               (c <> code /\ rooms !! c = Some r)
               \/ (c = code /\ id r = id room
                   /\ players r = delete i (players room))) ->
            (forall c r, c <> code -> rooms !! c = Some r -> rooms' !! c = Some r) ->
            (delete i (players room) <> [] ->
             exists r, rooms' !! code = Some r
                       /\ players r = delete i (players room)) ->
            roomless rooms' key
            /\ consistent
                 (Players.mkRegistry (Players.players_by_socket reg)
                    (<[key := mkPlayer (p_id player) (socketId player) (name player)
                                None (score player)]> (Players.playerById reg)))
                 rooms') as Hgen.
  { intros rooms' Hfrom Hkeep Hstay. split.
    - intros c r Hcr. destruct (Hfrom c r Hcr) as [[Hc Hold]|(-> & _ & Hpl)].
      + exact (Hother c r Hc Hold).
      + rewrite Hpl. exact Hgone.
    - split; cbn.
      + intros socket k Hs.
        destruct (socket_has_player _ _ H socket k Hs) as (q & Hq & Hqs).
        destruct (decide (k = key)) as [->|Hk].
        * rewrite lookup_insert_eq. eexists. split; [reflexivity|]. cbn. congruence.
        * rewrite lookup_insert_ne by congruence. eauto.
      + intros k q. destruct (decide (k = key)) as [->|Hk].
        * rewrite lookup_insert_eq. intros [= <-]. cbn.
          exact (player_has_socket _ _ H key player Hp).
        * rewrite lookup_insert_ne by congruence. apply (player_has_socket _ _ H).
      + intros c r Hcr.
        destruct (Hfrom c r Hcr) as [[Hc Hold]|(-> & Hid' & Hpl)].
        * destruct (room_has_members _ _ H c r Hold) as (? & ? & ? & ? & Hm').
          repeat split; try assumption.
          intros member Hmem. destruct (Hm' member Hmem) as (q & Hq & Hqr).
          assert (member <> key) by (intros ->; exact (Hother c r Hc Hold Hmem)).
          rewrite lookup_insert_ne by congruence. eauto.
        * split; [congruence|]. split; [exact Hnorm|]. split; [exact Hne|].
          rewrite Hpl. split; [apply NoDup_delete; exact Hnd|].
          intros member Hmem.
          assert (member <> key) by (intros ->; exact (Hgone Hmem)).
          destruct (Hm member (list_elem_of_delete_inv member i _ Hmem)) as (q & Hq & Hqr).
          rewrite lookup_insert_ne by congruence. eauto.
      + intros k q c. destruct (decide (k = key)) as [->|Hk].
        * rewrite lookup_insert_eq. intros [= <-]. discriminate.
        * rewrite lookup_insert_ne by congruence. intros Hq Hqr.
          destruct (player_has_room _ _ H k q c Hq Hqr) as (r & Hcr & Hmem).
          destruct (decide (c = code)) as [->|Hc].
          -- assert (r = room) as -> by congruence.
             assert (k ∈ delete i (players room)) as Hk'
               by (eapply elem_of_delete_other; eauto).
             destruct Hstay as (r' & Hr' & Hpl').
             { intros E. rewrite E in Hk'. inversion Hk'. }
             exists r'. split; [exact Hr'|]. rewrite Hpl'. exact Hk'.
          -- exists r. split; [apply Hkeep; assumption|exact Hmem]. }
  destruct Hcases as [(Hd & _ & ->)|(room' & _ & -> & Hid' & Hpl' & Hne')].
  - apply Hgen.
    + intros c r Hcr. left. destruct (decide (c = code)) as [->|Hc].
      * rewrite lookup_delete_eq in Hcr. discriminate.
      * rewrite lookup_delete_ne in Hcr by congruence. auto.
    + intros c r Hc Hcr. rewrite lookup_delete_ne by congruence. exact Hcr.
    + intros Hn. contradiction.
  - apply Hgen.
    + intros c r Hcr. destruct (decide (c = code)) as [->|Hc].
      * rewrite lookup_insert_eq in Hcr. injection Hcr as <-. right. auto.
      * rewrite lookup_insert_ne in Hcr by congruence. auto.
    + intros c r Hc Hcr. rewrite lookup_insert_ne by congruence. exact Hcr.
    + intros _. exists room'. split; [apply lookup_insert_eq|exact Hpl'].
Qed.

(** A player that no room lists is taken out of the registry. *)
Lemma consistent_remove reg rooms (socket key : string) (player : Player) :
  consistent reg rooms ->
  Players.players_by_socket reg !! socket = Some key ->
  Players.playerById reg !! key = Some player ->
  roomless rooms key ->
  consistent
    (Players.mkRegistry (delete socket (Players.players_by_socket reg))
       (delete key (Players.playerById reg)))
    rooms.
Proof.
  intros H Hs Hp Hfree.
  destruct (socket_has_player _ _ H socket key Hs) as (p' & Hp' & Hsock).
  assert (p' = player) as -> by congruence.
  split; cbn.
  - intros s k. destruct (decide (s = socket)) as [->|Hne].
    + rewrite lookup_delete_eq. discriminate.
    + rewrite lookup_delete_ne by congruence. intros Hk.
      destruct (socket_has_player _ _ H s k Hk) as (q & Hq & Hqs).
      assert (k <> key) by (intros ->; congruence).
      rewrite lookup_delete_ne by congruence. eauto.
  - intros k q. destruct (decide (k = key)) as [->|Hne].
    + rewrite lookup_delete_eq. discriminate.
    + rewrite lookup_delete_ne by congruence. intros Hq.
      destruct (player_has_socket _ _ H k q Hq) as [Hid Hqs].
      split; [exact Hid|].
      rewrite lookup_delete_ne; [exact Hqs|]. intros E. rewrite <- E in Hqs. congruence.
  - intros code room Hr.
    destruct (room_has_members _ _ H code room Hr) as (? & ? & ? & ? & Hm).
    repeat split; try assumption.
    intros member Hin. destruct (Hm member Hin) as (q & Hq & Hqr).
    assert (member <> key) by (intros ->; exact (Hfree code room Hr Hin)).
    rewrite lookup_delete_ne by congruence. eauto.
  - intros k q code. destruct (decide (k = key)) as [->|Hne].
    + rewrite lookup_delete_eq. discriminate.
    + rewrite lookup_delete_ne by congruence. apply (player_has_room _ _ H).
Qed.

End Leaving.

Section Handlers.

Import Lobby.

Implicit Types (reg : Players.Registry) (rooms : gmap string Room)
  (srv : Index.Server).

Lemma getRoomByPlayer_None rooms (key : string) :
  Rooms.getRoomByPlayer rooms key = None -> roomless rooms key.
Proof.
  unfold Rooms.getRoomByPlayer. intros Hnone code room Hroom Hin.
  destruct (List.find _ (map_to_list rooms)) as [entry|] eqn:E; [discriminate|].
  assert (bool_decide (key ∈ players (snd (code, room))) = false) as Hf.
  { apply (find_none _ _ E (code, room)).
    apply list_elem_of_In. apply elem_of_map_to_list. exact Hroom. }
  apply bool_decide_eq_false in Hf. exact (Hf Hin).
Qed.

Lemma getPlayer_key reg rooms (socket : string) (player : Player) :
  consistent reg rooms -> Players.getPlayer reg socket = Some player ->
  Players.players_by_socket reg !! socket = Some (p_id player)
  /\ Players.playerById reg !! p_id player = Some player.
Proof.
  intros H Hp. apply getPlayer_inv in Hp. destruct Hp as (key & Hs & Hk).
  destruct (player_has_socket _ _ H key player Hk) as [<- _]. auto.
Qed.

Lemma updatePlayerRoom_found reg (key : string) (player : Player)
    (r : option string) :
  Players.playerById reg !! key = Some player ->
  fst (Players.updatePlayerRoom reg key r)
  = Players.mkRegistry (Players.players_by_socket reg)
      (<[key := mkPlayer (p_id player) (socketId player) (name player) r
                  (score player)]> (Players.playerById reg)).
Proof. intros Hp. unfold Players.updatePlayerRoom. rewrite Hp. reflexivity. Qed.

Lemma truthy_string_Some (o : option string) (s : string) :
  WordEngine.truthy_string o = Some s -> o = Some s.
Proof.
  destruct o as [t|]; cbn; [|discriminate].
  destruct (String.eqb t ""); [discriminate|]. auto.
Qed.

Lemma updatePlayerName_consistent reg rooms (socket : string) (newName : JS.Value) :
  consistent reg rooms ->
  consistent (fst (Players.updatePlayerName reg socket newName)) rooms.
Proof.
  intros H. unfold Players.updatePlayerName.
  destruct (Players.players_by_socket reg !! socket) as [key|]; [|exact H].
  destruct (Players.playerById reg !! key) as [player|] eqn:Hp; [|exact H].
  destruct (Players.validateName newName) as [[[] sanitized] e]; cbn; [|exact H].
  apply (consistent_player_update reg rooms key player); auto.
Qed.

Lemma set_player_name_consistent srv (socket : string) (body : JS.Value) :
  consistent (Index.registry_of srv) (Index.rooms srv) ->
  consistent (Index.registry_of (fst (Index.set_player_name srv socket body)))
    (Index.rooms (fst (Index.set_player_name srv socket body))).
Proof.
  intros H. unfold Index.set_player_name.
  destruct (JS.is_object body); cbn [negb]; [|exact H].
  pose proof (updatePlayerName_consistent _ _ socket (JS.prop body "name") H) as H'.
  destruct (Players.updatePlayerName (Index.registry_of srv) socket
              (JS.prop body "name")) as [reg result].
  cbn [fst] in H'.
  destruct (data result); [destruct (success result)|]; exact H'.
Qed.

Lemma create_room_consistent (draw : nat -> nat) srv (socket : string)
    (body : JS.Value) :
  consistent (Index.registry_of srv) (Index.rooms srv) ->
  consistent (Index.registry_of (fst (Index.create_room draw srv socket body)))
    (Index.rooms (fst (Index.create_room draw srv socket body))).
Proof.
  intros H. unfold Index.create_room.
  destruct (Players.getPlayer (Index.registry_of srv) socket) as [player|] eqn:Hp;
    [|exact H].
  destruct (getPlayer_key _ _ socket player H Hp) as [_ Hk].
  destruct (Rooms.getRoomByPlayer (Index.rooms srv) (p_id player)) eqn:Hfree;
    [exact H|].
  apply getRoomByPlayer_None in Hfree.
  set (raw := if JS.is_object body then JS.prop body "settings" else JS.Null).
  unfold Rooms.createRoom.
  destruct (Rooms.generateRoomId draw (Index.rooms srv)) as [code|e] eqn:Hcode;
    [|exact H].
  cbn [fst snd data success ok].
  destruct (generateRoomId_units draw _ code Hcode) as [Hlen Hunits].
  pose proof (createRoom_fresh draw _ code Hcode) as Hnew.
  cbn [id Index.registry_of Index.put_registry Index.store Index.rooms
         ScoreEngine.registry].
  change (Index.registry_of (Index.mkServer (Index.store srv) ?r))
    with (Index.registry_of srv).
  rewrite (updatePlayerRoom_found _ (p_id player) player (Some code) Hk).
  apply (consistent_enter _ _ (p_id player) code player); auto.
  - apply normalizeRoomId_code. exact Hunits.
  - intros ->. discriminate Hlen.
  - rewrite Hnew. reflexivity.
Qed.

Lemma join_room_consistent srv (socket : string) (body : JS.Value) :
  consistent (Index.registry_of srv) (Index.rooms srv) ->
  consistent (Index.registry_of (fst (Index.join_room srv socket body)))
    (Index.rooms (fst (Index.join_room srv socket body))).
Proof.
  intros H. unfold Index.join_room.
  destruct (Players.getPlayer (Index.registry_of srv) socket) as [player|] eqn:Hp;
    [|exact H].
  destruct (getPlayer_key _ _ socket player H Hp) as [_ Hk].
  destruct (Rooms.getRoomByPlayer (Index.rooms srv) (p_id player)) eqn:Hfree;
    [exact H|].
  apply getRoomByPlayer_None in Hfree.
  destruct (negb (JS.is_object body) || negb (JS.truthy (JS.prop body "roomId")));
    [exact H|].
  unfold Rooms.joinRoom.
  destruct (Index.rooms srv !! Rooms.normalizeRoomId (JS.prop body "roomId"))
    as [room|] eqn:Hroom; [|exact H].
  destruct (bool_decide (status room = WAITING)); cbn [negb]; [|exact H].
  destruct (bool_decide (p_id player ∈ players room)); [exact H|].
  destruct (_ <=? _); [exact H|].
  cbn [fst snd data success ok].
  destruct (room_has_members _ _ H _ room Hroom) as (Hid & Hnorm & Hne & _).
  cbn [id set_players Index.registry_of Index.put_registry Index.store Index.rooms
         ScoreEngine.registry].
  change (Index.registry_of (Index.mkServer (Index.store srv) ?r))
    with (Index.registry_of srv).
  rewrite (updatePlayerRoom_found _ (p_id player) player (Some (id room)) Hk).
  rewrite Hid.
  apply (consistent_enter _ _ (p_id player) _ player); auto.
  rewrite Hroom. reflexivity.
Qed.

Lemma leave_room_consistent srv (socket : string) :
  consistent (Index.registry_of srv) (Index.rooms srv) ->
  consistent (Index.registry_of (fst (Index.leave_room srv socket)))
    (Index.rooms (fst (Index.leave_room srv socket))).
Proof.
  intros H. unfold Index.leave_room.
  destruct (Players.getPlayer (Index.registry_of srv) socket) as [player|] eqn:Hp;
    [|exact H].
  destruct (getPlayer_key _ _ socket player H Hp) as [_ Hk].
  destruct (WordEngine.truthy_string (roomId player)) as [code|] eqn:Hr; [|exact H].
  apply truthy_string_Some in Hr.
  destruct (consistent_leave _ _ (p_id player) code player H Hk Hr)
    as (Hok & _ & H').
  destruct (Rooms.leaveRoom (Index.rooms srv) (p_id player) (JS.Str code))
    as [rooms' result].
  cbn [fst snd] in *. rewrite Hok.
  assert (consistent
            (Index.registry_of
               (Index.put_registry (Index.mkServer (Index.store srv) rooms')
                  (fst (Players.updatePlayerRoom
                          (Index.registry_of (Index.mkServer (Index.store srv) rooms'))
                          (p_id player) None))))
            rooms') as Hfinal.
  { cbn [Index.registry_of Index.put_registry Index.store ScoreEngine.registry].
    change (Index.registry_of (Index.mkServer (Index.store srv) ?r))
    with (Index.registry_of srv).
    rewrite (updatePlayerRoom_found _ (p_id player) player None Hk). exact H'. }
  destruct (snd (data result)); exact Hfinal.
Qed.

Lemma update_room_settings_consistent srv (socket : string) (body : JS.Value) :
  consistent (Index.registry_of srv) (Index.rooms srv) ->
  consistent (Index.registry_of (fst (Index.update_room_settings srv socket body)))
    (Index.rooms (fst (Index.update_room_settings srv socket body))).
Proof.
  intros H. unfold Index.update_room_settings.
  destruct (Players.getPlayer (Index.registry_of srv) socket) as [player|];
    [|exact H].
  destruct (WordEngine.truthy_string (roomId player)) as [code|]; [|exact H].
  destruct (negb (JS.is_object body) || negb (JS.truthy (JS.prop body "settings")));
    [exact H|].
  unfold Rooms.updateRoomSettings.
  destruct (Index.rooms srv !! Rooms.normalizeRoomId (JS.Str code))
    as [room|] eqn:Hroom; [|exact H].
  destruct (String.eqb (ownerId room) (p_id player)); cbn [negb]; [|exact H].
  destruct (bool_decide (status room = WAITING)); cbn [negb]; [|exact H].
  destruct (_ <? _); [exact H|].
  cbn [fst snd data success ok].
  apply (consistent_room_update _ _ _ room); auto.
Qed.

Lemma disconnect_consistent srv (socket : string) :
  consistent (Index.registry_of srv) (Index.rooms srv) ->
  consistent (Index.registry_of (fst (Index.disconnect srv socket)))
    (Index.rooms (fst (Index.disconnect srv socket))).
Proof.
  intros H. unfold Index.disconnect.
  destruct (Players.getPlayer (Index.registry_of srv) socket) as [player|] eqn:Hp.
  2:{ cbn [fst Index.put_registry Index.rooms]. unfold Players.removePlayer.
      rewrite Hp. exact H. }
  destruct (getPlayer_key _ _ socket player H Hp) as [Hs Hk].
  assert (forall rooms', roomless rooms' (p_id player) ->
            consistent (Players.mkRegistry
                          (Players.players_by_socket (Index.registry_of srv))
                          (<[p_id player :=
                               mkPlayer (p_id player) (socketId player) (name player)
                                 None (score player)]>
                             (Players.playerById (Index.registry_of srv))))
              rooms' ->
            consistent
              (fst (Players.removePlayer (Index.registry_of srv) socket)) rooms')
    as Hremove.
  { intros rooms' Hfree H'. unfold Players.removePlayer. rewrite Hp. cbn [fst].
    pose proof (consistent_remove _ rooms' socket (p_id player) _ H' Hs
                  (lookup_insert_eq _ _ _) Hfree) as Hrem.
    cbn in Hrem. rewrite delete_insert_eq in Hrem. exact Hrem. }
  destruct (WordEngine.truthy_string (roomId player)) as [code|] eqn:Hr.
  - apply truthy_string_Some in Hr.
    destruct (consistent_leave _ _ (p_id player) code player H Hk Hr)
      as (_ & Hfree & H').
    destruct (Rooms.leaveRoom (Index.rooms srv) (p_id player) (JS.Str code))
      as [rooms' result].
    cbn [fst snd] in *.
    destruct (success result && negb (snd (data result)));
      cbn [fst Index.registry_of Index.put_registry Index.store Index.rooms
             ScoreEngine.registry];
      change (Index.registry_of (Index.mkServer (Index.store srv) ?r))
        with (Index.registry_of srv); apply Hremove; assumption.
  - cbn [fst Index.registry_of Index.put_registry Index.store Index.rooms
           ScoreEngine.registry].
    change (Index.registry_of (Index.mkServer (Index.store srv) ?r))
    with (Index.registry_of srv).
    assert (roomless (Index.rooms srv) (p_id player)) as Hfree.
    { intros code room Hroom Hin.
      destruct (room_has_members _ _ H code room Hroom) as (_ & _ & Hne & _ & Hm).
      destruct (Hm _ Hin) as (q & Hq & Hqr).
      assert (q = player) as -> by congruence.
      rewrite Hqr in Hr. cbn in Hr.
      destruct (String.eqb_spec code ""); [contradiction|discriminate]. }
    unfold Players.removePlayer. rewrite Hp. cbn [fst].
    exact (consistent_remove _ _ socket (p_id player) player H Hs Hk Hfree).
Qed.

End Handlers.

Section GameHandlers.

Import Lobby.

Implicit Types (reg : Players.Registry) (rooms : gmap string Room)
  (srv : Index.Server).

Lemma put_room_consistent srv (key : string) (room room' : Room) :
  consistent (Index.registry_of srv) (Index.rooms srv) ->
  Index.rooms srv !! key = Some room ->
  Lifecycle.game_change room room' ->
  consistent (Index.registry_of (Index.put_room srv key room'))
    (Index.rooms (Index.put_room srv key room')).
Proof.
  intros H Hroom Hc.
  destruct (game_change_members room room' Hc) as [Hpl _].
  destruct (game_change_identity room room' Hc) as [Hid _].
  exact (consistent_room_update _ _ key room room' H Hroom Hid Hpl).
Qed.

Lemma start_game_consistent (now : Z) srv (socket : string) :
  consistent (Index.registry_of srv) (Index.rooms srv) ->
  consistent
    (Index.registry_of (fst (Index.start_game Players.playerManager now srv socket)))
    (Index.rooms (fst (Index.start_game Players.playerManager now srv socket))).
Proof.
  intros H. unfold Index.start_game.
  destruct (Index.resolve Players.playerManager srv socket)
    as [[[player key] room]|e] eqn:Hres; [|exact H].
  apply resolve_room in Hres.
  pose proof (startGame_change room (p_id player)) as Hc.
  destruct (GameEngine.startGame room (p_id player)) as [room' result].
  cbn [fst] in Hc.
  pose proof (put_room_consistent srv key room room' H Hres Hc) as H'.
  destruct (success result); exact H'.
Qed.

Lemma play_again_consistent srv (socket : string) :
  consistent (Index.registry_of srv) (Index.rooms srv) ->
  consistent
    (Index.registry_of (fst (Index.play_again Players.playerManager srv socket)))
    (Index.rooms (fst (Index.play_again Players.playerManager srv socket))).
Proof.
  intros H. unfold Index.play_again.
  destruct (Index.resolve Players.playerManager srv socket)
    as [[[player key] room]|e] eqn:Hres; [|exact H].
  apply resolve_room in Hres.
  destruct (negb (String.eqb (ownerId room) (p_id player))); [exact H|].
  destruct (negb (bool_decide (status room = FINISHED))); [exact H|].
  cbn [GameEngine.resetGame success ok Players.pm_resetPlayerScores
         Players.playerManager fst].
  apply (put_room_consistent srv key room); [exact H|exact Hres|].
  destruct room. apply Lifecycle.change_reset.
Qed.

Lemma initialize_score_consistent reg rooms (player : Player) :
  consistent reg rooms ->
  Players.playerById reg !! p_id player = Some player ->
  consistent (fst (ScoreEngine.initialize_score reg player)) rooms.
Proof.
  intros H Hp. unfold ScoreEngine.initialize_score.
  destruct (score player); [exact H|]. cbn [fst p_id set_score].
  apply (consistent_player_update reg rooms (p_id player) player); auto.
Qed.

(** Scoring a guess without an [updatePlayerScore] touches the registry
    only to give the player a score of 0. *)
Lemma awardGuessScore_consistent (now t : Z) (st : ScoreEngine.Store) rooms
    (room : Room) (playerId : string) :
  consistent (ScoreEngine.registry st) rooms ->
  consistent
    (ScoreEngine.registry
       (fst (ScoreEngine.awardGuessScore now Players.getPlayerById None st room
               playerId t)))
    rooms.
Proof.
  intros H. unfold ScoreEngine.awardGuessScore.
  destruct (negb (fst (GameEngine.hasActiveGame room))); [exact H|].
  destruct (game room) as [g|]; [|exact H].
  destruct (ScoreEngine.getGuessTime _ _ _ _) as [existing|].
  - destruct (Players.getPlayerById _ _); exact H.
  - cbn [ScoreEngine.registry].
    destruct (Players.getPlayerById (ScoreEngine.registry st) playerId)
      as [player|] eqn:Hp; [|exact H].
    unfold Players.getPlayerById in Hp.
    destruct (player_has_socket _ _ H playerId player Hp) as [Hid _].
    rewrite <- Hid in Hp.
    pose proof (initialize_score_consistent _ _ player H Hp) as H'.
    destruct (ScoreEngine.initialize_score (ScoreEngine.registry st) player)
      as [reg' player'].
    exact H'.
Qed.

Lemma guess_consistent (guessTimestamp now : Z) srv (socket : string)
    (body : JS.Value) :
  consistent (Index.registry_of srv) (Index.rooms srv) ->
  consistent
    (Index.registry_of
       (fst (Index.guess Players.playerManager guessTimestamp now srv socket body)))
    (Index.rooms
       (fst (Index.guess Players.playerManager guessTimestamp now srv socket body))).
Proof.
  intros H. unfold Index.guess.
  destruct (Index.resolve Players.playerManager srv socket)
    as [[[player key] room]|e] eqn:Hres; [|exact H].
  apply resolve_room in Hres.
  destruct (if JS.is_object body then JS.prop body "guess" else JS.Undefined);
    try exact H.
  pose proof (validateGuess_change room (p_id player) s) as Hc.
  destruct (GuessEngine.validateGuess room (p_id player) s) as [room' result].
  cbn [fst] in Hc.
  pose proof (put_room_consistent srv key room room' H Hres Hc) as H'.
  destruct (negb (success result)); [exact H'|].
  destruct (data result); [|exact H'].
  pose proof (awardGuessScore_consistent now guessTimestamp
                (Index.store (Index.put_room srv key room'))
                (Index.rooms (Index.put_room srv key room')) room' (p_id player) H')
    as H''.
  cbn [Players.pm_getPlayerById Players.pm_updatePlayerScore Players.playerManager].
  destruct (ScoreEngine.awardGuessScore now Players.getPlayerById None
              (Index.store (Index.put_room srv key room')) room' (p_id player)
              guessTimestamp) as [st scored].
  destruct scored; exact H''.
Qed.

Lemma handle_consistent (e : Event) srv :
  consistent (Index.registry_of srv) (Index.rooms srv) ->
  fresh srv e = true ->
  consistent (Index.registry_of (handle e srv)) (Index.rooms (handle e srv)).
Proof.
  intros H Hfresh.
  destruct e as [socket playerId sfx| | | | | | | | |]; cbn [handle].
  - cbn in Hfresh. apply andb_true_iff in Hfresh. destruct Hfresh as [Hs Hp].
    apply bool_decide_eq_true in Hs, Hp.
    pose proof (consistent_connect _ _ socket playerId sfx H Hs Hp) as H'.
    unfold Index.connection.
    destruct (Players.createPlayer (Index.registry_of srv) socket playerId sfx).
    exact H'.
  - apply set_player_name_consistent. exact H.
  - apply create_room_consistent. exact H.
  - apply join_room_consistent. exact H.
  - apply leave_room_consistent. exact H.
  - apply update_room_settings_consistent. exact H.
  - apply start_game_consistent. exact H.
  - apply guess_consistent. exact H.
  - apply play_again_consistent. exact H.
  - apply disconnect_consistent. exact H.
Qed.

Lemma run_from_consistent (events : list Event) srv :
  consistent (Index.registry_of srv) (Index.rooms srv) ->
  admissible srv events = true ->
  consistent (Index.registry_of (run_from srv events))
    (Index.rooms (run_from srv events)).
Proof.
  revert srv. induction events as [|e events IH]; intros srv H Hok; [exact H|].
  cbn in Hok. apply andb_true_iff in Hok. destruct Hok as [Hfresh Hrest].
  unfold run_from. cbn [foldl]. apply IH; [|exact Hrest].
  apply handle_consistent; assumption.
Qed.

Lemma run_consistent (events : list Event) :
  admissible initial events = true ->
  consistent (Index.registry_of (run events)) (Index.rooms (run events)).
Proof. apply run_from_consistent. exact consistent_initial. Qed.

End GameHandlers.

(** X20: through the handlers of index.js (connection, set_player_name,
    create_room, join_room, leave_room, update_room_settings, start_game,
    guess, play_again, disconnect), from the start of the process and with
    socket ids and player ids that are new at each connection, players and
    rooms stay consistent: every member of a room is a connected player
    whose [roomId] is the id under which the room is stored; the [roomId] of
    a player names a room that lists the player; no room lists a player
    twice; and no player is a member of two rooms. *)
Theorem handlers_keep_players_and_rooms_consistent (events : list Lobby.Event) :
  Lobby.admissible Lobby.initial events = true ->
  let srv := Lobby.run events in
  let reg := Index.registry_of srv in
  (forall code room member,
     Index.rooms srv !! code = Some room -> member ∈ players room ->
     id room = code
     /\ exists player,
          Players.getPlayerById reg member = Some player
          /\ Players.getPlayer reg (socketId player) = Some player
          /\ p_id player = member /\ roomId player = Some code)
  /\ (forall key player code,
        Players.getPlayerById reg key = Some player -> roomId player = Some code ->
        exists room,
          Rooms.getRoom (Index.rooms srv) (JS.Str code) = Some room
          /\ key ∈ players room)
  /\ (forall code room, Index.rooms srv !! code = Some room -> NoDup (players room))
  /\ (forall code1 code2 room1 room2 member,
        Index.rooms srv !! code1 = Some room1 ->
        Index.rooms srv !! code2 = Some room2 ->
        member ∈ players room1 -> member ∈ players room2 -> code1 = code2).
Proof.
  intros Hok. cbn zeta. pose proof (run_consistent events Hok) as H.
  split; [|split; [|split]].
  - intros code room member Hroom Hin.
    destruct (Lobby.room_has_members _ _ H code room Hroom) as (Hid & _ & _ & _ & Hm).
    split; [exact Hid|].
    destruct (Hm member Hin) as (player & Hp & Hr).
    destruct (Lobby.player_has_socket _ _ H member player Hp) as [Hpid Hs].
    exists player. split; [exact Hp|]. split; [|auto].
    unfold Players.getPlayer. rewrite Hs. exact Hp.
  - intros key player code Hp Hr.
    destruct (Lobby.player_has_room _ _ H key player code Hp Hr)
      as (room & Hroom & Hin).
    destruct (Lobby.room_has_members _ _ H code room Hroom) as (_ & Hnorm & _).
    exists room. split; [|exact Hin]. unfold Rooms.getRoom. rewrite Hnorm. exact Hroom.
  - intros code room Hroom.
    destruct (Lobby.room_has_members _ _ H code room Hroom) as (_ & _ & _ & Hnd & _).
    exact Hnd.
  - intros c1 c2 r1 r2 member H1 H2 Hin1 Hin2.
    exact (consistent_one_room _ _ c1 c2 r1 r2 member H H1 H2 Hin1 Hin2).
Qed.

Lemma handlers_keep_players_and_rooms_consistent_witness :
  Index.rooms (Lobby.run Fixtures.lobby_events) !! "ABC123"
  = Some (mkRoom "ABC123" "p2" ["p2"] Rooms.DEFAULT_SETTINGS WAITING None)
  /\ exists player,
       Players.getPlayerById (Index.registry_of (Lobby.run Fixtures.lobby_events)) "p2"
       = Some player
       /\ roomId player = Some "ABC123".
Proof.
  split; [vm_compute; reflexivity|].
  destruct (handlers_keep_players_and_rooms_consistent Fixtures.lobby_events)
    as (Hmember & _); [vm_compute; reflexivity|].
  destruct (Hmember "ABC123"
              (mkRoom "ABC123" "p2" ["p2"] Rooms.DEFAULT_SETTINGS WAITING None) "p2")
    as (_ & player & Hp & _ & _ & Hr).
  - vm_compute. reflexivity.
  - left.
  - exists player. auto.
Defined.

(** X21: in every such state the two ways in which index.js finds the room
    of a player agree: the search through the rooms for one that lists the
    player ([getRoomByPlayer], used before a room is created or joined)
    returns the room stored under the player's [roomId] (used by the other
    handlers), and nothing when the player has no [roomId]. *)
Theorem getRoomByPlayer_agrees_with_roomId (events : list Lobby.Event)
    (key : string) (player : Player) :
  Lobby.admissible Lobby.initial events = true ->
  let srv := Lobby.run events in
  Players.getPlayerById (Index.registry_of srv) key = Some player ->
  Rooms.getRoomByPlayer (Index.rooms srv) key
  = match roomId player with
    | Some code => Rooms.getRoom (Index.rooms srv) (JS.Str code)
    | None => None
    end
  /\ (forall room,
        Rooms.getRoomByPlayer (Index.rooms srv) key = Some room ->
        key ∈ players room /\ roomId player = Some (id room)).
Proof.
  intros Hok. cbn zeta. intros Hp. pose proof (run_consistent events Hok) as H.
  set (rooms := Index.rooms (Lobby.run events)) in *.
  assert (forall room, Rooms.getRoomByPlayer rooms key = Some room ->
            exists code, rooms !! code = Some room /\ key ∈ players room) as Hfound.
  { unfold Rooms.getRoomByPlayer. intros room Hroom.
    destruct (List.find _ (map_to_list rooms)) as [[code r]|] eqn:E; [|discriminate].
    injection Hroom as ->. apply find_some in E. destruct E as [Hin Hmem].
    apply list_elem_of_In, elem_of_map_to_list in Hin.
    cbn in Hmem. apply bool_decide_eq_true in Hmem. eauto. }
  assert (forall room, Rooms.getRoomByPlayer rooms key = Some room ->
            key ∈ players room /\ roomId player = Some (id room)) as Hsound.
  { intros room Hroom. destruct (Hfound room Hroom) as (code & Hcode & Hin).
    split; [exact Hin|].
    destruct (Lobby.room_has_members _ _ H code room Hcode) as (Hid & _ & _ & _ & Hm).
    destruct (Hm key Hin) as (q & Hq & Hqr).
    unfold Players.getPlayerById in Hp. congruence. }
  split; [|exact Hsound].
  destruct (Rooms.getRoomByPlayer rooms key) as [room|] eqn:Hget.
  - destruct (Hfound room eq_refl) as (code & Hcode & Hin).
    destruct (Hsound room eq_refl) as [_ ->].
    destruct (Lobby.room_has_members _ _ H code room Hcode) as (-> & Hnorm & _).
    unfold Rooms.getRoom. rewrite Hnorm. symmetry. exact Hcode.
  - destruct (roomId player) as [code|] eqn:Hr; [|reflexivity].
    destruct (Lobby.player_has_room _ _ H key player code Hp Hr)
      as (room & Hroom & Hin).
    exfalso. exact (getRoomByPlayer_None rooms key Hget code room Hroom Hin).
Qed.

Lemma getRoomByPlayer_agrees_with_roomId_witness :
  Rooms.getRoomByPlayer (Index.rooms (Lobby.run Fixtures.lobby_events)) "p2"
  = Rooms.getRoom (Index.rooms (Lobby.run Fixtures.lobby_events)) (JS.Str "ABC123").
Proof.
  destruct (getRoomByPlayer_agrees_with_roomId Fixtures.lobby_events "p2"
              (mkPlayer "p2" "s2" "Player002" (Some "ABC123") None))
    as [Hagree _]; [vm_compute; reflexivity|vm_compute; reflexivity|].
  exact Hagree.
Defined.

(** ** The words offered to the drawer *)

Section OfferedWords.

Import WordEngine.


End OfferedWords.



(** ** A correct guess through the handler *)

(** X23: as index.js is wired, a first correct guess makes the [guess]
    handler throw. The guess engine accepts the guess and puts the player on
    the list of those who guessed, the score engine records the time of the
    guess, and the call of the [updatePlayerScore] that players.js does not
    export then throws: the score of the player is initialised at most, no
    points are added, and the handler stops there, after the chat message
    and before the [correct_guess] broadcast. *)
Theorem correct_guess_throws_in_handler (guessTimestamp now : Z)
    (srv : Index.Server) (socket key text word : string)
    (player scored : Player) (room : Room) (g : Game) :
  Index.resolve Players.playerManager srv socket = inl (player, key, room) ->
  game room = Some g -> status room = IN_GAME -> phase g = DRAWING ->
  drawerId g <> Some (p_id player) -> p_id player ∉ guessedPlayers g ->
  WordEngine.getSelectedWord room = Some word ->
  (1 <= String.length (JS.trim text) <= 50)%nat ->
  JS.toLowerCase (JS.trim text) = WordEngine.normalizeWord (JS.Str word) ->
  Players.getPlayerById (Index.registry_of srv) (p_id player) = Some scored ->
  ScoreEngine.getGuessTime (ScoreEngine.roundGuessTimes (Index.store srv)) (id room)
    (currentRound g) (p_id player) = None ->
  guessTimestamp <> 0 ->
  let result :=
    Index.guess Players.playerManager guessTimestamp now srv socket
      (JS.Obj [("guess", JS.Str text)]) in
  snd result = Throw "TypeError: updatePlayerScore is not a function"
  /\ Index.rooms (fst result) !! key
     = Some (set_game
               (Some (set_guessedPlayers (guessedPlayers g ++ [p_id player]) g))
               room)
  /\ ScoreEngine.getGuessTime (ScoreEngine.roundGuessTimes (Index.store (fst result)))
       (id room) (currentRound g) (p_id player) = Some guessTimestamp
  /\ (forall q, Players.getPlayerById (Index.registry_of (fst result)) q
                = Players.getPlayerById
                    (fst (ScoreEngine.initialize_score (Index.registry_of srv) scored))
                    q).
Proof.
  intros Hres Hg Hs Hph Hd Hnew Hword Hlen Hmatch Hp Hfirst Ht. cbn zeta.
  unfold Index.guess. rewrite Hres. cbn [JS.is_object JS.prop JS.assoc String.eqb
    Ascii.eqb Bool.eqb].
  assert (GuessEngine.validateGuess room (p_id player) text
          = (set_game
               (Some (set_guessedPlayers (guessedPlayers g ++ [p_id player]) g)) room,
             ok true)) as ->.
  { unfold GuessEngine.validateGuess.
    rewrite (hasActiveGame_true room g Hg Hs), Hg. cbn [negb fst snd].
    rewrite (bool_decide_eq_true_2 _ Hph). cbn [negb].
    unfold GameEngine.isCurrentDrawer. rewrite Hg, (bool_decide_eq_false_2 _ Hd).
    rewrite (bool_decide_eq_false_2 _ Hnew).
    rewrite (validateGuessFormat_accepts text Hlen). cbn [negb].
    rewrite Hword, Hmatch, String.eqb_refl. reflexivity. }
  cbn [negb success data ok Players.pm_getPlayerById Players.pm_updatePlayerScore
         Players.playerManager].
  unfold ScoreEngine.awardGuessScore.
  erewrite hasActiveGame_true by (cbn; eauto).
  cbn [negb fst snd game set_game id currentRound set_guessedPlayers
         Index.store Index.put_room ScoreEngine.roundGuessTimes].
  rewrite Hfirst. cbn [ScoreEngine.registry].
  change (ScoreEngine.registry (Index.store srv)) with (Index.registry_of srv).
  rewrite Hp.
  destruct (ScoreEngine.initialize_score (Index.registry_of srv) scored)
    as [reg initialized] eqn:Einit.
  cbn [fst snd Index.rooms Index.store Index.registry_of ScoreEngine.registry
         ScoreEngine.roundGuessTimes].
  split; [reflexivity|]. split; [apply lookup_insert_eq|].
  split; [apply getGuessTime_recorded; exact Ht|]. reflexivity.
Qed.

Lemma correct_guess_throws_in_handler_witness :
  snd (Index.guess Players.playerManager 11000 11001
         (Fixtures.server_of Fixtures.drawing_room) "s2"
         (JS.Obj [("guess", JS.Str " Cat ")]))
  = Throw "TypeError: updatePlayerScore is not a function".
Proof.
  apply (correct_guess_throws_in_handler 11000 11001
           (Fixtures.server_of Fixtures.drawing_room) "s2" "ABC123" " Cat " "cat"
           Fixtures.bob Fixtures.bob Fixtures.drawing_room _
           eq_refl eq_refl eq_refl eq_refl); try reflexivity; try discriminate.
  - apply not_elem_of_nil.
  - vm_compute. lia.
Defined.

(** ** Who is told the word *)

Section WordPrivacy.

Import Index.

Lemma serializeGameState_no_word (room : Room) :
  JS.has_key "word" (serializeGameState room) = false.
Proof.
  unfold serializeGameState. destruct (game room) as [g|]; [|reflexivity].
  cbn. rewrite has_key_strings.
  destruct (drawerId g), (WordEngine.truthy_string (maskedWord g)); reflexivity.
Qed.

Lemma of_option_word_no_key (k : string) (o : option string) :
  JS.has_key k (of_option_word o) = false.
Proof. destruct o; reflexivity. Qed.

Lemma of_option_str_no_key (k : string) (o : option string) :
  JS.has_key k (JS.of_option_str o) = false.
Proof. destruct o; reflexivity. Qed.

Lemma emit_to_members_keeps_word (srv : Server) (room : Room)
    (eventName drawer : string) (body : JS.Value) :
  JS.has_key "selectedWord" body = false -> JS.has_key "word" body = false ->
  forall e, e ∈ emit_to_members srv room eventName body -> keeps_word srv drawer e.
Proof.
  intros H1 H2 e He. unfold emit_to_members in He.
  apply list_elem_of_omap in He. destruct He as (q & _ & He).
  destruct (Players.getPlayerById (registry_of srv) q) as [p|]; [|discriminate].
  destruct (String.eqb (socketId p) ""); [discriminate|].
  injection He as <-. split; cbn; [exact H1|]. rewrite H2. discriminate.
Qed.

Lemma startDrawingPhase_keeps_word (now : Z) (srv : Server)
    (ds : DrawingEngine.State) (key drawer : string) (room : Room) (g : Game) :
  game room = Some g -> drawerId g = Some drawer ->
  exists started,
    snd (startDrawingPhase now srv ds key room) = Normal started
    /\ forall e, e ∈ started ->
         keeps_word (fst (fst (startDrawingPhase now srv ds key room))) drawer e.
Proof.
  intros Hg Hd. unfold startDrawingPhase. rewrite Hg, Hd.
  eexists. split; [reflexivity|]. cbn [fst snd].
  intros e He. apply list_elem_of_omap in He. destruct He as (q & _ & He).
  destruct (Players.getPlayerById _ q) as [p|] eqn:Hp; [|discriminate].
  destruct (String.eqb (socketId p) ""); [discriminate|].
  injection He as <-. unfold keeps_word. cbn [payload to].
  destruct (bool_decide (Some q = Some drawer)) eqn:Hq.
  - apply bool_decide_eq_true in Hq. injection Hq as ->.
    split; [|eauto].
    cbn. rewrite serializeGameState_no_selectedWord, of_option_word_no_key.
    reflexivity.
  - split; cbn.
    + rewrite serializeGameState_no_selectedWord, of_option_word_no_key. reflexivity.
    + rewrite serializeGameState_no_word, of_option_word_no_key. discriminate.
Qed.

Lemma selectWord_by_drawer (room : Room) (playerId : string) (word : JS.Value) :
  success (snd (WordEngine.selectWord room playerId word)) = true ->
  exists g g',
    game room = Some g /\ drawerId g = Some playerId
    /\ game (fst (WordEngine.selectWord room playerId word)) = Some g'
    /\ drawerId g' = Some playerId.
Proof.
  unfold WordEngine.selectWord.
  destruct (GameEngine.hasActiveGame room) as [[] e] eqn:Hact; cbn [negb fst snd];
    [|discriminate].
  apply (f_equal fst) in Hact. cbn [fst] in Hact.
  apply hasActiveGame_inv in Hact. destruct Hact as (Hs & g & Hg). rewrite Hg.
  unfold GameEngine.isCurrentDrawer. rewrite Hg.
  destruct (bool_decide (drawerId g = Some playerId)) eqn:Hd; cbn [negb];
    [|discriminate].
  apply bool_decide_eq_true in Hd.
  destruct (bool_decide (phase g = WORD_SELECT)); cbn [negb]; [|discriminate].
  destruct (_ =? _)%nat; [discriminate|]. intros _.
  exists g. unfold WordEngine.store_and_draw, GameEngine.transitionPhase.
  erewrite hasActiveGame_true by (cbn; eauto). cbn. eauto.
Qed.

Lemma truthy_string_nonempty (s : string) :
  s <> "" -> WordEngine.truthy_string (Some s) = Some s.
Proof.
  intros H. unfold WordEngine.truthy_string.
  destruct (String.eqb_spec s ""); [contradiction|reflexivity].
Qed.

Lemma maskWord_nonempty (w : string) : w <> "" -> WordEngine.maskWord w <> "".
Proof.
  intros Hw Hm. pose proof (maskWord_length w) as Hlen. rewrite Hm in Hlen.
  destruct w; [contradiction|]. cbn in Hlen. lia.
Qed.

(** What a successful [selectWord] leaves on the room. *)
Lemma selectWord_stores (room : Room) (playerId : string) (word : JS.Value) :
  success (snd (WordEngine.selectWord room playerId word)) = true ->
  let w := WordEngine.normalizeWord word in
  exists g',
    game (fst (WordEngine.selectWord room playerId word)) = Some g'
    /\ players (fst (WordEngine.selectWord room playerId word)) = players room
    /\ drawerId g' = Some playerId
    /\ selectedWord g' = Some w /\ maskedWord g' = Some (WordEngine.maskWord w)
    /\ w <> "".
Proof.
  unfold WordEngine.selectWord.
  destruct (GameEngine.hasActiveGame room) as [[] e] eqn:Hact; cbn [negb fst snd];
    [|discriminate].
  apply (f_equal fst) in Hact. cbn [fst] in Hact.
  apply hasActiveGame_inv in Hact. destruct Hact as (Hs & g & Hg). rewrite Hg.
  unfold GameEngine.isCurrentDrawer. rewrite Hg.
  destruct (bool_decide (drawerId g = Some playerId)) eqn:Hd; cbn [negb];
    [|discriminate].
  apply bool_decide_eq_true in Hd.
  destruct (bool_decide (phase g = WORD_SELECT)); cbn [negb]; [|discriminate].
  destruct (String.length (WordEngine.normalizeWord word) =? 0)%nat eqn:Hlen;
    [discriminate|].
  intros _. cbn zeta.
  unfold WordEngine.store_and_draw, GameEngine.transitionPhase.
  erewrite hasActiveGame_true by (cbn; eauto). cbn.
  eexists. split; [reflexivity|]. cbn.
  split; [reflexivity|]. split; [exact Hd|]. split; [reflexivity|].
  split; [reflexivity|].
  intros Hw. rewrite Hw in Hlen. discriminate.
Qed.

Lemma startDrawingPhase_tells_members (now : Z) (srv : Server)
    (ds : DrawingEngine.State) (key drawer w m : string) (room : Room) (g : Game) :
  game room = Some g -> drawerId g = Some drawer ->
  selectedWord g = Some w -> maskedWord g = Some m -> w <> "" -> m <> "" ->
  let result := startDrawingPhase now srv ds key room in
  exists stored started,
    snd result = Normal started
    /\ rooms (fst (fst result)) !! key = Some stored
    /\ WordEngine.getSelectedWord stored = Some w
    /\ forall member player,
         member ∈ players room ->
         Players.getPlayerById (registry_of srv) member = Some player ->
         socketId player <> "" ->
         mkEmission (socketId player) "drawing_started"
           (JS.Obj [ ("game", serializeGameState stored);
                     ("drawerId", JS.Str drawer);
                     (if bool_decide (member = drawer)
                      then ("word", JS.Str w)
                      else ("maskedWord", JS.Str m)) ])
         ∈ started.
Proof.
  intros Hg Hd Hw Hm Hw0 Hm0. cbn zeta. unfold startDrawingPhase. rewrite Hg.
  set (room' := match roundStartTime g with
                | Some t =>
                    if (t =? 0)%Z then ScoreEngine.initializeRoundStartTime room now
                    else room
                | None => ScoreEngine.initializeRoundStartTime room now
                end).
  assert (players room' = players room
          /\ WordEngine.getSelectedWord room' = Some w
          /\ WordEngine.getMaskedWord room' = Some m) as (Hpl & Hsel & Hmask).
  { assert (players (ScoreEngine.initializeRoundStartTime room now) = players room
            /\ WordEngine.getSelectedWord (ScoreEngine.initializeRoundStartTime room now)
               = Some w
            /\ WordEngine.getMaskedWord (ScoreEngine.initializeRoundStartTime room now)
               = Some m) as Hinit.
    { unfold ScoreEngine.initializeRoundStartTime, WordEngine.getSelectedWord,
        WordEngine.getMaskedWord. rewrite Hg. cbn. rewrite Hw, Hm.
      rewrite !truthy_string_nonempty by assumption. auto. }
    assert (players room = players room
            /\ WordEngine.getSelectedWord room = Some w
            /\ WordEngine.getMaskedWord room = Some m) as Hsame.
    { unfold WordEngine.getSelectedWord, WordEngine.getMaskedWord.
      rewrite Hg, Hw, Hm. rewrite !truthy_string_nonempty by assumption. auto. }
    unfold room'. destruct (roundStartTime g) as [t|]; [|exact Hinit].
    destruct (t =? 0)%Z; [exact Hinit|exact Hsame]. }
  exists room'. eexists. cbn [fst snd].
  split; [reflexivity|]. split.
  { unfold put_room. cbn [rooms]. apply lookup_insert_eq. }
  split; [exact Hsel|].
  intros member player Hin Hp Hsock.
  apply list_elem_of_omap. exists member. rewrite Hpl. split; [exact Hin|].
  change (registry_of (put_room srv key room')) with (registry_of srv).
  rewrite Hp.
  destruct (String.eqb_spec (socketId player) ""); [contradiction|].
  rewrite Hd, Hsel, Hmask. cbn [JS.of_option_str of_option_word].
  destruct (bool_decide (member = drawer)) eqn:E.
  - apply bool_decide_eq_true in E. subst member.
    rewrite bool_decide_eq_true_2 by reflexivity. reflexivity.
  - apply bool_decide_eq_false in E.
    rewrite bool_decide_eq_false_2 by congruence. reflexivity.
Qed.

End WordPrivacy.

(** X24: the select_word handler never throws, and it tells the selected
    word to the drawer and to nobody else. No emission has a [selectedWord]
    field, and an emission with a [word] field goes to the socket of the
    sender, who is then the drawer of the round. When the selection is
    accepted, the word is stored in its normal form, and every member of the
    room who is registered with a socket is sent [drawing_started] with the
    game and the drawer's id: the drawer with the word, every other member
    with its mask. *)
Theorem selected_word_is_told_to_the_drawer_only (now : Z) (srv : Index.Server)
    (ds : DrawingEngine.State) (socket : string) (body : JS.Value) :
  let result := Index.select_word now srv ds socket body in
  exists emitted,
    snd result = Normal emitted
    /\ (forall e, e ∈ emitted ->
          JS.has_key "selectedWord" (Index.payload e) = false
          /\ (JS.has_key "word" (Index.payload e) = true ->
              exists sender key room player,
                Index.resolve Players.playerManager srv socket
                = inl (sender, key, room)
                /\ GameEngine.isCurrentDrawer room (p_id sender) = true
                /\ Players.getPlayerById (Index.registry_of (fst (fst result)))
                     (p_id sender) = Some player
                /\ Index.to e = socketId player))
    /\ (forall sender key room,
          Index.resolve Players.playerManager srv socket = inl (sender, key, room) ->
          JS.is_object body = true -> JS.truthy (JS.prop body "word") = true ->
          success (snd (WordEngine.selectWord room (p_id sender)
                          (JS.prop body "word"))) = true ->
          let word := WordEngine.normalizeWord (JS.prop body "word") in
          exists stored,
            Index.rooms (fst (fst result)) !! key = Some stored
            /\ WordEngine.getSelectedWord stored = Some word
            /\ forall member player,
                 member ∈ players room ->
                 Players.getPlayerById (Index.registry_of srv) member = Some player ->
                 socketId player <> "" ->
                 Index.mkEmission (socketId player) "drawing_started"
                   (JS.Obj [ ("game", Index.serializeGameState stored);
                             ("drawerId", JS.Str (p_id sender));
                             (if bool_decide (member = p_id sender)
                              then ("word", JS.Str word)
                              else ("maskedWord",
                                    JS.Str (WordEngine.maskWord word))) ])
                 ∈ emitted).
Proof.
  cbn zeta. unfold Index.select_word.
  assert (forall msg e, e ∈ [Index.game_error socket msg] ->
            JS.has_key "selectedWord" (Index.payload e) = false
            /\ JS.has_key "word" (Index.payload e) = false) as Herr.
  { intros msg e He. apply list_elem_of_singleton in He. subst e.
    destruct msg; split; reflexivity. }
  destruct (Index.resolve Players.playerManager srv socket)
    as [[[sender key] room]|msg] eqn:Hres.
  2:{ eexists. split; [reflexivity|]. split; [|discriminate]. intros e He.
      destruct (Herr _ e He) as [H1 H2]. split; [exact H1|].
      rewrite H2. discriminate. }
  destruct (negb (JS.is_object body) || negb (JS.truthy (JS.prop body "word")))
    eqn:Hbody.
  { eexists. split; [reflexivity|]. split.
    - intros e He. destruct (Herr _ e He) as [H1 H2]. split; [exact H1|].
      rewrite H2. discriminate.
    - intros sender' key' room' _ Hobj Htruthy. rewrite Hobj, Htruthy in Hbody.
      discriminate. }
  pose proof (selectWord_by_drawer room (p_id sender) (JS.prop body "word")) as Hsel.
  pose proof (selectWord_stores room (p_id sender) (JS.prop body "word")) as Hstores.
  destruct (WordEngine.selectWord room (p_id sender) (JS.prop body "word"))
    as [room' result] eqn:Esel.
  cbn [fst snd] in Hsel, Hstores.
  destruct (success result) eqn:Hok.
  2:{ eexists. split; [reflexivity|]. split.
      - intros e He. destruct (Herr _ e He) as [H1 H2]. split; [exact H1|].
        rewrite H2. discriminate.
      - intros sender' key' room'' [= <- <- <-] _ _ Hs.
        rewrite Esel in Hs. cbn [snd] in Hs. congruence. }
  destruct (Hsel eq_refl) as (g & g0 & Hg & Hd & Hg0 & Hd0).
  destruct (Hstores eq_refl) as (g' & Hg' & Hpl & Hd' & Hword & Hmask & Hw0).
  destruct (startDrawingPhase_keeps_word now (Index.put_room srv key room') ds key
              (p_id sender) room' g' Hg' Hd') as (started & Hstarted & Hkeeps).
  destruct (startDrawingPhase_tells_members now (Index.put_room srv key room') ds key
              (p_id sender) _ _ room' g' Hg' Hd' Hword Hmask Hw0
              (maskWord_nonempty _ Hw0))
    as (stored & started' & Hstarted' & Hstored & Hsel' & Htold).
  destruct (Index.startDrawingPhase now (Index.put_room srv key room') ds key room')
    as [[srv' ds'] outcome].
  cbn [fst snd] in *. subst outcome. injection Hstarted' as <-.
  eexists. split; [reflexivity|]. split.
  - intros e He. apply elem_of_app in He. destruct He as [He|He].
    + unfold Index.broadcastToRoom in He.
      destruct (Rooms.getRoom _ _) as [found|]; [|inversion He].
      unfold Index.emit_to_members in He.
      apply list_elem_of_omap in He. destruct He as (q & _ & He).
      destruct (Players.getPlayerById _ q) as [p|]; [|discriminate].
      destruct (String.eqb (socketId p) ""); [discriminate|].
      injection He as <-. cbn. rewrite !of_option_str_no_key.
      split; [reflexivity|discriminate].
    + destruct (Hkeeps e He) as [H1 H2]. split; [exact H1|]. intros Hw.
      destruct (H2 Hw) as (player & Hp & Hto).
      exists sender, key, room, player. split; [reflexivity|].
      split; [|auto].
      unfold GameEngine.isCurrentDrawer. rewrite Hg.
      apply bool_decide_eq_true_2. exact Hd.
  - intros sender' key' room'' [= <- <- <-] _ _ _.
    exists stored. split; [exact Hstored|]. split; [exact Hsel'|].
    intros member player Hin Hp Hsock. apply elem_of_app. right.
    apply Htold; [rewrite Hpl; exact Hin|exact Hp|exact Hsock].
Qed.

(** The handler on a room that waits for the word of its drawer "p1": the
    drawer is sent the word, the other player its mask. *)
Lemma selected_word_is_told_to_the_drawer_only_witness :
  exists emitted stored,
    snd (Index.select_word 5000 (Fixtures.server_of Fixtures.word_select_room)
           (DrawingEngine.mkState ∅ ∅) "s1" (JS.Obj [("word", JS.Str " Cat ")]))
    = Normal emitted
    /\ Index.mkEmission "s1" "drawing_started"
         (JS.Obj [ ("game", Index.serializeGameState stored);
                   ("drawerId", JS.Str "p1"); ("word", JS.Str "cat") ])
       ∈ emitted
    /\ Index.mkEmission "s2" "drawing_started"
         (JS.Obj [ ("game", Index.serializeGameState stored);
                   ("drawerId", JS.Str "p1"); ("maskedWord", JS.Str "_ _ _") ])
       ∈ emitted.
Proof.
  destruct (selected_word_is_told_to_the_drawer_only 5000
              (Fixtures.server_of Fixtures.word_select_room)
              (DrawingEngine.mkState ∅ ∅) "s1" (JS.Obj [("word", JS.Str " Cat ")]))
    as (emitted & Hn & _ & Htold).
  destruct (Htold Fixtures.alice "ABC123" Fixtures.word_select_room)
    as (stored & _ & _ & Hmembers);
    try (vm_compute; reflexivity).
  exists emitted, stored. split; [exact Hn|]. split.
  - apply (Hmembers "p1" Fixtures.alice);
      [left|vm_compute; reflexivity|discriminate].
  - apply (Hmembers "p2" Fixtures.bob);
      [right; left|vm_compute; reflexivity|discriminate].
Defined.
